(** * LendingPool: a shallow embedding of contracts/lending/LendingPool.sol

    The contract is written for Solidity ^0.8.24: every [uint256] operation
    is checked (overflow, underflow and division by zero abort the call with
    a panic), every failed [require] aborts the call, and an aborted call
    discards all the writes it made.  The embedding keeps these three facts
    explicit: arithmetic goes through [add], [sub], [mul], [div], every
    function is a computation in the [result] monad, and the entry point
    [call] keeps the pre-state when the body aborts. *)

From Stdlib Require Import NArith ZArith Lia List Bool.
From stdpp Require Import base option gmap.

Local Open Scope N_scope.

(** ** Machine integers and constants *)

Definition MAX_UINT256 : N := 2 ^ 256 - 1.
Definition WAD : N := 1000000000000000000.
Definition PRICE_PRECISION : N := 1000000000000000000.
Definition MAX_ORACLE_DELAY : N := 3600.

(** Addresses are 160-bit numbers; [address(0)] is [0]. *)
Abbreviation address := N.

(** ** Failure modes

    One constructor per revert reason of the contract (the string of the
    [require] is given next to it), plus the panics of checked arithmetic and
    the failures of the collaborators (access control, pause gate, tokens,
    calls to an address without code). *)

Inductive Error : Type :=
| ZeroAmount              (* "Amount zero" *)
| InsufficientCollateral  (* "Insufficient collateral" *)
| InsufficientLiquidity   (* "Insufficient liquidity" *)
| NothingToRepay          (* "Nothing to repay" *)
| SelfLiquidation         (* "Self liquidation" *)
| AccountHealthy          (* "Account healthy" *)
| NoDebt                  (* "No debt" *)
| InvalidCollateralFactor (* "Invalid collateral factor" *)
| InvalidThreshold        (* "Invalid threshold" *)
| InvalidBonus            (* "Invalid bonus" *)
| OracleZero              (* "Oracle zero" *)
| OracleMissing           (* "Oracle missing" *)
| InvalidPrice            (* "Invalid price" *)
| StalePrice              (* "Stale price" *)
| TokenZero               (* "Collateral token zero", "Debt token zero" *)
| AdminZero               (* "Admin zero" *)
| EnforcedPause           (* Pausable: whenNotPaused *)
| ExpectedPause           (* Pausable: whenPaused *)
| AccessDenied            (* AccessControl: onlyRole *)
| TransferFailed          (* token: insufficient balance or allowance *)
| CallFailed              (* external call to an address without code *)
| ArithmeticPanic         (* Panic(0x11): overflow or underflow *)
| DivisionByZero.         (* Panic(0x12) *)

Inductive result (A : Type) : Type :=
| Ok (a : A)
| Revert (e : Error).
Arguments Ok {A} a.
Arguments Revert {A} e.

Definition bind {A B : Type} (c : result A) (k : A -> result B) : result B :=
  match c with
  | Ok a => k a
  | Revert e => Revert e
  end.

Declare Scope result_scope.
Delimit Scope result_scope with res.
Notation "'let!' x ':=' c 'in' k" := (bind c (fun x => k))
  (at level 10, x name, c at level 100, k at level 200) : result_scope.
Notation "'let!' ' p ':=' c 'in' k" :=
  (bind c (fun x => match x with p => k end))
  (at level 10, p pattern, c at level 100, k at level 200) : result_scope.
Notation "'check!' c 'in' k" := (bind c (fun _ => k))
  (at level 10, c at level 100, k at level 200) : result_scope.
Local Open Scope result_scope.

Definition require (b : bool) (e : Error) : result unit :=
  if b then Ok tt else Revert e.

(** Checked [uint256] arithmetic of Solidity 0.8. *)
Definition add (a b : N) : result N :=
  if a + b <=? MAX_UINT256 then Ok (a + b) else Revert ArithmeticPanic.
Definition sub (a b : N) : result N :=
  if b <=? a then Ok (a - b) else Revert ArithmeticPanic.
Definition mul (a b : N) : result N :=
  if a * b <=? MAX_UINT256 then Ok (a * b) else Revert ArithmeticPanic.
Definition div (a b : N) : result N :=
  if b =? 0 then Revert DivisionByZero else Ok (a / b).
(** [10 ** uint256(decimals)] *)
Definition pow10 (d : N) : result N :=
  if 10 ^ d <=? MAX_UINT256 then Ok (10 ^ d) else Revert ArithmeticPanic.

(** ** Data model *)

Record Account : Type := mkAccount {
  collateral : N;
  borrowBase : N
}.

(** The storage of the contract, field by field, with the two immutables,
    the contract's own address, the pause flag of [Pausable] and the holders
    of [MANAGER_ROLE]. *)
Record Pool : Type := mkPool {
  this : address;
  collateralTokenDecimals : N;
  debtTokenDecimals : N;
  collateralOracle : address;
  debtOracle : address;
  collateralFactor : N;
  liquidationThreshold : N;
  liquidationBonus : N;
  interestRatePerSecond : N;
  totalCollateral : N;
  totalBorrows : N;
  borrowIndex : N;
  lastAccrual : N;
  accounts : gmap N Account;
  paused : bool;
  managers : gset N
}.

(** A Chainlink-style price feed as seen through [latestRoundData] and
    [decimals] (contracts/mocks/MockV3Aggregator.sol): [answer] is an
    [int256]. *)
Record Feed : Type := mkFeed {
  feedDecimals : N;
  answer : Z;
  updatedAt : N
}.

(** Modelled from the spec: the asset-transfer primitive of the two ERC-20
    tokens (OpenZeppelin code outside the repository): a ledger of balances
    and allowances whose transfers are atomic and abort on insufficient
    balance or approval. *)
Record Token : Type := mkToken {
  balances : gmap N N;
  allowances : gmap (N * N) N
}.

(** Everything a call can write. *)
Record World : Type := mkWorld {
  pool : Pool;
  collateralToken : Token;
  debtToken : Token
}.

(** What a call reads from its context: [block.timestamp], [msg.sender] and
    the price feeds deployed on chain. *)
Record Env : Type := mkEnv {
  timestamp : N;
  sender : address;
  feeds : gmap N Feed
}.

(** *** Storage writes *)

Definition set_oracles (c d : address) (p : Pool) : Pool :=
  mkPool (this p) (collateralTokenDecimals p) (debtTokenDecimals p) c d
    (collateralFactor p) (liquidationThreshold p) (liquidationBonus p)
    (interestRatePerSecond p) (totalCollateral p) (totalBorrows p)
    (borrowIndex p) (lastAccrual p) (accounts p) (paused p) (managers p).

Definition set_riskParameters (cf lt lb : N) (p : Pool) : Pool :=
  mkPool (this p) (collateralTokenDecimals p) (debtTokenDecimals p)
    (collateralOracle p) (debtOracle p) cf lt lb
    (interestRatePerSecond p) (totalCollateral p) (totalBorrows p)
    (borrowIndex p) (lastAccrual p) (accounts p) (paused p) (managers p).

Definition set_interestRatePerSecond (r : N) (p : Pool) : Pool :=
  mkPool (this p) (collateralTokenDecimals p) (debtTokenDecimals p)
    (collateralOracle p) (debtOracle p)
    (collateralFactor p) (liquidationThreshold p) (liquidationBonus p)
    r (totalCollateral p) (totalBorrows p)
    (borrowIndex p) (lastAccrual p) (accounts p) (paused p) (managers p).

Definition set_totalCollateral (v : N) (p : Pool) : Pool :=
  mkPool (this p) (collateralTokenDecimals p) (debtTokenDecimals p)
    (collateralOracle p) (debtOracle p)
    (collateralFactor p) (liquidationThreshold p) (liquidationBonus p)
    (interestRatePerSecond p) v (totalBorrows p)
    (borrowIndex p) (lastAccrual p) (accounts p) (paused p) (managers p).

Definition set_totalBorrows (v : N) (p : Pool) : Pool :=
  mkPool (this p) (collateralTokenDecimals p) (debtTokenDecimals p)
    (collateralOracle p) (debtOracle p)
    (collateralFactor p) (liquidationThreshold p) (liquidationBonus p)
    (interestRatePerSecond p) (totalCollateral p) v
    (borrowIndex p) (lastAccrual p) (accounts p) (paused p) (managers p).

Definition set_borrowIndex (v : N) (p : Pool) : Pool :=
  mkPool (this p) (collateralTokenDecimals p) (debtTokenDecimals p)
    (collateralOracle p) (debtOracle p)
    (collateralFactor p) (liquidationThreshold p) (liquidationBonus p)
    (interestRatePerSecond p) (totalCollateral p) (totalBorrows p)
    v (lastAccrual p) (accounts p) (paused p) (managers p).

Definition set_lastAccrual (v : N) (p : Pool) : Pool :=
  mkPool (this p) (collateralTokenDecimals p) (debtTokenDecimals p)
    (collateralOracle p) (debtOracle p)
    (collateralFactor p) (liquidationThreshold p) (liquidationBonus p)
    (interestRatePerSecond p) (totalCollateral p) (totalBorrows p)
    (borrowIndex p) v (accounts p) (paused p) (managers p).

Definition set_accounts (m : gmap N Account) (p : Pool) : Pool :=
  mkPool (this p) (collateralTokenDecimals p) (debtTokenDecimals p)
    (collateralOracle p) (debtOracle p)
    (collateralFactor p) (liquidationThreshold p) (liquidationBonus p)
    (interestRatePerSecond p) (totalCollateral p) (totalBorrows p)
    (borrowIndex p) (lastAccrual p) m (paused p) (managers p).

Definition set_paused (b : bool) (p : Pool) : Pool :=
  mkPool (this p) (collateralTokenDecimals p) (debtTokenDecimals p)
    (collateralOracle p) (debtOracle p)
    (collateralFactor p) (liquidationThreshold p) (liquidationBonus p)
    (interestRatePerSecond p) (totalCollateral p) (totalBorrows p)
    (borrowIndex p) (lastAccrual p) (accounts p) b (managers p).

(** [accounts[a]]: a Solidity mapping reads zero where nothing was written. *)
Definition account_of (p : Pool) (a : address) : Account :=
  default (mkAccount 0 0) (accounts p !! a).

Definition set_account (a : address) (acc : Account) (p : Pool) : Pool :=
  set_accounts (<[a := acc]> (accounts p)) p.

Definition set_collateral (v : N) (acc : Account) : Account :=
  mkAccount v (borrowBase acc).
Definition set_borrowBase (v : N) (acc : Account) : Account :=
  mkAccount (collateral acc) v.

(** *** Token ledger *)

Definition balanceOf (t : Token) (a : address) : N :=
  default 0 (balances t !! a).
Definition allowance (t : Token) (owner spender : address) : N :=
  default 0 (allowances t !! (owner, spender)).

(** [token.safeTransfer(to, amount)] called by [from]. *)
Definition safeTransfer (t : Token) (from to : address) (amount : N)
  : result Token :=
  check! require (amount <=? balanceOf t from) TransferFailed in
  let b := <[from := balanceOf t from - amount]> (balances t) in
  Ok (mkToken (<[to := default 0 (b !! to) + amount]> b) (allowances t)).

(** [token.safeTransferFrom(from, to, amount)] called by [spender]. *)
Definition safeTransferFrom (t : Token) (spender from to : address)
  (amount : N) : result Token :=
  check! require (amount <=? allowance t from spender) TransferFailed in
  let! t' := safeTransfer t from to amount in
  Ok (mkToken (balances t')
        (<[(from, spender) := allowance t from spender - amount]>
           (allowances t'))).

(** ** Internal functions of the contract *)

(** [_validateRiskParams] *)
Definition _validateRiskParams (cf lt lb : N) : result unit :=
  check! require ((0 <? cf) && (cf <=? WAD)) InvalidCollateralFactor in
  check! require ((cf <=? lt) && (lt <=? WAD)) InvalidThreshold in
  require (WAD <=? lb) InvalidBonus.

(** [_getScaledPrice]: the second [require] short-circuits on
    [updatedAt != 0] before the checked subtraction. *)
Definition _getScaledPrice (env : Env) (oracle : address) : result N :=
  check! require (negb (oracle =? 0)) OracleMissing in
  let! f := match feeds env !! oracle with
            | Some f => Ok f
            | None => Revert CallFailed
            end in
  check! require (0 <? answer f)%Z InvalidPrice in
  let! fresh :=
    if updatedAt f =? 0 then Ok false
    else let! age := sub (timestamp env) (updatedAt f) in
         Ok (age <=? MAX_ORACLE_DELAY) in
  check! require fresh StalePrice in
  let! scale := pow10 (feedDecimals f) in
  let! scaled := mul (Z.to_N (answer f)) PRICE_PRECISION in
  div scaled scale.

(** [_tokenValueUsd] *)
Definition _tokenValueUsd (env : Env) (amount decimals : N) (oracle : address)
  : result N :=
  if amount =? 0 then Ok 0
  else
    let! price := _getScaledPrice env oracle in
    let! scale := pow10 decimals in
    let! value := mul amount price in
    div value scale.

Definition _collateralValueUsd (env : Env) (p : Pool) (amount : N) : result N :=
  _tokenValueUsd env amount (collateralTokenDecimals p) (collateralOracle p).

Definition _debtValueUsd (env : Env) (p : Pool) (amount : N) : result N :=
  _tokenValueUsd env amount (debtTokenDecimals p) (debtOracle p).

(** [_maxBorrowInDebtTokens] *)
Definition _maxBorrowInDebtTokens (env : Env) (p : Pool) (collateralAmount : N)
  : result N :=
  let! value := _collateralValueUsd env p collateralAmount in
  let! weighted := mul value (collateralFactor p) in
  let! usdLimit := div weighted WAD in
  if usdLimit =? 0 then Ok 0
  else
    let! debtPrice := _getScaledPrice env (debtOracle p) in
    let! scale := pow10 (debtTokenDecimals p) in
    let! scaledLimit := mul usdLimit scale in
    div scaledLimit debtPrice.

(** [_borrowBalanceWithIndex] *)
Definition _borrowBalanceWithIndex (account : Account) (index : N) : result N :=
  if borrowBase account =? 0 then Ok 0
  else
    let! scaled := mul (borrowBase account) index in
    div scaled WAD.

(** [_borrowBalance] *)
Definition _borrowBalance (p : Pool) (account : Account) : result N :=
  _borrowBalanceWithIndex account (borrowIndex p).

(** [_healthFactor]; [type(uint256).max] is [MAX_UINT256]. *)
Definition _healthFactor (env : Env) (p : Pool)
  (collateralAmount borrowBase index threshold : N) : result N :=
  if borrowBase =? 0 then Ok MAX_UINT256
  else
    let! scaled := mul borrowBase index in
    let! debt := div scaled WAD in
    if debt =? 0 then Ok MAX_UINT256
    else
      let! collateralValue := _collateralValueUsd env p collateralAmount in
      let! debtValue := _debtValueUsd env p debt in
      if debtValue =? 0 then Ok MAX_UINT256
      else
        let! weighted := mul collateralValue threshold in
        div weighted debtValue.

(** [_isSolvent] *)
Definition _isSolvent (env : Env) (p : Pool) (account : Account) : result bool :=
  let! debt := _borrowBalance p account in
  if debt =? 0 then Ok true
  else
    let! collateralValue := _collateralValueUsd env p (collateral account) in
    let! debtValue := _debtValueUsd env p debt in
    let! weighted := mul collateralValue (collateralFactor p) in
    let! limit := div weighted WAD in
    Ok (debtValue <=? limit).

(** [_isHealthy] *)
Definition _isHealthy (env : Env) (p : Pool) (account : Account) : result bool :=
  let! health := _healthFactor env p (collateral account) (borrowBase account)
                   (borrowIndex p) (liquidationThreshold p) in
  Ok (WAD <=? health).

(** [_previewAccrual]: returns [(projectedIndex, projectedBorrows)]. *)
Definition _previewAccrual (env : Env) (p : Pool) : result (N * N) :=
  if (timestamp env =? lastAccrual p) || (totalBorrows p =? 0)
     || (interestRatePerSecond p =? 0)
  then Ok (borrowIndex p, totalBorrows p)
  else
    let! delta := sub (timestamp env) (lastAccrual p) in
    let! simpleInterestFactor := mul (interestRatePerSecond p) delta in
    let! scaled := mul (totalBorrows p) simpleInterestFactor in
    let! interest := div scaled WAD in
    let! projectedBorrows := add (totalBorrows p) interest in
    let! scaledIndex := mul (borrowIndex p) simpleInterestFactor in
    let! growth := div scaledIndex WAD in
    let! projectedIndex := add (borrowIndex p) growth in
    Ok (projectedIndex, projectedBorrows).

(** [_accrueInterest] *)
Definition _accrueInterest (env : Env) (p : Pool) : result Pool :=
  if (timestamp env =? lastAccrual p) || (totalBorrows p =? 0)
     || (interestRatePerSecond p =? 0)
  then Ok (set_lastAccrual (timestamp env) p)
  else
    let! delta := sub (timestamp env) (lastAccrual p) in
    let! simpleInterestFactor := mul (interestRatePerSecond p) delta in
    let! scaled := mul (totalBorrows p) simpleInterestFactor in
    let! interest := div scaled WAD in
    let! newBorrows := add (totalBorrows p) interest in
    let! scaledIndex := mul (borrowIndex p) simpleInterestFactor in
    let! growth := div scaledIndex WAD in
    let! newIndex := add (borrowIndex p) growth in
    Ok (set_lastAccrual (timestamp env)
          (set_borrowIndex newIndex (set_totalBorrows newBorrows p))).

(** [_increaseBorrow] on [accounts[who]] *)
Definition _increaseBorrow (p : Pool) (who : address) (amount : N)
  : result Pool :=
  let account := account_of p who in
  let! current := _borrowBalance p account in
  let! newBalance := add current amount in
  let! scaled := mul newBalance WAD in
  let! base := div scaled (borrowIndex p) in
  let p1 := set_account who (set_borrowBase base account) p in
  let! newBorrows := add (totalBorrows p1) amount in
  Ok (set_totalBorrows newBorrows p1).

(** [_decreaseBorrow] on [accounts[who]]: returns the amount applied. *)
Definition _decreaseBorrow (p : Pool) (who : address) (amount : N)
  : result (N * Pool) :=
  let account := account_of p who in
  let! current := _borrowBalance p account in
  let amount := if current <? amount then current else amount in
  if amount =? 0 then Ok (0, p)
  else
    let! newBalance := sub current amount in
    let! base :=
      if newBalance =? 0 then Ok 0
      else let! scaled := mul newBalance WAD in
           div scaled (borrowIndex p) in
    let p1 := set_account who (set_borrowBase base account) p in
    let! newBorrows := sub (totalBorrows p1) amount in
    Ok (amount, set_totalBorrows newBorrows p1).

(** ** Modifiers

    [nonReentrant] is not modelled: the token ledgers above make no
    call-backs, so a call is never entered twice. *)

Definition whenNotPaused (p : Pool) : result unit :=
  require (negb (paused p)) EnforcedPause.

Definition onlyManager (env : Env) (p : Pool) : result unit :=
  require (bool_decide (sender env ∈ managers p)) AccessDenied.

(** ** Constructor and public functions

    Events are not modelled.  Each function takes the context of the call
    and the state before it and returns the state after it. *)

Definition constructor (env : Env) (self _collateralToken _debtToken : address)
  (_collateralDecimals _debtDecimals : N)
  (_collateralFactor _liquidationThreshold _liquidationBonus
     _interestRatePerSecond : N)
  (admin _collateralOracle _debtOracle : address) : result Pool :=
  check! require (negb (_collateralToken =? 0)) TokenZero in
  check! require (negb (_debtToken =? 0)) TokenZero in
  check! require (negb (admin =? 0)) AdminZero in
  check! require (negb (_collateralOracle =? 0)) OracleZero in
  check! require (negb (_debtOracle =? 0)) OracleZero in
  check! _validateRiskParams _collateralFactor _liquidationThreshold
           _liquidationBonus in
  Ok (mkPool self _collateralDecimals _debtDecimals
        _collateralOracle _debtOracle
        _collateralFactor _liquidationThreshold _liquidationBonus
        _interestRatePerSecond 0 0 WAD (timestamp env) ∅ false {[admin]}).

Definition depositCollateral (env : Env) (amount : N) (w : World)
  : result World :=
  check! whenNotPaused (pool w) in
  check! require (0 <? amount) ZeroAmount in
  let! p1 := _accrueInterest env (pool w) in
  let account := account_of p1 (sender env) in
  let! c := add (collateral account) amount in
  let p2 := set_account (sender env) (set_collateral c account) p1 in
  let! tc := add (totalCollateral p2) amount in
  let p3 := set_totalCollateral tc p2 in
  let! tok := safeTransferFrom (collateralToken w) (this p3) (sender env)
                (this p3) amount in
  Ok (mkWorld p3 tok (debtToken w)).

Definition withdrawCollateral (env : Env) (amount : N) (w : World)
  : result World :=
  check! require (0 <? amount) ZeroAmount in
  let! p1 := _accrueInterest env (pool w) in
  let account := account_of p1 (sender env) in
  check! require (amount <=? collateral account) InsufficientCollateral in
  let! c := sub (collateral account) amount in
  let p2 := set_account (sender env) (set_collateral c account) p1 in
  let! tc := sub (totalCollateral p2) amount in
  let p3 := set_totalCollateral tc p2 in
  let! solvent := _isSolvent env p3 (account_of p3 (sender env)) in
  check! require solvent InsufficientCollateral in
  let! tok := safeTransfer (collateralToken w) (this p3) (sender env) amount in
  Ok (mkWorld p3 tok (debtToken w)).

Definition borrow (env : Env) (amount : N) (w : World) : result World :=
  check! whenNotPaused (pool w) in
  check! require (0 <? amount) ZeroAmount in
  let! p1 := _accrueInterest env (pool w) in
  check! require (amount <=? balanceOf (debtToken w) (this p1))
           InsufficientLiquidity in
  let! p2 := _increaseBorrow p1 (sender env) amount in
  let! solvent := _isSolvent env p2 (account_of p2 (sender env)) in
  check! require solvent InsufficientCollateral in
  let! tok := safeTransfer (debtToken w) (this p2) (sender env) amount in
  Ok (mkWorld p2 (collateralToken w) tok).

(** [repay] returns [actualRepay]. *)
Definition repay (env : Env) (amount : N) (w : World) : result (N * World) :=
  check! require (0 <? amount) ZeroAmount in
  let! p1 := _accrueInterest env (pool w) in
  let! '(actualRepay, p2) := _decreaseBorrow p1 (sender env) amount in
  check! require (0 <? actualRepay) NothingToRepay in
  let! tok := safeTransferFrom (debtToken w) (this p2) (sender env) (this p2)
                actualRepay in
  Ok (actualRepay, mkWorld p2 (collateralToken w) tok).

Definition liquidate (env : Env) (borrower : address) (repayAmount : N)
  (w : World) : result World :=
  check! whenNotPaused (pool w) in
  check! require (negb (borrower =? sender env)) SelfLiquidation in
  check! require (0 <? repayAmount) ZeroAmount in
  let! p1 := _accrueInterest env (pool w) in
  let! healthy := _isHealthy env p1 (account_of p1 borrower) in
  check! require (negb healthy) AccountHealthy in
  let! debt := _borrowBalance p1 (account_of p1 borrower) in
  check! require (0 <? debt) NoDebt in
  let actualRepay := if debt <? repayAmount then debt else repayAmount in
  let! dtok := safeTransferFrom (debtToken w) (this p1) (sender env) (this p1)
                 actualRepay in
  let! '(_, p2) := _decreaseBorrow p1 borrower actualRepay in
  let account := account_of p2 borrower in
  let! bonus := mul actualRepay (liquidationBonus p2) in
  let! seize0 := div bonus WAD in
  let seize := if collateral account <? seize0 then collateral account
               else seize0 in
  let! c := sub (collateral account) seize in
  let p3 := set_account borrower (set_collateral c account) p2 in
  let! tc := sub (totalCollateral p3) seize in
  let p4 := set_totalCollateral tc p3 in
  let! ctok := safeTransfer (collateralToken w) (this p4) (sender env) seize in
  Ok (mkWorld p4 ctok dtok).

Definition provideLiquidity (env : Env) (amount : N) (w : World)
  : result World :=
  check! onlyManager env (pool w) in
  check! require (0 <? amount) ZeroAmount in
  let! tok := safeTransferFrom (debtToken w) (this (pool w)) (sender env)
                (this (pool w)) amount in
  Ok (mkWorld (pool w) (collateralToken w) tok).

Definition withdrawLiquidity (env : Env) (amount : N) (w : World)
  : result World :=
  check! onlyManager env (pool w) in
  check! require (0 <? amount) ZeroAmount in
  check! require (amount <=? balanceOf (debtToken w) (this (pool w)))
           InsufficientLiquidity in
  let! tok := safeTransfer (debtToken w) (this (pool w)) (sender env) amount in
  Ok (mkWorld (pool w) (collateralToken w) tok).

Definition setRiskParameters (env : Env) (cf lt lb : N) (w : World)
  : result World :=
  check! onlyManager env (pool w) in
  check! _validateRiskParams cf lt lb in
  Ok (mkWorld (set_riskParameters cf lt lb (pool w))
        (collateralToken w) (debtToken w)).

Definition setInterestRate (env : Env) (newRate : N) (w : World)
  : result World :=
  check! onlyManager env (pool w) in
  let! p1 := _accrueInterest env (pool w) in
  Ok (mkWorld (set_interestRatePerSecond newRate p1)
        (collateralToken w) (debtToken w)).

Definition setOracles (env : Env) (newCollateralOracle newDebtOracle : address)
  (w : World) : result World :=
  check! onlyManager env (pool w) in
  check! require (negb (newCollateralOracle =? 0) && negb (newDebtOracle =? 0))
           OracleZero in
  Ok (mkWorld (set_oracles newCollateralOracle newDebtOracle (pool w))
        (collateralToken w) (debtToken w)).

Definition pause (env : Env) (w : World) : result World :=
  check! onlyManager env (pool w) in
  check! require (negb (paused (pool w))) EnforcedPause in
  Ok (mkWorld (set_paused true (pool w)) (collateralToken w) (debtToken w)).

Definition unpause (env : Env) (w : World) : result World :=
  check! onlyManager env (pool w) in
  check! require (paused (pool w)) ExpectedPause in
  Ok (mkWorld (set_paused false (pool w)) (collateralToken w) (debtToken w)).

Definition accrueInterest (env : Env) (w : World) : result World :=
  let! p1 := _accrueInterest env (pool w) in
  Ok (mkWorld p1 (collateralToken w) (debtToken w)).

(** *** Views *)

Record AccountData : Type := mkAccountData {
  ad_collateral : N;
  ad_debt : N;
  ad_healthFactor : N;
  ad_borrowLimit : N
}.

Record PoolData : Type := mkPoolData {
  pd_totalCollateral : N;
  pd_totalBorrows : N;
  pd_available : N;
  pd_util : N;
  pd_index : N
}.

Definition getAccountData (env : Env) (user : address) (w : World)
  : result AccountData :=
  let p := pool w in
  let account := account_of p user in
  let! '(projectedIndex, _) := _previewAccrual env p in
  let! debt := _borrowBalanceWithIndex account projectedIndex in
  let! healthFactor := _healthFactor env p (collateral account)
                         (borrowBase account) projectedIndex
                         (liquidationThreshold p) in
  let! borrowLimit := _maxBorrowInDebtTokens env p (collateral account) in
  Ok (mkAccountData (collateral account) debt healthFactor borrowLimit).

Definition availableLiquidity (w : World) : N :=
  balanceOf (debtToken w) (this (pool w)).

Definition utilization (env : Env) (w : World) : result N :=
  let! '(_, borrows) := _previewAccrual env (pool w) in
  let available := availableLiquidity w in
  if borrows =? 0 then Ok 0
  else
    let! scaled := mul borrows WAD in
    let! total := add borrows available in
    div scaled total.

Definition getPoolData (env : Env) (w : World) : result PoolData :=
  let! '(index, _totalBorrows) := _previewAccrual env (pool w) in
  let available := availableLiquidity w in
  let! util :=
    if _totalBorrows =? 0 then Ok 0
    else
      let! scaled := mul _totalBorrows WAD in
      let! total := add _totalBorrows available in
      div scaled total in
  Ok (mkPoolData (totalCollateral (pool w)) _totalBorrows available util index).

Definition getBorrowBalance (env : Env) (user : address) (w : World)
  : result N :=
  let! '(projectedIndex, _) := _previewAccrual env (pool w) in
  _borrowBalanceWithIndex (account_of (pool w) user) projectedIndex.

Definition getPriceData (env : Env) (w : World) : result (N * N) :=
  let! collateralPrice := _getScaledPrice env (collateralOracle (pool w)) in
  let! debtPrice := _getScaledPrice env (debtOracle (pool w)) in
  Ok (collateralPrice, debtPrice).

(** ** Calls as transactions *)

Inductive Op : Type :=
| DepositCollateral (amount : N)
| WithdrawCollateral (amount : N)
| Borrow (amount : N)
| Repay (amount : N)
| Liquidate (borrower : address) (repayAmount : N)
| ProvideLiquidity (amount : N)
| WithdrawLiquidity (amount : N)
| SetRiskParameters (cf lt lb : N)
| SetInterestRate (newRate : N)
| SetOracles (newCollateralOracle newDebtOracle : address)
| Pause
| Unpause
| AccrueInterest
| GetAccountData (user : address)
| GetPoolData
| AvailableLiquidity
| Utilization
| GetBorrowBalance (user : address)
| GetPriceData.

Inductive Value : Type :=
| VNone
| VUint (n : N)
| VAccount (d : AccountData)
| VPool (d : PoolData)
| VPrices (collateralPrice debtPrice : N).

Definition returning {A : Type} (v : A -> Value) (w : World) (c : result A)
  : result (Value * World) :=
  let! a := c in Ok (v a, w).

Definition silently (c : result World) : result (Value * World) :=
  let! w' := c in Ok (VNone, w').

(** The body of an external call. *)
Definition exec (env : Env) (op : Op) (w : World) : result (Value * World) :=
  match op with
  | DepositCollateral amount => silently (depositCollateral env amount w)
  | WithdrawCollateral amount => silently (withdrawCollateral env amount w)
  | Borrow amount => silently (borrow env amount w)
  | Repay amount =>
      let! '(actualRepay, w') := repay env amount w in Ok (VUint actualRepay, w')
  | Liquidate borrower repayAmount =>
      silently (liquidate env borrower repayAmount w)
  | ProvideLiquidity amount => silently (provideLiquidity env amount w)
  | WithdrawLiquidity amount => silently (withdrawLiquidity env amount w)
  | SetRiskParameters cf lt lb => silently (setRiskParameters env cf lt lb w)
  | SetInterestRate newRate => silently (setInterestRate env newRate w)
  | SetOracles c d => silently (setOracles env c d w)
  | Pause => silently (pause env w)
  | Unpause => silently (unpause env w)
  | AccrueInterest => silently (accrueInterest env w)
  | GetAccountData user => returning VAccount w (getAccountData env user w)
  | GetPoolData => returning VPool w (getPoolData env w)
  | AvailableLiquidity => Ok (VUint (availableLiquidity w), w)
  | Utilization => returning VUint w (utilization env w)
  | GetBorrowBalance user => returning VUint w (getBorrowBalance env user w)
  | GetPriceData =>
      returning (fun '(c, d) => VPrices c d) w (getPriceData env w)
  end.

(** An external call is a transaction: when the body aborts, every write it
    made is discarded and the caller sees the state from before the call. *)
Definition call (env : Env) (op : Op) (w : World) : World * result Value :=
  match exec env op w with
  | Ok (v, w') => (w', Ok v)
  | Revert e => (w, Revert e)
  end.

(** The public mutating operations named by the specification. *)
Definition mutating (op : Op) : bool :=
  match op with
  | DepositCollateral _ | WithdrawCollateral _ | Borrow _ | Repay _
  | Liquidate _ _ | ProvideLiquidity _ | WithdrawLiquidity _
  | SetRiskParameters _ _ _ | SetInterestRate _ | SetOracles _ _ => true
  | _ => false
  end.

(** ** Runs and reachable states *)

(** The state after a sequence of calls, each with its own context. *)
Fixpoint run (tr : list (Env * Op)) (w : World) : World :=
  match tr with
  | [] => w
  | (env, op) :: tr' => run tr' (fst (call env op w))
  end.

(** The results of the calls of a run, in order. *)
Fixpoint results (tr : list (Env * Op)) (w : World) : list (result Value) :=
  match tr with
  | [] => []
  | (env, op) :: tr' =>
      snd (call env op w) :: results tr' (fst (call env op w))
  end.

(** The clock of a run never moves backwards, starting from [t]. *)
Fixpoint clock_from (t : N) (tr : list (Env * Op)) : Prop :=
  match tr with
  | [] => True
  | (env, _) :: tr' => t <= timestamp env /\ clock_from (timestamp env) tr'
  end.

(** [borrowIndex] and [lastAccrual] do not decrease at any step of a run. *)
Fixpoint nondecreasing_run (tr : list (Env * Op)) (w : World) : Prop :=
  match tr with
  | [] => True
  | (env, op) :: tr' =>
      let w' := fst (call env op w) in
      borrowIndex (pool w) <= borrowIndex (pool w')
      /\ lastAccrual (pool w) <= lastAccrual (pool w')
      /\ nondecreasing_run tr' w'
  end.

(** States reachable from a freshly constructed pool: by calls of the public
    functions, in any context, and by movements of tokens that happen
    outside the pool (holders transferring, approving, minting). *)
Inductive reachable : World -> Prop :=
| reachable_constructor env self ct dt cdec ddec cf lt lb rate admin co do_ p
    tc td :
    constructor env self ct dt cdec ddec cf lt lb rate admin co do_ = Ok p ->
    reachable (mkWorld p tc td)
| reachable_call env op w :
    reachable w -> reachable (fst (call env op w))
| reachable_tokens w tc td :
    reachable w -> reachable (mkWorld (pool w) tc td).

(** The sum of the collateral of all accounts. *)
Definition sum_collateral (m : gmap N Account) : N :=
  map_fold (fun _ acc s => collateral acc + s) 0 m.

(** The pool-wide total and the account-wise balances of collateral after a
    step, against those before it: [plus] was added to, and [minus] taken
    from, both the total and the balance of [who]; no other balance moved. *)
Definition collateral_moved (p p' : Pool) (who : address) (plus minus : N)
  : Prop :=
  totalCollateral p' + minus = totalCollateral p + plus
  /\ collateral (account_of p' who) + minus
     = collateral (account_of p who) + plus
  /\ (forall a : address, a <> who ->
        collateral (account_of p' a) = collateral (account_of p a)).

(** What each public function does to the collateral books when it
    succeeds. *)
Definition collateral_effect (env : Env) (op : Op) (p p' : Pool) : Prop :=
  match op with
  | DepositCollateral amount => collateral_moved p p' (sender env) amount 0
  | WithdrawCollateral amount => collateral_moved p p' (sender env) 0 amount
  | Liquidate borrower _ =>
      exists seize, collateral_moved p p' borrower 0 seize
  | _ => collateral_moved p p' 0 0 0
  end.

(** The public mutating functions whose body starts (after the argument and
    pause checks) with [_accrueInterest()]. *)
Definition accrues_first (op : Op) : bool :=
  match op with
  | DepositCollateral _ | WithdrawCollateral _ | Borrow _ | Repay _
  | Liquidate _ _ | SetInterestRate _ => true
  | _ => false
  end.

(** The same tokens around another pool state. *)
Definition with_pool (p : Pool) (w : World) : World :=
  mkWorld p (collateralToken w) (debtToken w).

(** ** Side conditions of one accrual *)

(** Nothing to accrue: no time has passed, nothing is borrowed, or the rate
    is zero. *)
Definition accrual_idle (env : Env) (p : Pool) : Prop :=
  timestamp env = lastAccrual p \/ totalBorrows p = 0
  \/ interestRatePerSecond p = 0.

(** The products and sums of one accrual stay within [uint256]. *)
Definition accrual_fits (env : Env) (p : Pool) : Prop :=
  let factor := interestRatePerSecond p * (timestamp env - lastAccrual p) in
  factor <= MAX_UINT256
  /\ totalBorrows p * factor <= MAX_UINT256
  /\ totalBorrows p + totalBorrows p * factor / WAD <= MAX_UINT256
  /\ borrowIndex p * factor <= MAX_UINT256
  /\ borrowIndex p + borrowIndex p * factor / WAD <= MAX_UINT256.

(** ** A concrete deployment

    Pool at address 100, collateral price 2 USD and debt price 1 USD on
    8-decimal feeds, both tokens with 18 decimals, collateral factor 0.7,
    liquidation threshold 0.8, bonus 1.05, rate 1e-6 per second.  The admin
    is account 1; accounts 2 and 3 are users. *)
Module Scenario.

Definition feeds_at (collateralAnswer : Z) (t : N) : gmap N Feed :=
  <[301 := mkFeed 8 collateralAnswer t]> (<[302 := mkFeed 8 100000000 t]> ∅).

Definition env_at (t : N) (who : address) : Env :=
  mkEnv t who (feeds_at 200000000 1000).

Definition env_low (t : N) (who : address) : Env :=
  mkEnv t who (feeds_at 50000000 1000).

Definition collateralLedger : Token :=
  mkToken (<[2 := 1000000]> ∅) (<[(2, 100) := 1000000]> ∅).

Definition debtLedger : Token :=
  mkToken (<[1 := 10000000]> (<[2 := 1000000]> (<[3 := 1000000]> ∅)))
    (<[(1, 100) := 10000000]>
       (<[(2, 100) := 10000000]> (<[(3, 100) := 10000000]> ∅))).

Definition deployed : Pool :=
  mkPool 100 18 18 301 302
    700000000000000000 800000000000000000 1050000000000000000
    1000000000000 0 0 WAD 1000 ∅ false {[1]}.

Definition genesis : World := mkWorld deployed collateralLedger debtLedger.

(** Liquidity is provided and account 2 deposits 1000000. *)
Definition deposited : World :=
  run [ (env_at 1000 1, ProvideLiquidity 1000000);
        (env_at 1000 2, DepositCollateral 1000000) ] genesis.

(** Liquidity is provided, account 2 deposits 1000000 and borrows 500000. *)
Definition opened : World :=
  run [ (env_at 1000 1, ProvideLiquidity 1000000);
        (env_at 1000 2, DepositCollateral 1000000);
        (env_at 1000 2, Borrow 500000) ] genesis.

(** Two accruals one second apart after [opened]. *)
Definition drifted : World :=
  run [ (env_at 1001 3, AccrueInterest);
        (env_at 1002 3, AccrueInterest) ] opened.

(** The manager sets an enormous rate after [opened]. *)
Definition overheated : World :=
  run [ (env_at 1000 1, SetInterestRate (2 ^ 255)) ] opened.

(** A day in the life of the pool: successful calls, an aborted borrow, an
    aborted withdrawal and views, on a clock that moves forward. *)
Definition journey : list (Env * Op) :=
  [ (env_at 1000 1, ProvideLiquidity 1000000);
    (env_at 1000 2, DepositCollateral 1000000);
    (env_at 1000 2, Borrow 500000);
    (env_at 1001 3, AccrueInterest);
    (env_at 1001 2, Borrow 5000000);
    (env_at 1002 3, GetPoolData);
    (env_at 1002 2, WithdrawCollateral 900000);
    (env_at 1500 2, Repay 100);
    (env_at 1500 1, SetInterestRate 0) ].

(** One accrual one second after [opened]. *)
Definition accrued_once : World :=
  run [ (env_at 1001 3, AccrueInterest) ] opened.

(** Account 2 repays 100 at time 1500 after [opened]. *)
Definition repaid : World :=
  fst (call (env_at 1500 2) (Repay 100) opened).

(** Account 2 borrows one more unit right after the first accrual. *)
Definition borrowed_one : World :=
  fst (call (env_at 1001 2) (Borrow 1) accrued_once).

(** Account 2 repays 500000 of its debt of 500001 after the two accruals. *)
Definition repaid_most : World :=
  fst (call (env_at 1002 2) (Repay 500000) drifted).

(** The collateral price falls to 0.5 USD and account 3 liquidates 100000
    of the debt of account 2. *)
Definition liquidated : World :=
  fst (call (env_low 1000 3) (Liquidate 2 100000) opened).

End Scenario.

(** ** The scenarios of the specification (section 8, A to E)

    Amounts are in whole tokens of 18 decimals.  Account 1 is the manager,
    account 2 the borrower, account 3 a liquidator. *)
Module Spec.

Definition tokens (n : N) : N := n * 1000000000000000000.

Definition collateralLedger : Token :=
  mkToken (<[2 := tokens 1000]> ∅) (<[(2, 100) := tokens 1000]> ∅).

Definition debtLedger : Token :=
  mkToken (<[1 := tokens 1000]> (<[2 := tokens 1000]> (<[3 := tokens 1000]> ∅)))
    (<[(1, 100) := tokens 1000]>
       (<[(2, 100) := tokens 1000]> (<[(3, 100) := tokens 1000]> ∅))).

(** The deployed pool of [Scenario] with 1000 tokens of liquidity. *)
Definition funded : World :=
  run [ (Scenario.env_at 1000 1, ProvideLiquidity (tokens 1000)) ]
    (mkWorld Scenario.deployed collateralLedger debtLedger).

Definition scenario_A : list (Env * Op) :=
  [ (Scenario.env_at 1000 2, DepositCollateral (tokens 100));
    (Scenario.env_at 1000 2, Borrow (tokens 120));
    (Scenario.env_at 1000 2, Borrow (tokens 30)) ].

Definition scenario_B : list (Env * Op) :=
  [ (Scenario.env_at 1000 2, DepositCollateral (tokens 150));
    (Scenario.env_at 1000 2, Borrow (tokens 50));
    (Scenario.env_at 87400 2, GetBorrowBalance 2) ].

Definition scenario_C : list (Env * Op) :=
  [ (Scenario.env_at 1000 2, DepositCollateral (tokens 80));
    (Scenario.env_at 1000 2, Borrow (tokens 40));
    (Scenario.env_at 1000 2, Repay (tokens 100));
    (Scenario.env_at 1000 2, GetBorrowBalance 2) ].

Definition scenario_D : list (Env * Op) :=
  [ (Scenario.env_at 1000 2, DepositCollateral (tokens 100));
    (Scenario.env_at 1000 2, Borrow (tokens 70));
    (Scenario.env_low 1000 3, Liquidate 2 (tokens 10)) ].

Definition scenario_E : list (Env * Op) :=
  [ (Scenario.env_at 1000 1, WithdrawLiquidity (tokens 1001)) ].

End Spec.


(** ** Further properties of the pool: what they speak about *)

(** The ordering that [_validateRiskParams] enforces. *)
Definition risk_parameters_valid (p : Pool) : Prop :=
  0 < collateralFactor p
  /\ collateralFactor p <= liquidationThreshold p
  /\ liquidationThreshold p <= WAD
  /\ WAD <= liquidationBonus p.



(** The functions behind [whenNotPaused]. *)
Definition pausable (op : Op) : bool :=
  match op with
  | DepositCollateral _ | Borrow _ | Liquidate _ _ => true
  | _ => false
  end.

(** The two ways out for a borrower: [repay] and [withdrawCollateral]. *)
Definition is_exit (op : Op) : bool :=
  match op with
  | Repay _ | WithdrawCollateral _ => true
  | _ => false
  end.


(** The pool of a world with its pause flag set to [b]. *)
Definition with_pause (b : bool) (w : World) : World :=
  with_pool (set_paused b (pool w)) w.

(** A paused pool and a context without any price feed, nine thousand
    seconds later. *)
Module Exits.

Definition frozen : World :=
  run [ (Scenario.env_at 1000 1, Pause) ] Scenario.deposited.

Definition dark (who : address) : Env := mkEnv 9999 who ∅.

End Exits.

(** ** contracts/mocks/MockV3Aggregator.sol

    The price feed that the pool's oracle addresses point to in the tests:
    [_roundId] is a [uint80], so its increment is checked against
    [2^80 - 1]. *)
Module MockV3Aggregator.

Definition MAX_UINT80 : N := 2 ^ 80 - 1.

Record State : Type := mkState {
  _decimals : N;
  _answer : Z;
  _updatedAt : N;
  _roundId : N
}.

(** [_updateAnswer] at [block.timestamp = now]. *)
Definition _updateAnswer (now : N) (newAnswer : Z) (s : State) : result State :=
  if _roundId s + 1 <=? MAX_UINT80
  then Ok (mkState (_decimals s) newAnswer now (_roundId s + 1))
  else Revert ArithmeticPanic.

(** The constructor starts from zeroed storage. *)
Definition constructor (now : N) (decimals_ : N) (initialAnswer : Z)
  : result State :=
  _updateAnswer now initialAnswer (mkState decimals_ 0%Z 0 0).

Definition updateAnswer (now : N) (newAnswer : Z) (s : State) : result State :=
  _updateAnswer now newAnswer s.

Definition decimals (s : State) : N := _decimals s.

(** [latestRoundData]: (roundId, answer, startedAt, updatedAt,
    answeredInRound). *)
Definition latestRoundData (s : State) : N * Z * N * N * N :=
  (_roundId s, _answer s, _updatedAt s, _updatedAt s, _roundId s).

(** [getRoundData(uint80)] ignores its argument. *)
Definition getRoundData (round : N) (s : State) : N * Z * N * N * N :=
  (_roundId s, _answer s, _updatedAt s, _updatedAt s, _roundId s).

(** What the pool reads from the aggregator: [decimals()] and the answer
    and [updatedAt] components of [latestRoundData()]. *)
Definition feed (s : State) : Feed :=
  let '(_, answer, _, updatedAt, _) := latestRoundData s in
  mkFeed (decimals s) answer updatedAt.

End MockV3Aggregator.

(** An 8-decimal aggregator deployed at time 900 with answer 2.00, and the
    context of a call at time [t] in which oracle 301 is that aggregator
    after an update to 3.00 at time 1000. *)
Module MockScenario.

Definition deployed : result MockV3Aggregator.State :=
  MockV3Aggregator.constructor 900 8 200000000.

Definition start : MockV3Aggregator.State :=
  MockV3Aggregator.mkState 8 200000000 900 1.

Definition updated : MockV3Aggregator.State :=
  MockV3Aggregator.mkState 8 300000000 1000 2.

Definition env_at (t : N) : Env :=
  mkEnv t 2 (<[301 := MockV3Aggregator.feed updated]> ∅).

End MockScenario.

(** ** GuardianVault: an M-of-N withdrawal vault

    The second contract of the file.  Its [require] strings and the errors
    of its collaborators are the constructors of [Error]; its functions run
    in the monad [outcome], which is [result] over these errors. *)
Module GuardianVault.

Inductive Error : Type :=
| NoGuardians            (* "No guardians" *)
| InvalidThreshold       (* "Invalid threshold" *)
| GuardianZero           (* "Guardian zero" *)
| GuardianDuplicate      (* "Guardian duplicate" *)
| ZeroDeposit            (* "Zero deposit" *)
| InvalidRecipient       (* "Invalid recipient" *)
| InvalidAmount          (* "Invalid amount" *)
| InvalidDeadline        (* "Invalid deadline" *)
| AlreadyApproved        (* "Already approved" *)
| NotApproved            (* "Not approved" *)
| InsufficientApprovals  (* "Insufficient approvals" *)
| UnknownRequest         (* "Unknown request" *)
| Inactive               (* "Inactive" *)
| Expired                (* "Expired" *)
| ZeroRequirement        (* "Zero requirement" *)
| ExceedsGuardians       (* "Exceeds guardians" *)
| InsufficientETH        (* "Insufficient ETH" *)
| ETHTransferFailed      (* "ETH transfer failed" *)
| EnforcedPause          (* Pausable: whenNotPaused *)
| ExpectedPause          (* Pausable: whenPaused *)
| AccessDenied           (* AccessControl: onlyRole *)
| BadConfirmation        (* AccessControl: renounceRole *)
| TokenTransferFailed    (* SafeERC20 *)
| ArithmeticPanic.       (* Panic(0x11) *)

Inductive outcome (A : Type) : Type :=
| Done (a : A)
| Failed (e : Error).
Arguments Done {A} a.
Arguments Failed {A} e.

Definition andThen {A B : Type} (c : outcome A) (k : A -> outcome B)
  : outcome B :=
  match c with
  | Done a => k a
  | Failed e => Failed e
  end.

Declare Scope vault_scope.
Delimit Scope vault_scope with vault.
Notation "'let!' x ':=' c 'in' k" := (andThen c (fun x => k))
  (at level 10, x name, c at level 100, k at level 200) : vault_scope.
Notation "'let!' ' p ':=' c 'in' k" :=
  (andThen c (fun x => match x with p => k end))
  (at level 10, p pattern, c at level 100, k at level 200) : vault_scope.
Notation "'check!' c 'in' k" := (andThen c (fun _ => k))
  (at level 10, c at level 100, k at level 200) : vault_scope.
Local Open Scope vault_scope.

Definition ensure (b : bool) (e : Error) : outcome unit :=
  if b then Done tt else Failed e.

Definition MAX_UINT8 : N := 255.

Inductive Role : Type :=
| DEFAULT_ADMIN_ROLE
| PAUSER_ROLE
| GUARDIAN_ROLE.

#[global] Instance Role_eq_dec : EqDecision Role.
Proof. solve_decision. Defined.

Definition is_guardian_role (r : Role) : bool :=
  match r with GUARDIAN_ROLE => true | _ => false end.

Record WithdrawalRequest : Type := mkRequest {
  asset : address;
  to : address;
  amount : N;
  deadline : N;
  executed : bool;
  cancelled : bool;
  approvals : N
}.

(** The storage of the vault, its own address and ETH balance, the role
    members kept by [AccessControl], and the balances of the ERC-20 assets
    it may pay out (asset address to holder to balance).  [_approvals[id]]
    is the set of the addresses whose flag is [true]. *)
Record Vault : Type := mkVault {
  self : address;
  balance : N;
  approvalsRequired : N;
  guardianCount : N;
  _nextRequestId : N;
  _withdrawals : gmap N WithdrawalRequest;
  _approvals : gmap N (gset N);
  paused : bool;
  admins : gset N;
  pausers : gset N;
  guardians : gset N;
  assets : gmap N (gmap N N)
}.

(** The context of a call: [block.timestamp], [msg.sender], and which
    addresses accept a plain ETH transfer. *)
Record Env : Type := mkEnv {
  timestamp : N;
  sender : address;
  accepts : address -> bool
}.

(** *** Storage reads and writes *)

Definition request_of (v : Vault) (id : N) : WithdrawalRequest :=
  default (mkRequest 0 0 0 0 false false 0) (_withdrawals v !! id).

Definition approvers_of (v : Vault) (id : N) : gset N :=
  default ∅ (_approvals v !! id).

Definition members (r : Role) (v : Vault) : gset N :=
  match r with
  | DEFAULT_ADMIN_ROLE => admins v
  | PAUSER_ROLE => pausers v
  | GUARDIAN_ROLE => guardians v
  end.

Definition hasRole (r : Role) (a : address) (v : Vault) : bool :=
  bool_decide (a ∈ members r v).

Definition set_members (r : Role) (s : gset N) (v : Vault) : Vault :=
  match r with
  | DEFAULT_ADMIN_ROLE =>
      mkVault (self v) (balance v) (approvalsRequired v) (guardianCount v)
        (_nextRequestId v) (_withdrawals v) (_approvals v) (paused v)
        s (pausers v) (guardians v) (assets v)
  | PAUSER_ROLE =>
      mkVault (self v) (balance v) (approvalsRequired v) (guardianCount v)
        (_nextRequestId v) (_withdrawals v) (_approvals v) (paused v)
        (admins v) s (guardians v) (assets v)
  | GUARDIAN_ROLE =>
      mkVault (self v) (balance v) (approvalsRequired v) (guardianCount v)
        (_nextRequestId v) (_withdrawals v) (_approvals v) (paused v)
        (admins v) (pausers v) s (assets v)
  end.

Definition set_balance (b : N) (v : Vault) : Vault :=
  mkVault (self v) b (approvalsRequired v) (guardianCount v)
    (_nextRequestId v) (_withdrawals v) (_approvals v) (paused v)
    (admins v) (pausers v) (guardians v) (assets v).

Definition set_approvalsRequired (n : N) (v : Vault) : Vault :=
  mkVault (self v) (balance v) n (guardianCount v)
    (_nextRequestId v) (_withdrawals v) (_approvals v) (paused v)
    (admins v) (pausers v) (guardians v) (assets v).

Definition set_guardianCount (n : N) (v : Vault) : Vault :=
  mkVault (self v) (balance v) (approvalsRequired v) n
    (_nextRequestId v) (_withdrawals v) (_approvals v) (paused v)
    (admins v) (pausers v) (guardians v) (assets v).

Definition set_nextRequestId (n : N) (v : Vault) : Vault :=
  mkVault (self v) (balance v) (approvalsRequired v) (guardianCount v)
    n (_withdrawals v) (_approvals v) (paused v)
    (admins v) (pausers v) (guardians v) (assets v).

Definition set_request (id : N) (r : WithdrawalRequest) (v : Vault) : Vault :=
  mkVault (self v) (balance v) (approvalsRequired v) (guardianCount v)
    (_nextRequestId v) (<[id := r]> (_withdrawals v)) (_approvals v)
    (paused v) (admins v) (pausers v) (guardians v) (assets v).

Definition set_approvers (id : N) (s : gset N) (v : Vault) : Vault :=
  mkVault (self v) (balance v) (approvalsRequired v) (guardianCount v)
    (_nextRequestId v) (_withdrawals v) (<[id := s]> (_approvals v))
    (paused v) (admins v) (pausers v) (guardians v) (assets v).

Definition set_paused (b : bool) (v : Vault) : Vault :=
  mkVault (self v) (balance v) (approvalsRequired v) (guardianCount v)
    (_nextRequestId v) (_withdrawals v) (_approvals v) b
    (admins v) (pausers v) (guardians v) (assets v).

Definition set_assets (m : gmap N (gmap N N)) (v : Vault) : Vault :=
  mkVault (self v) (balance v) (approvalsRequired v) (guardianCount v)
    (_nextRequestId v) (_withdrawals v) (_approvals v) (paused v)
    (admins v) (pausers v) (guardians v) m.

Definition with_approvals (n : N) (r : WithdrawalRequest) : WithdrawalRequest :=
  mkRequest (asset r) (to r) (amount r) (deadline r) (executed r)
    (cancelled r) n.
Definition with_executed (r : WithdrawalRequest) : WithdrawalRequest :=
  mkRequest (asset r) (to r) (amount r) (deadline r) true (cancelled r)
    (approvals r).
Definition with_cancelled (r : WithdrawalRequest) : WithdrawalRequest :=
  mkRequest (asset r) (to r) (amount r) (deadline r) (executed r) true
    (approvals r).

(** *** Modifiers *)

Definition whenNotPaused (v : Vault) : outcome unit :=
  ensure (negb (paused v)) EnforcedPause.

Definition onlyRole (r : Role) (env : Env) (v : Vault) : outcome unit :=
  ensure (hasRole r (sender env) v) AccessDenied.

(** *** Role bookkeeping *)

(** Modelled from the spec: the role-based access control collaborator
    (OpenZeppelin AccessControl, outside the repository): granting reports
    whether the account was not yet a member, revoking whether it was one. *)
Definition super_grantRole (r : Role) (a : address) (v : Vault)
  : bool * Vault :=
  if hasRole r a v then (false, v)
  else (true, set_members r ({[a]} ∪ members r v) v).

Definition super_revokeRole (r : Role) (a : address) (v : Vault)
  : bool * Vault :=
  if hasRole r a v then (true, set_members r (members r v ∖ {[a]}) v)
  else (false, v).

(** The override [_grantRole]: counts the guardians. *)
Definition _grantRole (r : Role) (a : address) (v : Vault)
  : outcome (bool * Vault) :=
  let '(updated, v1) := super_grantRole r a v in
  if is_guardian_role r && updated then
    if guardianCount v1 + 1 <=? MAX_UINT256
    then Done (updated, set_guardianCount (guardianCount v1 + 1) v1)
    else Failed ArithmeticPanic
  else Done (updated, v1).

(** The override [_revokeRole]: counts down and lowers the requirement to
    the number of guardians left; [uint8(guardianCount)] keeps the low
    eight bits. *)
Definition _revokeRole (r : Role) (a : address) (v : Vault)
  : outcome (bool * Vault) :=
  let '(updated, v1) := super_revokeRole r a v in
  if is_guardian_role r && updated then
    if 1 <=? guardianCount v1 then
      let v2 := set_guardianCount (guardianCount v1 - 1) v1 in
      if guardianCount v2 <? approvalsRequired v2
      then Done (updated,
                 set_approvalsRequired (guardianCount v2 mod 256) v2)
      else Done (updated, v2)
    else Failed ArithmeticPanic
  else Done (updated, v1).

(** *** Constructor *)

(** The loop of the constructor over [guardians], with [seen] the entries
    before the current one. *)
Fixpoint grantGuardians (seen rest : list address) (v : Vault)
  : outcome Vault :=
  match rest with
  | [] => Done v
  | guardian :: rest' =>
      check! ensure (negb (guardian =? 0)) GuardianZero in
      check! ensure (forallb (fun g => negb (g =? guardian)) seen)
               GuardianDuplicate in
      let! '(_, v1) := _grantRole GUARDIAN_ROLE guardian v in
      grantGuardians (seen ++ [guardian]) rest' v1
  end.

(** [threshold] is a [uint8]: the caller can only pass values up to 255. *)
Definition constructor (env : Env) (this : address) (guardians_ : list address)
  (threshold : N) (pauser : address) : outcome Vault :=
  check! ensure (0 <? N.of_nat (length guardians_)) NoGuardians in
  check! ensure ((0 <? threshold)
                 && (threshold <=? N.of_nat (length guardians_)))
           InvalidThreshold in
  let v0 := mkVault this 0 threshold 0 1 ∅ ∅ false ∅ ∅ ∅ ∅ in
  let! '(_, v1) := _grantRole DEFAULT_ADMIN_ROLE (sender env) v0 in
  let! '(_, v2) :=
    if negb (pauser =? 0) then _grantRole PAUSER_ROLE pauser v1
    else _grantRole PAUSER_ROLE (sender env) v1 in
  let! v3 := grantGuardians [] guardians_ v2 in
  if negb (hasRole GUARDIAN_ROLE (sender env) v3)
  then let! '(_, v4) := _grantRole GUARDIAN_ROLE (sender env) v3 in Done v4
  else Done v3.

(** *** Public functions *)

(** [receive()]: any plain transfer of [value] wei is accepted. *)
Definition receive (value : N) (v : Vault) : outcome Vault :=
  Done (set_balance (balance v + value) v).

(** [deposit()] with [msg.value = value]. *)
Definition deposit (value : N) (v : Vault) : outcome Vault :=
  check! whenNotPaused v in
  check! ensure (0 <? value) ZeroDeposit in
  Done (set_balance (balance v + value) v).

Definition createWithdrawal (env : Env) (asset_ to_ : address)
  (amount_ deadline_ : N) (v : Vault) : outcome (N * Vault) :=
  check! whenNotPaused v in
  check! onlyRole GUARDIAN_ROLE env v in
  check! ensure (negb (to_ =? 0)) InvalidRecipient in
  check! ensure (0 <? amount_) InvalidAmount in
  check! (if negb (deadline_ =? 0)
          then ensure (timestamp env <? deadline_) InvalidDeadline
          else Done tt) in
  let id := _nextRequestId v in
  check! ensure (id + 1 <=? MAX_UINT256) ArithmeticPanic in
  let v1 := set_nextRequestId (id + 1) v in
  Done (id,
        set_request id (mkRequest asset_ to_ amount_ deadline_ false false 0)
          v1).

Definition _isInactive (r : WithdrawalRequest) : bool :=
  executed r || cancelled r.

(** [_activeRequest] *)
Definition _activeRequest (env : Env) (id : N) (v : Vault)
  : outcome WithdrawalRequest :=
  let request := request_of v id in
  check! ensure (0 <? amount request) UnknownRequest in
  check! ensure (negb (_isInactive request)) Inactive in
  check! (if negb (deadline request =? 0)
          then ensure (timestamp env <=? deadline request) Expired
          else Done tt) in
  Done request.

Definition approveWithdrawal (env : Env) (id : N) (v : Vault)
  : outcome Vault :=
  check! whenNotPaused v in
  check! onlyRole GUARDIAN_ROLE env v in
  let! request := _activeRequest env id v in
  let guardian := sender env in
  check! ensure (negb (bool_decide (guardian ∈ approvers_of v id)))
           AlreadyApproved in
  let v1 := set_approvers id ({[guardian]} ∪ approvers_of v id) v in
  check! ensure (approvals request + 1 <=? MAX_UINT8) ArithmeticPanic in
  Done (set_request id (with_approvals (approvals request + 1) request) v1).

Definition revokeApproval (env : Env) (id : N) (v : Vault) : outcome Vault :=
  check! whenNotPaused v in
  check! onlyRole GUARDIAN_ROLE env v in
  let! request := _activeRequest env id v in
  let guardian := sender env in
  check! ensure (bool_decide (guardian ∈ approvers_of v id)) NotApproved in
  let v1 := set_approvers id (approvers_of v id ∖ {[guardian]}) v in
  check! ensure (1 <=? approvals request) ArithmeticPanic in
  Done (set_request id (with_approvals (approvals request - 1) request) v1).

(** [_transferEth]: the call to [to] succeeds when the recipient accepts
    it (a recipient that calls back into the vault is outside the model);
    a transfer of the vault to itself lands in [receive()]. *)
Definition _transferEth (env : Env) (to_ : address) (amount_ : N) (v : Vault)
  : outcome Vault :=
  check! ensure (amount_ <=? balance v) InsufficientETH in
  if to_ =? self v then Done v
  else
    check! ensure (accepts env to_) ETHTransferFailed in
    Done (set_balance (balance v - amount_) v).

(** Modelled from the spec: the asset-transfer primitive (OpenZeppelin code
    outside the repository), here [IERC20(asset).safeTransfer(to, amount)]
    from the vault: it aborts when [asset] is no token or the vault holds
    less than [amount]. *)
Definition _transferToken (asset_ to_ : address) (amount_ : N) (v : Vault)
  : outcome Vault :=
  match assets v !! asset_ with
  | None => Failed TokenTransferFailed
  | Some ledger =>
      let held := default 0 (ledger !! self v) in
      check! ensure (amount_ <=? held) TokenTransferFailed in
      let ledger1 := <[self v := held - amount_]> ledger in
      let ledger2 :=
        <[to_ := default 0 (ledger1 !! to_) + amount_]> ledger1 in
      Done (set_assets (<[asset_ := ledger2]> (assets v)) v)
  end.

Definition executeWithdrawal (env : Env) (id : N) (v : Vault)
  : outcome Vault :=
  check! whenNotPaused v in
  check! onlyRole GUARDIAN_ROLE env v in
  let! request := _activeRequest env id v in
  check! ensure (approvalsRequired v <=? approvals request)
           InsufficientApprovals in
  let v1 := set_request id (with_executed request) v in
  if asset request =? 0
  then _transferEth env (to request) (amount request) v1
  else _transferToken (asset request) (to request) (amount request) v1.

Definition cancelWithdrawal (env : Env) (id : N) (v : Vault)
  : outcome Vault :=
  check! onlyRole DEFAULT_ADMIN_ROLE env v in
  let request := request_of v id in
  check! ensure (0 <? amount request) UnknownRequest in
  check! ensure (negb (_isInactive request)) Inactive in
  Done (set_request id (with_cancelled request) v).

Definition pause (env : Env) (v : Vault) : outcome Vault :=
  check! onlyRole PAUSER_ROLE env v in
  check! ensure (negb (paused v)) EnforcedPause in
  Done (set_paused true v).

Definition unpause (env : Env) (v : Vault) : outcome Vault :=
  check! onlyRole PAUSER_ROLE env v in
  check! ensure (paused v) ExpectedPause in
  Done (set_paused false v).

(** [newRequirement] is a [uint8]. *)
Definition setApprovalsRequired (env : Env) (newRequirement : N) (v : Vault)
  : outcome Vault :=
  check! onlyRole DEFAULT_ADMIN_ROLE env v in
  check! ensure (0 <? newRequirement) ZeroRequirement in
  check! ensure (newRequirement <=? guardianCount v) ExceedsGuardians in
  Done (set_approvalsRequired newRequirement v).

(** Modelled from the spec: the public entry points of the access-control
    collaborator, which end in the overrides above.  The admin of every
    role is [DEFAULT_ADMIN_ROLE]. *)
Definition grantRole (env : Env) (r : Role) (a : address) (v : Vault)
  : outcome Vault :=
  check! onlyRole DEFAULT_ADMIN_ROLE env v in
  let! '(_, v1) := _grantRole r a v in Done v1.

Definition revokeRole (env : Env) (r : Role) (a : address) (v : Vault)
  : outcome Vault :=
  check! onlyRole DEFAULT_ADMIN_ROLE env v in
  let! '(_, v1) := _revokeRole r a v in Done v1.

Definition renounceRole (env : Env) (r : Role) (callerConfirmation : address)
  (v : Vault) : outcome Vault :=
  check! ensure (callerConfirmation =? sender env) BadConfirmation in
  let! '(_, v1) := _revokeRole r callerConfirmation v in Done v1.

(** *** Calls *)

Inductive Op : Type :=
| Receive (value : N)
| Deposit (value : N)
| CreateWithdrawal (asset_ to_ : address) (amount_ deadline_ : N)
| ApproveWithdrawal (id : N)
| RevokeApproval (id : N)
| ExecuteWithdrawal (id : N)
| CancelWithdrawal (id : N)
| Pause
| Unpause
| SetApprovalsRequired (newRequirement : N)
| GrantRole (r : Role) (a : address)
| RevokeRole (r : Role) (a : address)
| RenounceRole (r : Role) (callerConfirmation : address).

Definition MAX_UINT40 : N := 2 ^ 40 - 1.

(** The arguments of a call fit their Solidity types. *)
Definition well_typed (op : Op) : bool :=
  match op with
  | Receive value | Deposit value => value <=? MAX_UINT256
  | CreateWithdrawal _ _ amount_ deadline_ =>
      (amount_ <=? MAX_UINT256) && (deadline_ <=? MAX_UINT40)
  | ApproveWithdrawal id | RevokeApproval id | ExecuteWithdrawal id
  | CancelWithdrawal id => id <=? MAX_UINT256
  | SetApprovalsRequired newRequirement => newRequirement <=? MAX_UINT8
  | Pause | Unpause | GrantRole _ _ | RevokeRole _ _ | RenounceRole _ _ =>
      true
  end.

(** The body of a call; [createWithdrawal] returns the new id. *)
Definition exec (env : Env) (op : Op) (v : Vault) : outcome (option N * Vault) :=
  let quiet (c : outcome Vault) := let! v' := c in Done (None, v') in
  match op with
  | Receive value => quiet (receive value v)
  | Deposit value => quiet (deposit value v)
  | CreateWithdrawal a t n d =>
      let! '(id, v') := createWithdrawal env a t n d v in Done (Some id, v')
  | ApproveWithdrawal id => quiet (approveWithdrawal env id v)
  | RevokeApproval id => quiet (revokeApproval env id v)
  | ExecuteWithdrawal id => quiet (executeWithdrawal env id v)
  | CancelWithdrawal id => quiet (cancelWithdrawal env id v)
  | Pause => quiet (pause env v)
  | Unpause => quiet (unpause env v)
  | SetApprovalsRequired n => quiet (setApprovalsRequired env n v)
  | GrantRole r a => quiet (grantRole env r a v)
  | RevokeRole r a => quiet (revokeRole env r a v)
  | RenounceRole r a => quiet (renounceRole env r a v)
  end.

(** A call is a transaction: an aborted body leaves the state alone. *)
Definition call (env : Env) (op : Op) (v : Vault) : Vault :=
  match exec env op v with
  | Done (_, v') => v'
  | Failed _ => v
  end.

(** States reachable from the constructor by calls, with ERC-20 balances
    moving freely outside the vault. *)
Inductive reachable : Vault -> Prop :=
| reachable_constructor env this guardians_ threshold pauser v :
    threshold <= MAX_UINT8 ->
    constructor env this guardians_ threshold pauser = Done v ->
    reachable v
| reachable_call env op v :
    well_typed op = true ->
    reachable v -> reachable (call env op v)
| reachable_assets v m :
    reachable v -> reachable (set_assets m v).

(** What the bookkeeping of the vault is meant to keep: the guardian
    counter counts the holders of the role, the requirement fits in a
    [uint8] and never exceeds the counter, every stored request has an id
    already handed out and a positive amount, and its approval counter is
    the number of addresses flagged in [_approvals]. *)
Record well_formed (v : Vault) : Prop := mkWellFormed {
  wf_count : guardianCount v = N.of_nat (size (guardians v));
  wf_threshold : approvalsRequired v <= guardianCount v;
  wf_uint8 : approvalsRequired v <= MAX_UINT8;
  wf_next : 1 <= _nextRequestId v;
  wf_requests : forall id r, _withdrawals v !! id = Some r ->
    1 <= id /\ id < _nextRequestId v /\ 0 < amount r
    /\ approvals r = N.of_nat (size (approvers_of v id));
  wf_approvers : forall id s, _approvals v !! id = Some s ->
    id < _nextRequestId v
}.

(** What [_activeRequest] asks of a request. *)
Definition active (env : Env) (r : WithdrawalRequest) : Prop :=
  0 < amount r /\ executed r = false /\ cancelled r = false
  /\ (deadline r <> 0 -> timestamp env <= deadline r).

(** What the role bookkeeping leaves alone. *)
Definition same_ledger (v v' : Vault) : Prop :=
  self v' = self v /\ balance v' = balance v
  /\ _nextRequestId v' = _nextRequestId v
  /\ _withdrawals v' = _withdrawals v /\ _approvals v' = _approvals v
  /\ paused v' = paused v /\ assets v' = assets v.

(** The vault's holding of an ERC-20 asset. *)
Definition holding (asset_ : address) (v : Vault) : N :=
  default 0 (default ∅ (assets v !! asset_) !! self v).

(** A sequence of calls, each in its own context. *)
Fixpoint run (calls : list (Env * Op)) (v : Vault) : Vault :=
  match calls with
  | [] => v
  | (env, op) :: rest => run rest (call env op v)
  end.

End GuardianVault.

(** A vault at address 500 deployed by 10 for the guardians 11, 12 and 13
    with a requirement of two approvals, funded with 1000 wei; request 1
    pays 400 wei to 77 before time 2000. *)
Module VaultScenario.

Definition at_ (t : N) (who : address) : GuardianVault.Env :=
  GuardianVault.mkEnv t who (fun _ => true).

Definition deployed : GuardianVault.Vault :=
  match GuardianVault.constructor (at_ 1000 10) 500 [11; 12; 13] 2 0 with
  | GuardianVault.Done v => v
  | GuardianVault.Failed _ =>
      GuardianVault.mkVault 500 0 0 0 1 ∅ ∅ false ∅ ∅ ∅ ∅
  end.

Definition requested : GuardianVault.Vault :=
  GuardianVault.run
    [(at_ 1000 10, GuardianVault.Deposit 1000);
     (at_ 1000 11, GuardianVault.CreateWithdrawal 0 77 400 2000)]
    deployed.

Definition approved : GuardianVault.Vault :=
  GuardianVault.run
    [(at_ 1100 11, GuardianVault.ApproveWithdrawal 1);
     (at_ 1200 12, GuardianVault.ApproveWithdrawal 1)]
    requested.

Definition paid : GuardianVault.Vault :=
  GuardianVault.call (at_ 1300 13) (GuardianVault.ExecuteWithdrawal 1)
    approved.

(** Three guardians revoked: 10 is the last one, the requirement is one. *)
Definition last_guardian : GuardianVault.Vault :=
  GuardianVault.run
    [(at_ 1400 10, GuardianVault.RevokeRole GuardianVault.GUARDIAN_ROLE 11);
     (at_ 1400 10, GuardianVault.RevokeRole GuardianVault.GUARDIAN_ROLE 12);
     (at_ 1400 10, GuardianVault.RevokeRole GuardianVault.GUARDIAN_ROLE 13)]
    requested.

(** The last guardian gone, then 11 back: the requirement is zero. *)
Definition regrouped : GuardianVault.Vault :=
  GuardianVault.run
    [(at_ 1400 10, GuardianVault.RenounceRole GuardianVault.GUARDIAN_ROLE 10);
     (at_ 1400 10, GuardianVault.GrantRole GuardianVault.GUARDIAN_ROLE 11)]
    last_guardian.

End VaultScenario.
(** * Proofs *)

(** ** The [result] monad and checked arithmetic *)

Lemma bind_inv {A B : Type} (c : result A) (k : A -> result B) (v : B) :
  bind c k = Ok v -> exists a, c = Ok a /\ k a = Ok v.
Proof. destruct c as [a|e]; simpl; [eauto | discriminate]. Qed.

Lemma require_inv (b : bool) (e : Error) (u : unit) :
  require b e = Ok u -> b = true.
Proof. destruct b; [reflexivity | discriminate]. Qed.

Lemma add_inv (a b c : N) : add a b = Ok c -> c = a + b /\ a + b <= MAX_UINT256.
Proof.
  unfold add. destruct (N.leb_spec (a + b) MAX_UINT256); [| discriminate].
  intros [= <-]. auto.
Qed.

Lemma sub_inv (a b c : N) : sub a b = Ok c -> c = a - b /\ b <= a.
Proof.
  unfold sub. destruct (N.leb_spec b a); [| discriminate].
  intros [= <-]. auto.
Qed.

Lemma mul_inv (a b c : N) : mul a b = Ok c -> c = a * b /\ a * b <= MAX_UINT256.
Proof.
  unfold mul. destruct (N.leb_spec (a * b) MAX_UINT256); [| discriminate].
  intros [= <-]. auto.
Qed.

Lemma div_inv (a b c : N) : div a b = Ok c -> c = a / b /\ b <> 0.
Proof.
  unfold div. destruct (N.eqb_spec b 0); [discriminate |].
  intros [= <-]. auto.
Qed.

Lemma add_fits (a b : N) : a + b <= MAX_UINT256 -> add a b = Ok (a + b).
Proof. intros H. unfold add. apply N.leb_le in H. now rewrite H. Qed.

Lemma mul_fits (a b : N) : a * b <= MAX_UINT256 -> mul a b = Ok (a * b).
Proof. intros H. unfold mul. apply N.leb_le in H. now rewrite H. Qed.

Lemma sub_fits (a b : N) : b <= a -> sub a b = Ok (a - b).
Proof. intros H. unfold sub. apply N.leb_le in H. now rewrite H. Qed.

Lemma div_WAD (a : N) : div a WAD = Ok (a / WAD).
Proof. reflexivity. Qed.

(** Symbolic execution of a successful computation, one step at a time. *)
Ltac inv_ok :=
  repeat match goal with
  | H : bind _ _ = Ok _ |- _ =>
      let a := fresh "a" in let Ha := fresh "Ha" in
      apply bind_inv in H; destruct H as (a & Ha & H)
  | H : Ok _ = Ok _ |- _ => injection H as H; try subst
  | H : Revert _ = Ok _ |- _ => discriminate H
  | H : require _ _ = Ok _ |- _ => apply require_inv in H
  | H : whenNotPaused _ = Ok _ |- _ => apply require_inv in H
  | H : onlyManager _ _ = Ok _ |- _ => apply require_inv in H
  | H : (let '(_, _) := ?x in _) = Ok _ |- _ => destruct x
  | H : (if ?b then _ else _) = Ok _ |- _ =>
      let E := fresh "E" in destruct b eqn:E
  end.

(** ** Storage writes commute with reads *)

Lemma account_of_set_account_eq (a : address) (acc : Account) (p : Pool) :
  account_of (set_account a acc p) a = acc.
Proof. unfold account_of, set_account; simpl. now rewrite lookup_insert_eq. Qed.

Lemma account_of_set_account_ne (a b : address) (acc : Account) (p : Pool) :
  a <> b -> account_of (set_account a acc p) b = account_of p b.
Proof.
  intros Hne. unfold account_of, set_account; simpl.
  now rewrite lookup_insert_ne.
Qed.

(** ** Interest accrual *)

Lemma accrual_idle_test (env : Env) (p : Pool) :
  ((timestamp env =? lastAccrual p) || (totalBorrows p =? 0)
   || (interestRatePerSecond p =? 0)) = true <-> accrual_idle env p.
Proof.
  unfold accrual_idle.
  rewrite !orb_true_iff, !N.eqb_eq. tauto.
Qed.

Lemma accrue_idle (env : Env) (p : Pool) :
  accrual_idle env p ->
  _accrueInterest env p = Ok (set_lastAccrual (timestamp env) p).
Proof.
  intros H. apply accrual_idle_test in H.
  unfold _accrueInterest. now rewrite H.
Qed.

Lemma accrue_busy (env : Env) (p : Pool) :
  ~ accrual_idle env p ->
  _accrueInterest env p =
    let! delta := sub (timestamp env) (lastAccrual p) in
    let! simpleInterestFactor := mul (interestRatePerSecond p) delta in
    let! scaled := mul (totalBorrows p) simpleInterestFactor in
    let! interest := div scaled WAD in
    let! newBorrows := add (totalBorrows p) interest in
    let! scaledIndex := mul (borrowIndex p) simpleInterestFactor in
    let! growth := div scaledIndex WAD in
    let! newIndex := add (borrowIndex p) growth in
    Ok (set_lastAccrual (timestamp env)
          (set_borrowIndex newIndex (set_totalBorrows newBorrows p))).
Proof.
  intros H. unfold _accrueInterest.
  destruct ((timestamp env =? lastAccrual p) || (totalBorrows p =? 0)
            || (interestRatePerSecond p =? 0)) eqn:E; [| reflexivity].
  apply accrual_idle_test in E. contradiction.
Qed.

(** **** C2, as amended: the accrual transition, with the [uint256] side
    condition.  For every state whose last accrual is not after the clock:
    when nothing is to accrue, [_accrueInterest] only moves [lastAccrual] to
    the clock; otherwise, when the products and sums fit in 256 bits, it adds
    [floor(totalBorrows * factor / WAD)] to [totalBorrows] and
    [floor(borrowIndex * factor / WAD)] to [borrowIndex], moves
    [lastAccrual] to the clock and leaves every other field as it was; and
    when they do not fit, the call aborts with an arithmetic panic. *)
Theorem accrue_transition (env : Env) (p : Pool) :
  lastAccrual p <= timestamp env ->
  let now := timestamp env in
  let factor := interestRatePerSecond p * (now - lastAccrual p) in
  (accrual_idle env p ->
   _accrueInterest env p = Ok (set_lastAccrual now p))
  /\ (~ accrual_idle env p -> accrual_fits env p ->
      _accrueInterest env p =
        Ok (set_lastAccrual now
              (set_borrowIndex (borrowIndex p + borrowIndex p * factor / WAD)
                 (set_totalBorrows
                    (totalBorrows p + totalBorrows p * factor / WAD) p))))
  /\ (~ accrual_idle env p -> ~ accrual_fits env p ->
      _accrueInterest env p = Revert ArithmeticPanic).
Proof.
  intros Hclock now factor. split; [apply accrue_idle |]. split.
  - intros Hbusy (F1 & F2 & F3 & F4 & F5).
    rewrite (accrue_busy _ _ Hbusy).
    rewrite (sub_fits _ _ Hclock); cbn [bind].
    rewrite (mul_fits _ _ F1); cbn [bind].
    rewrite (mul_fits _ _ F2); cbn [bind]. rewrite div_WAD; cbn [bind].
    rewrite (add_fits _ _ F3); cbn [bind].
    rewrite (mul_fits _ _ F4); cbn [bind]. rewrite div_WAD; cbn [bind].
    rewrite (add_fits _ _ F5); cbn [bind]. reflexivity.
  - intros Hbusy Hnofit.
    rewrite (accrue_busy _ _ Hbusy).
    rewrite (sub_fits _ _ Hclock); cbn [bind].
    unfold mul at 1.
    destruct (N.leb_spec (interestRatePerSecond p
                          * (timestamp env - lastAccrual p)) MAX_UINT256)
      as [F1|]; [cbn [bind] | reflexivity].
    unfold mul at 1.
    destruct (N.leb_spec (totalBorrows p * (interestRatePerSecond p
                          * (timestamp env - lastAccrual p))) MAX_UINT256)
      as [F2|]; [cbn [bind] | reflexivity].
    rewrite div_WAD; cbn [bind]. unfold add at 1.
    match goal with |- context [N.leb ?a ?b] =>
      destruct (N.leb_spec a b) as [F3|]; [cbn [bind] | reflexivity] end.
    unfold mul at 1.
    match goal with |- context [N.leb ?a ?b] =>
      destruct (N.leb_spec a b) as [F4|]; [cbn [bind] | reflexivity] end.
    rewrite div_WAD; cbn [bind]. unfold add at 1.
    match goal with |- context [N.leb ?a ?b] =>
      destruct (N.leb_spec a b) as [F5|]; [cbn [bind] | reflexivity] end.
    exfalso. apply Hnofit. unfold accrual_fits. auto.
Qed.

(** Witness of [accrue_transition]: the first accrual after the position of
    the scenario was opened, one second later. *)
Lemma accrue_transition_witness :
  _accrueInterest (Scenario.env_at 1001 3) (pool Scenario.opened)
  = Ok (set_lastAccrual 1001
          (set_borrowIndex 1000001000000000000
             (set_totalBorrows 500000 (pool Scenario.opened)))).
Proof.
  assert (Hclock : lastAccrual (pool Scenario.opened)
                   <= timestamp (Scenario.env_at 1001 3))
    by (apply N.leb_le; vm_compute; reflexivity).
  destruct (accrue_transition (Scenario.env_at 1001 3) (pool Scenario.opened)
              Hclock) as (_ & Hfits & _).
  rewrite Hfits.
  - vm_compute. reflexivity.
  - unfold accrual_idle. vm_compute. intros [H | [H | H]]; discriminate H.
  - unfold accrual_fits. vm_compute. repeat split; discriminate.
Defined.

(** C2 as stated fails: after the manager has set the rate to [2^255] the
    pool is in a state whose last accrual (1000) is before the clock (1002),
    and [accrueInterest] aborts on the checked product
    [interestRatePerSecond * delta]; [lastAccrual] stays at 1000. *)
Lemma accrue_overflow_counterexample :
  lastAccrual (pool Scenario.overheated)
    <= timestamp (Scenario.env_at 1002 3)
  /\ _accrueInterest (Scenario.env_at 1002 3) (pool Scenario.overheated)
     = Revert ArithmeticPanic
  /\ snd (call (Scenario.env_at 1002 3) AccrueInterest Scenario.overheated)
     = Revert ArithmeticPanic
  /\ lastAccrual
       (pool (fst (call (Scenario.env_at 1002 3) AccrueInterest
                     Scenario.overheated)))
     <> timestamp (Scenario.env_at 1002 3).
Proof.
  split; [apply N.leb_le; vm_compute; reflexivity |].
  split; [vm_compute; reflexivity |].
  split; [vm_compute; reflexivity |].
  vm_compute. discriminate.
Qed.

(** What a successful accrual writes. *)
Lemma accrue_shape (env : Env) (p p1 : Pool) :
  _accrueInterest env p = Ok p1 ->
  exists tb bi,
    p1 = set_lastAccrual (timestamp env)
           (set_borrowIndex bi (set_totalBorrows tb p))
    /\ totalBorrows p <= tb /\ borrowIndex p <= bi.
Proof.
  unfold _accrueInterest. intros H.
  destruct ((timestamp env =? lastAccrual p) || (totalBorrows p =? 0)
            || (interestRatePerSecond p =? 0)).
  - injection H as <-. exists (totalBorrows p), (borrowIndex p).
    split; [destruct p; reflexivity | split; apply N.le_refl].
  - inv_ok.
    repeat match goal with
           | E : add _ _ = Ok _ |- _ => apply add_inv in E; destruct E as [-> _]
           end.
    eexists _, _. split; [reflexivity | split; lia].
Qed.



(** What [_increaseBorrow] writes. *)
Lemma increaseBorrow_shape (p p2 : Pool) (who : address) (amount : N) :
  _increaseBorrow p who amount = Ok p2 ->
  exists base,
    p2 = set_totalBorrows (totalBorrows p + amount)
           (set_account who (set_borrowBase base (account_of p who)) p).
Proof.
  unfold _increaseBorrow. intros H. inv_ok.
  match goal with E : add (totalBorrows _) _ = Ok _ |- _ =>
    apply add_inv in E; destruct E as [-> _] end.
  eexists. reflexivity.
Qed.

(** What [_decreaseBorrow] writes: nothing when it applies nothing. *)
Lemma decreaseBorrow_shape (p p2 : Pool) (who : address) (amount applied : N) :
  _decreaseBorrow p who amount = Ok (applied, p2) ->
  (applied = 0 /\ p2 = p)
  \/ (0 < applied /\ applied <= totalBorrows p /\
      exists base,
        p2 = set_totalBorrows (totalBorrows p - applied)
               (set_account who (set_borrowBase base (account_of p who)) p)).
Proof.
  unfold _decreaseBorrow. intros H.
  apply bind_inv in H. destruct H as (current & Hcur & H).
  destruct (_ =? 0) eqn:Ez.
  - injection H as <- <-. left. auto.
  - apply N.eqb_neq in Ez.
    apply bind_inv in H. destruct H as (newBalance & Hnew & H).
    apply bind_inv in H. destruct H as (base & Hbase & H).
    apply bind_inv in H. destruct H as (tb & Htb & H).
    injection H as <- <-.
    apply sub_inv in Htb. cbn in Htb. destruct Htb as [-> Hle].
    right. split; [lia | split; [exact Hle |]].
    exists base. reflexivity.
Qed.

(** ** Monotonicity *)

(** One call: the index and the accrual time do not decrease, and the
    accrual time stays behind the clock. *)
Lemma exec_index_clock (env : Env) (op : Op) (w w' : World) (v : Value) :
  lastAccrual (pool w) <= timestamp env ->
  exec env op w = Ok (v, w') ->
  borrowIndex (pool w) <= borrowIndex (pool w')
  /\ lastAccrual (pool w) <= lastAccrual (pool w')
  /\ lastAccrual (pool w') <= timestamp env.
Proof.
  intros Hclock H.
  destruct op; cbn [exec] in H;
    unfold silently, returning, depositCollateral, withdrawCollateral, borrow,
      repay, liquidate, provideLiquidity, withdrawLiquidity, setRiskParameters,
      setInterestRate, setOracles, pause, unpause, accrueInterest in H;
    inv_ok;
    repeat match goal with
      | E : _accrueInterest _ _ = Ok _ |- _ =>
          apply accrue_shape in E; destruct E as (? & ? & -> & ? & ?)
      | E : _increaseBorrow _ _ _ = Ok _ |- _ =>
          apply increaseBorrow_shape in E; destruct E as (? & ->)
      | E : _decreaseBorrow _ _ _ = Ok _ |- _ =>
          apply decreaseBorrow_shape in E;
          destruct E as [(-> & ->) | (? & ? & ? & ->)]
      end;
    cbn; lia.
Qed.

Lemma call_index_clock (env : Env) (op : Op) (w : World) :
  lastAccrual (pool w) <= timestamp env ->
  borrowIndex (pool w) <= borrowIndex (pool (fst (call env op w)))
  /\ lastAccrual (pool w) <= lastAccrual (pool (fst (call env op w)))
  /\ lastAccrual (pool (fst (call env op w))) <= timestamp env.
Proof.
  intros Hclock. unfold call.
  destruct (exec env op w) as [[v w'] | e] eqn:E; cbn [fst].
  - exact (exec_index_clock _ _ _ _ _ Hclock E).
  - lia.
Qed.

(** **** C3: monotonicity.  Along every sequence of public calls (mutating
    or read-only, successful or aborted) whose clock starts at or after the
    pool's last accrual and never moves backwards, [borrowIndex] and
    [lastAccrual] are non-decreasing at every step. *)
Theorem index_and_clock_monotone (tr : list (Env * Op)) (w : World) (t : N) :
  lastAccrual (pool w) <= t ->
  clock_from t tr ->
  nondecreasing_run tr w.
Proof.
  revert w t. induction tr as [| [env op] tr IH]; intros w t Hw Hclock.
  - exact I.
  - cbn [clock_from] in Hclock. destruct Hclock as [Ht Hrest].
    cbn [nondecreasing_run].
    assert (Hnow : lastAccrual (pool w) <= timestamp env) by lia.
    destruct (call_index_clock env op w Hnow) as (Hi & Hl & Hbehind).
    split; [exact Hi | split; [exact Hl |]].
    apply (IH _ (timestamp env)); [exact Hbehind | exact Hrest].
Qed.

(** Witness of [index_and_clock_monotone]: the journey of the scenario,
    which contains aborted calls and views. *)
Lemma index_and_clock_monotone_witness :
  nondecreasing_run Scenario.journey Scenario.genesis.
Proof.
  apply (index_and_clock_monotone Scenario.journey Scenario.genesis 1000).
  - apply N.leb_le. vm_compute. reflexivity.
  - cbn. repeat split; apply N.leb_le; vm_compute; reflexivity.
Defined.

(** What the calls of the journey return. *)
Example journey_results :
  results Scenario.journey Scenario.genesis
  = [ Ok VNone; Ok VNone; Ok VNone; Ok VNone; Revert InsufficientLiquidity;
      Ok (VPool (mkPoolData 1000000 500000 500000 500000000000000000
                   1000002000001000000));
      Revert InsufficientCollateral; Ok (VUint 100); Ok VNone ].
Proof. vm_compute. reflexivity. Qed.

(** ** Atomicity *)



(** ** Collateral conservation *)

Lemma sum_collateral_insert (m : gmap N Account) (a : address) (acc : Account) :
  sum_collateral (<[a := acc]> m) + collateral (default (mkAccount 0 0) (m !! a))
  = sum_collateral m + collateral acc.
Proof.
  assert (Hcomm : forall (z1 z2 : Account) (y : N),
             collateral z1 + (collateral z2 + y)
             = collateral z2 + (collateral z1 + y)) by (intros; lia).
  unfold sum_collateral.
  destruct (m !! a) as [old|] eqn:E; cbn [default].
  - rewrite (map_fold_delete_L _ 0 a old m); [| intros; apply Hcomm | exact E].
    rewrite <- (insert_delete_eq m a acc).
    rewrite map_fold_insert_L;
      [| intros; apply Hcomm | apply lookup_delete_eq].
    unfold id. lia.
  - rewrite map_fold_insert_L; [| intros; apply Hcomm | exact E].
    cbn. lia.
Qed.

Lemma sum_collateral_set_account (p : Pool) (a : address) (acc : Account) :
  sum_collateral (accounts (set_account a acc p)) + collateral (account_of p a)
  = sum_collateral (accounts p) + collateral acc.
Proof. apply sum_collateral_insert. Qed.

(** Replace the pools returned by the three internal writers by the
    storage writes they stand for. *)
Ltac shapes :=
  repeat match goal with
    | E : _accrueInterest _ _ = Ok _ |- _ =>
        apply accrue_shape in E; destruct E as (? & ? & -> & ? & ?)
    | E : _increaseBorrow _ _ _ = Ok _ |- _ =>
        apply increaseBorrow_shape in E; destruct E as (? & ->)
    | E : _decreaseBorrow _ _ _ = Ok _ |- _ =>
        apply decreaseBorrow_shape in E;
        destruct E as [(-> & ->) | (? & ? & ? & ->)]
    end.

(** Open the body of a public function in [H]. *)
Ltac unfold_ops H :=
  unfold silently, returning, depositCollateral, withdrawCollateral, borrow,
      repay, liquidate, provideLiquidity, withdrawLiquidity, setRiskParameters,
      setInterestRate, setOracles, pause, unpause, accrueInterest in H.


Lemma default_written {A : Type} (d x : A) : default d (Some x) = x.
Proof. reflexivity. Qed.

(** Push field reads through storage writes. *)
Ltac ledger :=
  unfold account_of, set_account, set_collateral, set_borrowBase in *;
  cbn [accounts totalCollateral totalBorrows borrowIndex lastAccrual
       collateral borrowBase this collateralTokenDecimals debtTokenDecimals
       collateralOracle debtOracle collateralFactor liquidationThreshold
       liquidationBonus interestRatePerSecond paused managers
       pool collateralToken debtToken
       set_accounts set_totalCollateral set_totalBorrows set_borrowIndex
       set_lastAccrual set_riskParameters set_interestRatePerSecond
       set_oracles set_paused] in *;
  rewrite ?lookup_insert_eq, ?default_written in *;
  cbn [collateral borrowBase] in *.

(** Turn successful checked operations and boolean tests into facts that
    [lia] understands. *)
Ltac arith :=
  repeat match goal with
    | E : add _ _ = Ok _ |- _ => apply add_inv in E; destruct E as [? ?]
    | E : sub _ _ = Ok _ |- _ => apply sub_inv in E; destruct E as [? ?]
    | E : mul _ _ = Ok _ |- _ => apply mul_inv in E; destruct E as [? ?]
    | E : div _ _ = Ok _ |- _ => apply div_inv in E; destruct E as [? ?]
    | E : (_ <=? _) = true |- _ => apply N.leb_le in E
    | E : (_ <=? _) = false |- _ => apply N.leb_gt in E
    | E : (_ <? _) = true |- _ => apply N.ltb_lt in E
    | E : (_ <? _) = false |- _ => apply N.ltb_ge in E
    | E : (_ =? _) = true |- _ => apply N.eqb_eq in E
    | E : (_ =? _) = false |- _ => apply N.eqb_neq in E
    end.

(** Reads of an account map after writes, by cases on the keys. *)
Ltac lookups :=
  repeat (rewrite lookup_insert; destruct (decide _); [try subst |]);
  rewrite ?default_written in *;
  cbn [collateral borrowBase] in *.

Lemma exec_collateral_effect (env : Env) (op : Op) (w w' : World) (v : Value) :
  exec env op w = Ok (v, w') ->
  collateral_effect env op (pool w) (pool w').
Proof.
  intros H.
  destruct op; cbn [exec] in H; unfold_ops H; inv_ok; shapes;
    unfold collateral_effect, collateral_moved;
    ledger; arith; subst;
    lazymatch goal with
    | |- ex _ =>
        eexists; split;
        [ etransitivity;
          [apply N.sub_add; assumption | symmetry; apply N.add_0_r] |]
    | _ => idtac
    end;
    repeat split; try lia; try (intros b Hb); lookups;
    try reflexivity; try congruence; try lia.
Qed.

Lemma exec_collateral_sum (env : Env) (op : Op) (w w' : World) (v : Value) :
  exec env op w = Ok (v, w') ->
  totalCollateral (pool w) = sum_collateral (accounts (pool w)) ->
  totalCollateral (pool w') = sum_collateral (accounts (pool w')).
Proof.
  intros H Hinv.
  destruct op; cbn [exec] in H; unfold_ops H; inv_ok; shapes.
  all: ledger; arith; subst; rewrite ?insert_insert_eq.
  all: try exact Hinv.
  all: repeat match goal with
         | |- context [sum_collateral (<[?a := ?acc]> ?m)] =>
             let Hs := fresh "Hs" in
             pose proof (sum_collateral_insert m a acc) as Hs;
             cbn [collateral] in Hs;
             generalize dependent (sum_collateral (<[a := acc]> m)); intros
         end.
  all: try lia.
  Qed.

Lemma constructor_fresh env self ct dt cdec ddec cf lt lb rate admin co do_ p :
  constructor env self ct dt cdec ddec cf lt lb rate admin co do_ = Ok p ->
  p = mkPool self cdec ddec co do_ cf lt lb rate 0 0 WAD (timestamp env)
        ∅ false {[admin]}.
Proof. unfold constructor. intros H. inv_ok. reflexivity. Qed.

Lemma reachable_conserves (w : World) :
  reachable w ->
  totalCollateral (pool w) = sum_collateral (accounts (pool w)).
Proof.
  induction 1 as [env self ct dt cdec ddec cf lt lb rate admin co do_ p tc td
                    Hc | env op w Hw IH | w tc td Hw IH].
  - apply constructor_fresh in Hc. subst p. reflexivity.
  - unfold call. destruct (exec env op w) as [[v w'] | e] eqn:E; cbn [fst].
    + exact (exec_collateral_sum _ _ _ _ _ E IH).
    + exact IH.
  - exact IH.
Qed.

(** **** C10: collateral conservation.  In every state reachable from a
    freshly constructed pool, [totalCollateral] is the sum of the collateral
    of all accounts; and from such a state a successful [depositCollateral]
    adds the amount to both the total and the caller's balance, a successful
    [withdrawCollateral] takes it from both, a successful [liquidate] takes
    the seized amount from the total and from the borrower's balance, and
    every other public function leaves the total and all balances alone. *)
Theorem collateral_conservation (w : World) :
  reachable w ->
  totalCollateral (pool w) = sum_collateral (accounts (pool w))
  /\ (forall env op v w',
        exec env op w = Ok (v, w') ->
        collateral_effect env op (pool w) (pool w')).
Proof.
  intros Hw. split.
  - exact (reachable_conserves w Hw).
  - intros env op v w' E. exact (exec_collateral_effect _ _ _ _ _ E).
Qed.

Lemma deployed_by_constructor :
  constructor (Scenario.env_at 1000 1) 100 201 202 18 18
    700000000000000000 800000000000000000 1050000000000000000
    1000000000000 1 301 302 = Ok Scenario.deployed.
Proof. reflexivity. Qed.

Lemma reachable_run (tr : list (Env * Op)) (w : World) :
  reachable w -> reachable (run tr w).
Proof.
  revert w. induction tr as [| [env op] tr IH]; intros w Hw; cbn [run].
  - exact Hw.
  - apply IH. apply reachable_call. exact Hw.
Qed.

Lemma reachable_genesis : reachable Scenario.genesis.
Proof.
  exact (reachable_constructor _ _ _ _ _ _ _ _ _ _ _ _ _ _ _ _
           deployed_by_constructor).
Qed.

Lemma reachable_opened : reachable Scenario.opened.
Proof. apply reachable_run, reachable_genesis. Qed.

(** Witness of [collateral_conservation]: the scenario after the deposit
    and the borrow. *)
Lemma collateral_conservation_witness :
  totalCollateral (pool Scenario.opened)
  = sum_collateral (accounts (pool Scenario.opened)).
Proof.
  exact (proj1 (collateral_conservation Scenario.opened reachable_opened)).
Defined.

(** ** Accrual comes first *)

Lemma accrue_again (env : Env) (p p1 : Pool) :
  _accrueInterest env p = Ok p1 -> _accrueInterest env p1 = Ok p1.
Proof.
  intros H. apply accrue_shape in H. destruct H as (tb & bi & -> & _ & _).
  rewrite accrue_idle; [reflexivity | left; reflexivity].
Qed.

Lemma accrue_frame (env : Env) (p p1 : Pool) :
  _accrueInterest env p = Ok p1 ->
  paused p1 = paused p /\ managers p1 = managers p
  /\ lastAccrual p1 = timestamp env.
Proof.
  intros H. apply accrue_shape in H. destruct H as (tb & bi & -> & _ & _).
  auto.
Qed.

(** **** C9, as amended: accrual comes first in six of the ten mutating
    functions.  A successful [depositCollateral], [withdrawCollateral],
    [borrow], [repay], [liquidate] or [setInterestRate] has accrued interest
    before anything else: the call gives the same result and the same
    post-state as on the freshly accrued pool, and afterwards [lastAccrual]
    is the clock of the call and [borrowIndex] is the accrued index.  A
    successful [provideLiquidity], [withdrawLiquidity], [setRiskParameters]
    or [setOracles] does not accrue: [lastAccrual], [borrowIndex],
    [totalBorrows] and the accounts are left as they were. *)
Theorem accrual_before_ledger (env : Env) (op : Op) (w w' : World) (v : Value) :
  mutating op = true ->
  exec env op w = Ok (v, w') ->
  if accrues_first op
  then exists p1,
         _accrueInterest env (pool w) = Ok p1
         /\ exec env op (with_pool p1 w) = Ok (v, w')
         /\ lastAccrual (pool w') = timestamp env
         /\ borrowIndex (pool w') = borrowIndex p1
  else lastAccrual (pool w') = lastAccrual (pool w)
       /\ borrowIndex (pool w') = borrowIndex (pool w)
       /\ totalBorrows (pool w') = totalBorrows (pool w)
       /\ accounts (pool w') = accounts (pool w).
Proof.
  intros Hmut H.
  destruct op; try discriminate Hmut; cbn [accrues_first].
  1-5, 9:
    destruct (_accrueInterest env (pool w)) as [p1 | e] eqn:Hacc;
    [ exists p1; split; [reflexivity |];
      pose proof (accrue_again _ _ _ Hacc) as Hidem;
      destruct (accrue_frame _ _ _ Hacc) as (Hp & Hm & Hl);
      split;
      [ rewrite <- H; cbn [exec];
        unfold silently, depositCollateral, withdrawCollateral, borrow, repay,
          liquidate, setInterestRate, whenNotPaused, onlyManager, with_pool;
        cbn [pool collateralToken debtToken];
        rewrite Hacc, Hidem, ?Hp, ?Hm; reflexivity
      | clear Hidem Hp Hm Hl;
        cbn [exec] in H; unfold_ops H; rewrite Hacc in H; inv_ok; shapes;
        ledger; split; reflexivity ]
    | cbn [exec] in H; unfold_ops H; rewrite Hacc in H; inv_ok ].
  all: cbn [exec] in H; unfold_ops H; inv_ok; ledger; auto.
Qed.

(** Witness of [accrual_before_ledger]: the repayment of 100 by account 2
    at time 1500. *)
Lemma accrual_before_ledger_witness :
  exists p1,
    _accrueInterest (Scenario.env_at 1500 2) (pool Scenario.opened) = Ok p1
    /\ exec (Scenario.env_at 1500 2) (Repay 100)
         (with_pool p1 Scenario.opened) = Ok (VUint 100, Scenario.repaid)
    /\ lastAccrual (pool Scenario.repaid) = 1500
    /\ borrowIndex (pool Scenario.repaid) = borrowIndex p1.
Proof.
  apply (accrual_before_ledger (Scenario.env_at 1500 2) (Repay 100)
           Scenario.opened Scenario.repaid (VUint 100) eq_refl).
  vm_compute. reflexivity.
Defined.

(** C9 as stated fails: at time 1500 the manager provides liquidity to the
    pool of the scenario, whose last accrual was at time 1000; the call
    succeeds and [lastAccrual] is still 1000. *)
Lemma accrual_skipped_counterexample :
  mutating (ProvideLiquidity 1000) = true
  /\ snd (call (Scenario.env_at 1500 1) (ProvideLiquidity 1000)
            Scenario.opened) = Ok VNone
  /\ timestamp (Scenario.env_at 1500 1) = 1500
  /\ lastAccrual
       (pool (fst (call (Scenario.env_at 1500 1) (ProvideLiquidity 1000)
                     Scenario.opened))) = 1000.
Proof. vm_compute. repeat split; reflexivity. Qed.

(** ** Rounding of the borrow base *)

(** Converting a balance to base units at an index and back loses less
    than [index / WAD + 1] units, and never gains. *)
Lemma base_round_trip (balance index : N) :
  index <> 0 ->
  (balance * WAD / index) * index / WAD <= balance
  /\ (balance - (balance * WAD / index) * index / WAD) * WAD < index + WAD.
Proof.
  intros Hi.
  assert (HW : WAD <> 0) by discriminate.
  pose proof (N.div_mod (balance * WAD) index Hi) as H1.
  pose proof (N.mod_lt (balance * WAD) index Hi) as H2.
  revert H1 H2.
  generalize ((balance * WAD) mod index) as r1.
  generalize (balance * WAD / index) as base.
  intros base r1 H1 H2.
  pose proof (N.div_mod (base * index) WAD HW) as H3.
  pose proof (N.mod_lt (base * index) WAD HW) as H4.
  revert H3 H4.
  generalize ((base * index) mod WAD) as r2.
  generalize (base * index / WAD) as back.
  intros back r2 H3 H4.
  replace (index * base) with (base * index) in H1 by apply N.mul_comm.
  revert H1 H3. generalize (base * index) as prod. intros prod H1 H3.
  unfold WAD in *. lia.
Qed.

Lemma base_fits (balance index : N) :
  index <> 0 -> balance * WAD <= MAX_UINT256 ->
  (balance * WAD / index) * index <= MAX_UINT256.
Proof.
  intros Hi Hfit. rewrite N.mul_comm.
  etransitivity; [apply N.Div0.mul_div_le | exact Hfit].
Qed.

(** The debt recomputed from a base that was just written. *)
Lemma recomputed_debt (balance index : N) :
  index <> 0 -> balance * WAD <= MAX_UINT256 ->
  _borrowBalanceWithIndex (mkAccount 0 (balance * WAD / index)) index
  = Ok ((balance * WAD / index) * index / WAD).
Proof.
  intros Hi Hfit. unfold _borrowBalanceWithIndex. cbn [borrowBase].
  destruct (N.eqb_spec (balance * WAD / index) 0) as [-> | Hne].
  - reflexivity.
  - rewrite (mul_fits _ _ (base_fits _ _ Hi Hfit)). reflexivity.
Qed.

Lemma borrowBalance_collateral_blind (acc : Account) (index : N) :
  _borrowBalanceWithIndex acc index
  = _borrowBalanceWithIndex (mkAccount 0 (borrowBase acc)) index.
Proof. reflexivity. Qed.

Lemma increaseBorrow_rounding (p p' : Pool) (who : address) (amount d : N) :
  _borrowBalance p (account_of p who) = Ok d ->
  _increaseBorrow p who amount = Ok p' ->
  exists d' loss,
    _borrowBalance p' (account_of p' who) = Ok d'
    /\ d' + loss = d + amount
    /\ loss * WAD < borrowIndex p + WAD
    /\ totalBorrows p' = totalBorrows p + amount
    /\ borrowIndex p' = borrowIndex p
    /\ (forall a, a <> who -> account_of p' a = account_of p a).
Proof.
  intros Hd H. unfold _increaseBorrow in H. rewrite Hd in H.
  cbn [bind] in H. inv_ok. arith. subst.
  destruct (base_round_trip (d + amount) (borrowIndex p)) as [Hle Hloss];
    [assumption |].
  exists ((d + amount) * WAD / borrowIndex p * borrowIndex p / WAD),
    (d + amount - (d + amount) * WAD / borrowIndex p * borrowIndex p / WAD).
  split; [| split; [lia | split; [exact Hloss | split; [| split]]]].
  - unfold _borrowBalance. ledger.
    rewrite borrowBalance_collateral_blind. cbn [borrowBase].
    apply recomputed_debt; assumption.
  - ledger. reflexivity.
  - reflexivity.
  - intros a Ha. ledger. now rewrite lookup_insert_ne by congruence.
Qed.

Lemma decreaseBorrow_rounding (p p' : Pool) (who : address)
  (amount applied d : N) :
  _borrowBalance p (account_of p who) = Ok d ->
  _decreaseBorrow p who amount = Ok (applied, p') ->
  applied = N.min amount d
  /\ exists d' loss,
       _borrowBalance p' (account_of p' who) = Ok d'
       /\ d' + loss = d - applied
       /\ loss * WAD < borrowIndex p + WAD
       /\ totalBorrows p' + applied = totalBorrows p
       /\ borrowIndex p' = borrowIndex p
       /\ (forall a, a <> who -> account_of p' a = account_of p a).
Proof.
  intros Hd H. unfold _decreaseBorrow in H. rewrite Hd in H.
  cbn [bind] in H.
  assert (Hmin : (if d <? amount then d else amount) = N.min amount d).
  { destruct (N.ltb_spec d amount); lia. }
  rewrite Hmin in H. clear Hmin.
  destruct (N.eqb_spec (N.min amount d) 0) as [Hz | Hnz].
  - injection H as <- <-. split; [lia |].
    exists d, 0. rewrite N.sub_0_r, N.add_0_r.
    repeat split; [exact Hd | unfold WAD; lia | lia].
  - apply bind_inv in H. destruct H as (newBalance & Hnb & H).
    apply bind_inv in H. destruct H as (base & Hbase & H).
    apply bind_inv in H. destruct H as (tb & Htb & H).
    injection H as <- <-. split; [reflexivity |].
    apply sub_inv in Hnb. destruct Hnb as [-> Hle].
    apply sub_inv in Htb. destruct Htb as [-> Htle]. ledger.
    destruct (N.eqb_spec (d - N.min amount d) 0) as [Hz | Hpos].
    + injection Hbase as <-. exists 0, 0.
      split; [reflexivity |].
      split; [lia |]. split; [unfold WAD; lia |]. split; [lia |].
      split; [reflexivity |].
      intros a Ha. now rewrite lookup_insert_ne by congruence.
    + inv_ok. arith. subst.
      destruct (base_round_trip (d - N.min amount d) (borrowIndex p))
        as [Hrt Hloss]; [assumption |].
      eexists _, (d - N.min amount d - _).
      split; [| split; [| split; [exact Hloss | split; [| split]]]].
      * unfold _borrowBalance. ledger.
        rewrite borrowBalance_collateral_blind. cbn [borrowBase].
        apply recomputed_debt; assumption.
      * lia.
      * lia.
      * reflexivity.
      * intros a Ha. now rewrite lookup_insert_ne by congruence.
Qed.

(** **** C8, as amended: the borrow base is rounded down, in the account's
    favour, by a bounded amount.  When [_increaseBorrow] succeeds, the debt
    recomputed from the new base is at most the previous debt plus the
    amount, and short of it by a loss with [loss * WAD < index + WAD]; when
    [_decreaseBorrow] succeeds it applies [min(amount, debt)], and the
    recomputed debt is at most the previous debt minus the applied amount,
    short of it by a loss with the same bound.  [totalBorrows] moves by
    exactly the amount, the index stays, and no other account is written:
    each step lets the sum of the accounts' debts fall behind [totalBorrows]
    by that loss. *)
Theorem borrow_base_rounding (p : Pool) (who : address) (amount d : N) :
  _borrowBalance p (account_of p who) = Ok d ->
  (forall p',
      _increaseBorrow p who amount = Ok p' ->
      exists d' loss,
        _borrowBalance p' (account_of p' who) = Ok d'
        /\ d' + loss = d + amount
        /\ loss * WAD < borrowIndex p + WAD
        /\ totalBorrows p' = totalBorrows p + amount
        /\ borrowIndex p' = borrowIndex p
        /\ (forall a, a <> who -> account_of p' a = account_of p a))
  /\ (forall applied p',
        _decreaseBorrow p who amount = Ok (applied, p') ->
        applied = N.min amount d
        /\ exists d' loss,
             _borrowBalance p' (account_of p' who) = Ok d'
             /\ d' + loss = d - applied
             /\ loss * WAD < borrowIndex p + WAD
             /\ totalBorrows p' + applied = totalBorrows p
             /\ borrowIndex p' = borrowIndex p
             /\ (forall a, a <> who -> account_of p' a = account_of p a)).
Proof.
  intros Hd. split.
  - intros p'. apply increaseBorrow_rounding. exact Hd.
  - intros applied p'. apply decreaseBorrow_rounding. exact Hd.
Qed.

(** Witness of [borrow_base_rounding]: account 2 of the scenario, owing
    500000 after the first accrual, borrows one more unit. *)
Lemma borrow_base_rounding_witness :
  exists d' loss,
    _borrowBalance (pool Scenario.borrowed_one)
      (account_of (pool Scenario.borrowed_one) 2) = Ok d'
    /\ d' + loss = 500000 + 1
    /\ loss * WAD < borrowIndex (pool Scenario.accrued_once) + WAD
    /\ totalBorrows (pool Scenario.borrowed_one)
       = totalBorrows (pool Scenario.accrued_once) + 1
    /\ borrowIndex (pool Scenario.borrowed_one)
       = borrowIndex (pool Scenario.accrued_once)
    /\ (forall a, a <> 2 ->
          account_of (pool Scenario.borrowed_one) a
          = account_of (pool Scenario.accrued_once) a).
Proof.
  assert (Hd : _borrowBalance (pool Scenario.accrued_once)
                 (account_of (pool Scenario.accrued_once) 2) = Ok 500000)
    by (vm_compute; reflexivity).
  apply (proj1 (borrow_base_rounding (pool Scenario.accrued_once) 2 1 500000
                  Hd)).
  vm_compute. reflexivity.
Defined.

(** C8 as stated fails, at an index above [WAD] (1.000001 and 1.000002...
    in the scenario).  After [_increaseBorrow] of one unit the recomputed
    debt of account 2 is still 500000, not at least 500001; after
    [_decreaseBorrow] of 500000 from a debt of 500001 the recomputed debt is
    0, not at least 1. *)
Lemma rounding_favours_account_counterexample :
  (WAD <= borrowIndex (pool Scenario.accrued_once)
   /\ _borrowBalance (pool Scenario.accrued_once)
        (account_of (pool Scenario.accrued_once) 2) = Ok 500000
   /\ _increaseBorrow (pool Scenario.accrued_once) 2 1
      = Ok (pool Scenario.borrowed_one)
   /\ _borrowBalance (pool Scenario.borrowed_one)
        (account_of (pool Scenario.borrowed_one) 2) = Ok 500000)
  /\ (WAD <= borrowIndex (pool Scenario.drifted)
      /\ _borrowBalance (pool Scenario.drifted)
           (account_of (pool Scenario.drifted) 2) = Ok 500001
      /\ _decreaseBorrow (pool Scenario.drifted) 2 500000
         = Ok (500000, pool Scenario.repaid_most)
      /\ _borrowBalance (pool Scenario.repaid_most)
           (account_of (pool Scenario.repaid_most) 2) = Ok 0).
Proof.
  repeat split; try (vm_compute; reflexivity);
    apply N.leb_le; vm_compute; reflexivity.
Qed.

(** ** The solvency gate *)

(** What a positive answer of [_isSolvent] means. *)
Lemma isSolvent_true (env : Env) (p : Pool) (acc : Account) :
  _isSolvent env p acc = Ok true ->
  exists debt debtValue,
    _borrowBalance p acc = Ok debt
    /\ _debtValueUsd env p debt = Ok debtValue
    /\ (debt <> 0 ->
        exists collateralValue,
          _collateralValueUsd env p (collateral acc) = Ok collateralValue)
    /\ (forall collateralValue,
          _collateralValueUsd env p (collateral acc) = Ok collateralValue ->
          debtValue <= collateralValue * collateralFactor p / WAD).
Proof.
  unfold _isSolvent. intros H.
  apply bind_inv in H. destruct H as (debt & Hdebt & H).
  exists debt. destruct (N.eqb_spec debt 0) as [-> | Hpos].
  - exists 0. split; [exact Hdebt |]. split; [reflexivity |].
    split; [congruence | intros; apply N.le_0_l].
  - apply bind_inv in H. destruct H as (cv & Hcv & H).
    apply bind_inv in H. destruct H as (dv & Hdv & H).
    apply bind_inv in H. destruct H as (weighted & Hw & H).
    apply bind_inv in H. destruct H as (limit & Hl & H).
    injection H as H. arith. subst.
    exists dv. split; [exact Hdebt |]. split; [exact Hdv |].
    split; [intros _; exists cv; exact Hcv |].
    intros cv' Hcv'. rewrite Hcv in Hcv'. injection Hcv' as <-. exact H.
Qed.

(** **** C4: the solvency gate.  After a successful [borrow] or
    [withdrawCollateral], the caller's account is solvent in the post-state:
    the USD value of its current debt is at most the USD value of its
    collateral weighted by the collateral factor,
    [collateralValueUsd * collateralFactor / WAD >= debtValueUsd]
    (with a debt of zero the debt value is zero and no price is read). *)
Theorem solvency_gate (env : Env) (amount : N) (w w' : World) (v : Value) :
  exec env (Borrow amount) w = Ok (v, w')
  \/ exec env (WithdrawCollateral amount) w = Ok (v, w') ->
  exists debt debtValue,
    _borrowBalance (pool w') (account_of (pool w') (sender env)) = Ok debt
    /\ _debtValueUsd env (pool w') debt = Ok debtValue
    /\ (debt <> 0 ->
        exists collateralValue,
          _collateralValueUsd env (pool w')
            (collateral (account_of (pool w') (sender env)))
          = Ok collateralValue)
    /\ (forall collateralValue,
          _collateralValueUsd env (pool w')
            (collateral (account_of (pool w') (sender env)))
          = Ok collateralValue ->
          debtValue
          <= collateralValue * collateralFactor (pool w') / WAD).
Proof.
  intros [H | H]; cbn [exec] in H; unfold silently, borrow, withdrawCollateral in H;
    inv_ok; subst; cbn [pool]; apply isSolvent_true; assumption.
Qed.

(** Witness of [solvency_gate]: the borrow of 500000 against a collateral of
    1000000 in the scenario. *)
Lemma solvency_gate_witness :
  exists debt debtValue,
    _borrowBalance (pool Scenario.opened) (account_of (pool Scenario.opened) 2)
    = Ok debt
    /\ _debtValueUsd (Scenario.env_at 1000 2) (pool Scenario.opened) debt
       = Ok debtValue
    /\ (debt <> 0 ->
        exists collateralValue,
          _collateralValueUsd (Scenario.env_at 1000 2) (pool Scenario.opened)
            (collateral (account_of (pool Scenario.opened) 2))
          = Ok collateralValue)
    /\ (forall collateralValue,
          _collateralValueUsd (Scenario.env_at 1000 2) (pool Scenario.opened)
            (collateral (account_of (pool Scenario.opened) 2))
          = Ok collateralValue ->
          debtValue
          <= collateralValue * collateralFactor (pool Scenario.opened) / WAD).
Proof.
  apply (solvency_gate (Scenario.env_at 1000 2) 500000 Scenario.deposited
           Scenario.opened VNone).
  left. vm_compute. reflexivity.
Defined.

(** ** Liquidation *)

Lemma safeTransfer_balances (t t' : Token) (from to : address) (amount : N) :
  safeTransfer t from to amount = Ok t' ->
  from <> to ->
  balanceOf t' to = balanceOf t to + amount
  /\ balanceOf t' from + amount = balanceOf t from.
Proof.
  unfold safeTransfer. intros H Hne. inv_ok. arith.
  unfold balanceOf in *. cbn [balances].
  rewrite lookup_insert_eq.
  rewrite (lookup_insert_ne _ from to) by congruence.
  rewrite (lookup_insert_ne _ to from) by congruence.
  rewrite lookup_insert_eq, !default_written.
  split; [reflexivity | lia].
Qed.

Lemma min_if (a b : N) : (if a <? b then a else b) = N.min a b.
Proof. destruct (N.ltb_spec a b); lia. Qed.



Example liquidation_seizes_105000 :
  collateral (account_of (pool Scenario.liquidated) 2) = 895000
  /\ totalCollateral (pool Scenario.liquidated) = 895000
  /\ balanceOf (collateralToken Scenario.liquidated) 3 = 105000.
Proof. vm_compute. repeat split; reflexivity. Qed.

(** *** The liquidation gate *)





Lemma bind_revert_inv {A B : Type} (c : result A) (k : A -> result B)
  (e : Error) :
  bind c k = Revert e ->
  c = Revert e \/ exists a, c = Ok a /\ k a = Revert e.
Proof.
  destruct c as [a | e']; cbn; intros H.
  - right. exists a. auto.
  - left. injection H as ->. reflexivity.
Qed.

(** Case analysis on an aborted computation, down to the [require] or the
    checked operation that aborted. *)
Ltac inv_revert :=
  repeat match goal with
  | H : bind _ _ = Revert _ |- _ =>
      let a := fresh "a" in let Ha := fresh "Ha" in
      apply bind_revert_inv in H; destruct H as [H | (a & Ha & H)]
  | H : Ok _ = Revert _ |- _ => discriminate H
  | H : Revert _ = Revert _ |- _ => discriminate H
  | H : require ?b _ = Revert _ |- _ =>
      let E := fresh "E" in
      unfold require in H; destruct b eqn:E
  | H : whenNotPaused _ = Revert _ |- _ => unfold whenNotPaused in H
  | H : add _ _ = Revert _ |- _ => unfold add in H
  | H : sub _ _ = Revert _ |- _ => unfold sub in H
  | H : mul _ _ = Revert _ |- _ => unfold mul in H
  | H : div _ _ = Revert _ |- _ => unfold div in H
  | H : pow10 _ = Revert _ |- _ => unfold pow10 in H
  | H : (let '(_, _) := ?x in _) = Revert _ |- _ => destruct x
  | H : (if ?b then _ else _) = Revert _ |- _ =>
      let E := fresh "E" in destruct b eqn:E
  | H : match ?x with Some _ => _ | None => _ end = Revert _ |- _ =>
      let E := fresh "E" in destruct x eqn:E
  end.










(** The health factor and the debt "as of the call" are the ones that
    [getAccountData] reports in the pre-state. *)
Lemma getAccountData_as_of_now (env : Env) (user : address) (w : World)
  (data : AccountData) :
  getAccountData env user w = Ok data ->
  exists index borrows,
    _previewAccrual env (pool w) = Ok (index, borrows)
    /\ _borrowBalanceWithIndex (account_of (pool w) user) index
       = Ok (ad_debt data)
    /\ _healthFactor env (pool w) (collateral (account_of (pool w) user))
         (borrowBase (account_of (pool w) user)) index
         (liquidationThreshold (pool w)) = Ok (ad_healthFactor data).
Proof.
  unfold getAccountData. intros H.
  apply bind_inv in H. destruct H as ([index borrows] & Hprev & H).
  apply bind_inv in H. destruct H as (debt & Hdebt & H).
  apply bind_inv in H. destruct H as (h & Hh & H).
  apply bind_inv in H. destruct H as (limit & _ & H).
  injection H as <-. exists index, borrows. auto.
Qed.




(** ** Repayment *)

(** What [repay] does when it succeeds: it applies the smaller of the
    amount and the debt after accrual, and takes it off [totalBorrows]. *)
Lemma repay_returns_min (env : Env) (amount applied : N) (w w' : World) :
  repay env amount w = Ok (applied, w') ->
  0 < amount
  /\ exists p1 d,
       _accrueInterest env (pool w) = Ok p1
       /\ _borrowBalance p1 (account_of p1 (sender env)) = Ok d
       /\ applied = N.min amount d
       /\ 0 < applied
       /\ totalBorrows (pool w') + applied = totalBorrows p1
       /\ (d <= amount ->
           _borrowBalance (pool w') (account_of (pool w') (sender env))
           = Ok 0).
Proof.
  unfold repay. intros H.
  apply bind_inv in H. destruct H as (u1 & Hamount & H).
  apply bind_inv in H. destruct H as (p1 & Hacc & H).
  apply bind_inv in H. destruct H as ([r p2] & Hdec & H).
  apply bind_inv in H. destruct H as (u2 & Hpos & H).
  apply bind_inv in H. destruct H as (tok & _ & H).
  injection H as <- <-. cbn [pool].
  apply require_inv in Hamount, Hpos. apply N.ltb_lt in Hamount, Hpos.
  split; [exact Hamount |].
  destruct (_borrowBalance p1 (account_of p1 (sender env))) as [d | e] eqn:Hd.
  2: { unfold _decreaseBorrow in Hdec. rewrite Hd in Hdec. discriminate. }
  destruct (decreaseBorrow_rounding _ _ _ _ _ _ Hd Hdec)
    as (Hmin & d' & loss & Hd' & Hsum & _ & Htb & _).
  exists p1, d. repeat split; try assumption.
  intros Hle. rewrite Hd'. f_equal.
  rewrite (N.min_r _ _ Hle) in Hmin. lia.
Qed.

Lemma borrowBalance_aborts (acc : Account) (index : N) (e : Error) :
  _borrowBalanceWithIndex acc index = Revert e ->
  e = ArithmeticPanic \/ e = DivisionByZero.
Proof.
  unfold _borrowBalanceWithIndex. intros H. inv_revert;
    injection H as <-; auto.
Qed.

(** [repay] fails with "Nothing to repay" exactly when, the amount being
    positive and the accrual having succeeded, the debt of the caller after
    accrual is zero. *)
Lemma repay_nothing (env : Env) (amount : N) (w : World) (p1 : Pool) :
  0 < amount ->
  _accrueInterest env (pool w) = Ok p1 ->
  repay env amount w = Revert NothingToRepay
  <-> _borrowBalance p1 (account_of p1 (sender env)) = Ok 0.
Proof.
  intros Hamount Hacc. unfold repay.
  apply N.ltb_lt in Hamount. rewrite Hamount, Hacc. cbn [require bind].
  unfold _decreaseBorrow.
  destruct (_borrowBalance p1 (account_of p1 (sender env))) as [d | e] eqn:Hd;
    cbn [bind].
  - rewrite min_if, N.min_comm. apply N.ltb_lt in Hamount.
    destruct (N.min_spec amount d) as [[Hlt Hm] | [Hge Hm]]; rewrite Hm.
    + (* the amount is below the debt *)
      destruct (N.eqb_spec amount 0) as [Hz | Hnz]; [lia |].
      split; [| intros [= ->]; lia].
      intros H. exfalso. inv_revert;
          [ inv_ok; arith; lia
          | unfold safeTransferFrom, safeTransfer in H; inv_revert ].
    + (* the amount covers the debt *)
      destruct (N.eqb_spec d 0) as [-> | Hnz].
      * cbn. split; auto.
      * split; [| intros [= ->]; lia].
        intros H. exfalso. inv_revert;
          [ inv_ok; arith; lia
          | unfold safeTransferFrom, safeTransfer in H; inv_revert ].
  - apply borrowBalance_aborts in Hd.
    split; [intros [= ->]; destruct Hd; discriminate | discriminate].
Qed.

(** The defect in general: whenever the amount to apply exceeds
    [totalBorrows] after accrual, [repay] aborts on the checked subtraction
    in [_decreaseBorrow], although the caller owes that amount. *)
Lemma repay_underflow (env : Env) (amount d : N) (w : World) (p1 : Pool) :
  0 < amount ->
  _accrueInterest env (pool w) = Ok p1 ->
  _borrowBalance p1 (account_of p1 (sender env)) = Ok d ->
  totalBorrows p1 < N.min amount d ->
  repay env amount w = Revert ArithmeticPanic.
Proof.
  intros Hamount Hacc Hd Hgap. unfold repay.
  apply N.ltb_lt in Hamount. rewrite Hamount, Hacc. cbn [require bind].
  unfold _decreaseBorrow. rewrite Hd. cbn [bind].
  rewrite min_if, N.min_comm.
  destruct (N.eqb_spec (N.min amount d) 0) as [Hz | Hnz]; [lia |].
  assert (Hle : N.min amount d <= d) by apply N.le_min_r.
  rewrite (sub_fits _ _ Hle). cbn [bind].
  (* the new base is computed without overflow *)
  assert (Hbase : exists base,
             (if d - N.min amount d =? 0 then Ok 0
              else let! scaled := mul (d - N.min amount d) WAD in
                   div scaled (borrowIndex p1)) = Ok base).
  { destruct (N.eqb_spec (d - N.min amount d) 0) as [_ | Hpos];
      [eexists; reflexivity |].
    unfold _borrowBalance, _borrowBalanceWithIndex in Hd.
    destruct (borrowBase (account_of p1 (sender env)) =? 0);
      [injection Hd as <-; lia |].
    apply bind_inv in Hd. destruct Hd as (scaled & Hs & Hd).
    apply mul_inv in Hs. destruct Hs as [-> Hfit].
    apply div_inv in Hd. destruct Hd as [Hd _].
    assert (Hi : borrowIndex p1 <> 0).
    { intros Hi0. rewrite Hi0, N.mul_0_r, N.Div0.div_0_l in Hd. lia. }
    assert (Hscaled : (d - N.min amount d) * WAD <= MAX_UINT256).
    { pose proof (N.Div0.mul_div_le
                    (borrowBase (account_of p1 (sender env)) * borrowIndex p1)
                    WAD) as Hm.
      rewrite <- Hd in Hm. unfold WAD in *. lia. }
    rewrite (mul_fits _ _ Hscaled). cbn [bind]. unfold div.
    apply N.eqb_neq in Hi. rewrite Hi. eexists; reflexivity. }
  destruct Hbase as (base & ->). cbn [bind].
  ledger. unfold sub.
  destruct (N.leb_spec (N.min amount d) (totalBorrows p1)); [lia |].
  reflexivity.
Qed.

Lemma reachable_drifted : reachable Scenario.drifted.
Proof. apply reachable_run, reachable_opened. Qed.

(** **** C6, on the code: a full repayment that aborts.  In the scenario,
    account 2 borrowed 500000 at rate 1e-6 per second and interest was
    accrued after one and after two seconds: each accrual rounds the
    interest on [totalBorrows] down to zero while the index grows, so the
    account owes 500001 and [totalBorrows] is 500000.  The state is reachable
    by public calls and the account holds and has approved enough tokens.
    [repay(1000000)] should apply [min(1000000, 500001) = 500001]; instead
    the checked subtraction [totalBorrows -= amount] in [_decreaseBorrow]
    underflows and the call aborts with a panic.  The same happens for
    [repay(500001)]; a repayment of 500000 goes through. *)
Theorem repay_full_debt_aborts :
  reachable Scenario.drifted
  /\ getBorrowBalance (Scenario.env_at 1002 2) 2 Scenario.drifted = Ok 500001
  /\ totalBorrows (pool Scenario.drifted) = 500000
  /\ balanceOf (debtToken Scenario.drifted) 2 = 1500000
  /\ allowance (debtToken Scenario.drifted) 2 100 = 10000000
  /\ snd (call (Scenario.env_at 1002 2) (Repay 1000000) Scenario.drifted)
     = Revert ArithmeticPanic
  /\ snd (call (Scenario.env_at 1002 2) (Repay 500001) Scenario.drifted)
     = Revert ArithmeticPanic
  /\ snd (call (Scenario.env_at 1002 2) (Repay 500000) Scenario.drifted)
     = Ok (VUint 500000).
Proof.
  split; [exact reachable_drifted |].
  vm_compute. repeat split; reflexivity.
Qed.

(** ** The scenarios of the specification, run on the embedding *)

(** A: 100 collateral at 2 USD with factor 0.7 carries a debt of 140; a
    borrow of 120 succeeds and a further borrow of 30 is refused. *)
Example scenario_A_runs :
  results Spec.scenario_A Spec.funded
  = [Ok VNone; Ok VNone; Revert InsufficientCollateral].
Proof. vm_compute. reflexivity. Qed.

(** B: a debt of 50 at rate 1e-6 per second is 54.32 one day later. *)
Example scenario_B_runs :
  results Spec.scenario_B Spec.funded
  = [Ok VNone; Ok VNone; Ok (VUint 54320000000000000000)].
Proof. vm_compute. reflexivity. Qed.

(** C: repaying 100 against a debt of 40 applies 40 and leaves no debt. *)
Example scenario_C_runs :
  results Spec.scenario_C Spec.funded
  = [Ok VNone; Ok VNone; Ok (VUint (Spec.tokens 40)); Ok (VUint 0)].
Proof. vm_compute. reflexivity. Qed.

(** D: after the collateral price fell to 0.5 USD the account is
    liquidatable, and repaying 10 seizes 10.5 of collateral. *)
Example scenario_D_runs :
  results Spec.scenario_D Spec.funded = [Ok VNone; Ok VNone; Ok VNone]
  /\ balanceOf (collateralToken (run Spec.scenario_D Spec.funded)) 3
     = 10500000000000000000.
Proof. vm_compute. split; reflexivity. Qed.

(** E: the manager cannot withdraw more liquidity than the pool holds. *)
Example scenario_E_runs :
  results Spec.scenario_E Spec.funded = [Revert InsufficientLiquidity]
  /\ run Spec.scenario_E Spec.funded = Spec.funded.
Proof. vm_compute. split; reflexivity. Qed.

(** * Further properties of the pool *)

(** ** Invariants of the configuration and of the index *)

Lemma validateRiskParams_inv (cf lt lb : N) (u : unit) :
  _validateRiskParams cf lt lb = Ok u ->
  0 < cf /\ cf <= lt /\ lt <= WAD /\ WAD <= lb.
Proof.
  unfold _validateRiskParams. intros H. inv_ok.
  repeat match goal with
         | E : (_ && _) = true |- _ => apply andb_true_iff in E; destruct E
         end.
  arith. auto.
Qed.

Lemma exec_risk_parameters (env : Env) (op : Op) (w w' : World) (v : Value) :
  exec env op w = Ok (v, w') ->
  risk_parameters_valid (pool w) -> risk_parameters_valid (pool w').
Proof.
  intros H Hv.
  destruct op; cbn [exec] in H; unfold_ops H;
    try (apply bind_inv in H; destruct H as (w1 & H & Hw);
         injection Hw as _ <-);
    try (apply bind_inv in H; destruct H as (r1 & H & Hw);
         destruct r1; injection Hw as _ <-).
  8: { (* setRiskParameters *)
       apply bind_inv in H. destruct H as (u1 & _ & H).
       apply bind_inv in H. destruct H as (u2 & Hvalid & H).
       injection H as <-. apply validateRiskParams_inv in Hvalid.
       exact Hvalid. }
  all: inv_ok; shapes; unfold risk_parameters_valid in *; ledger;
    try exact Hv.
Qed.

Lemma reachable_parameters_ordered (w : World) :
  reachable w -> risk_parameters_valid (pool w).
Proof.
  induction 1 as [env self ct dt cdec ddec cf lt lb rate admin co do_ p tc td
                    Hc | env op w Hw IH | w tc td Hw IH].
  - unfold constructor in Hc.
    repeat (apply bind_inv in Hc; destruct Hc as (? & ? & Hc)).
    injection Hc as <-.
    match goal with
    | E : _validateRiskParams _ _ _ = Ok _ |- _ =>
        apply validateRiskParams_inv in E; exact E
    end.
  - unfold call. destruct (exec env op w) as [[v w'] | e] eqn:E; cbn [fst].
    + exact (exec_risk_parameters _ _ _ _ _ E IH).
    + exact IH.
  - exact IH.
Qed.

(** **** X1.  In every state reachable from the constructor the risk
    parameters are ordered: [0 < collateralFactor <= liquidationThreshold
    <= WAD <= liquidationBonus]. *)
Theorem reachable_risk_parameters (w : World) :
  reachable w -> risk_parameters_valid (pool w).
Proof. exact (reachable_parameters_ordered w). Qed.

Lemma reachable_risk_parameters_witness :
  risk_parameters_valid (pool Scenario.opened).
Proof. exact (reachable_risk_parameters Scenario.opened reachable_opened). Defined.

Lemma exec_index_le (env : Env) (op : Op) (w w' : World) (v : Value) :
  exec env op w = Ok (v, w') ->
  borrowIndex (pool w) <= borrowIndex (pool w').
Proof.
  intros H.
  destruct op; cbn [exec] in H; unfold_ops H; inv_ok; shapes; ledger; lia.
Qed.

(** **** X2.  In every reachable state [borrowIndex >= WAD]: the index
    starts at 1.0 and no call lowers it, so the divisions by the index in
    [_increaseBorrow] and [_decreaseBorrow] never divide by zero. *)
Theorem reachable_index_at_least_WAD (w : World) :
  reachable w ->
  WAD <= borrowIndex (pool w)
  /\ (forall who amount,
        _increaseBorrow (pool w) who amount <> Revert DivisionByZero)
  /\ (forall who amount,
        _decreaseBorrow (pool w) who amount <> Revert DivisionByZero).
Proof.
  intros Hw.
  assert (Hi : WAD <= borrowIndex (pool w)).
  { induction Hw as [env self ct dt cdec ddec cf lt lb rate admin co do_ p tc td
                       Hc | env op w Hw IH | w tc td Hw IH].
    - apply constructor_fresh in Hc. subst p. cbn. lia.
    - unfold call. destruct (exec env op w) as [[v w'] | e] eqn:E; cbn [fst].
      + pose proof (exec_index_le _ _ _ _ _ E). lia.
      + exact IH.
    - exact IH. }
  assert (Hnz : (borrowIndex (pool w) =? 0) = false).
  { apply N.eqb_neq. unfold WAD in Hi. lia. }
  split; [exact Hi |]. split.
  - intros who amount H. unfold _increaseBorrow, _borrowBalance,
      _borrowBalanceWithIndex in H.
    inv_revert; try congruence;
      match goal with E : (WAD =? 0) = true |- _ => cbv in E; discriminate E end.
  - intros who amount H. unfold _decreaseBorrow, _borrowBalance,
      _borrowBalanceWithIndex in H.
    inv_revert; try congruence;
      match goal with E : (WAD =? 0) = true |- _ => cbv in E; discriminate E end.
Qed.

Lemma reachable_index_at_least_WAD_witness :
  WAD <= borrowIndex (pool Scenario.drifted).
Proof.
  exact (proj1 (reachable_index_at_least_WAD Scenario.drifted
                  reachable_drifted)).
Defined.

(** ** Accrual and the views *)

(** **** X3.  Accrual is idempotent within a block: a second
    [accrueInterest()] at the same timestamp leaves the state reached by the
    first one unchanged, whether the first one succeeded or aborted. *)
Theorem accrueInterest_idempotent (env env' : Env) (w : World) :
  timestamp env' = timestamp env ->
  fst (call env' AccrueInterest (fst (call env AccrueInterest w)))
  = fst (call env AccrueInterest w).
Proof.
  intros Ht. unfold call at 2 3. cbn [exec]. unfold silently, accrueInterest.
  destruct (_accrueInterest env (pool w)) as [p1 | e] eqn:Hacc;
    cbn [bind fst].
  - unfold call. cbn [exec]. unfold silently, accrueInterest. cbn [pool].
    assert (Hagain : _accrueInterest env' p1 = Ok p1).
    { apply accrue_shape in Hacc. destruct Hacc as (tb & bi & -> & _ & _).
      rewrite accrue_idle; [rewrite Ht; reflexivity |].
      left. rewrite Ht. reflexivity. }
    rewrite Hagain. reflexivity.
  - unfold call. cbn [exec]. unfold silently, accrueInterest.
    assert (Hsame : _accrueInterest env' (pool w) = _accrueInterest env (pool w)).
    { unfold _accrueInterest. rewrite Ht. reflexivity. }
    rewrite Hsame, Hacc. reflexivity.
Qed.

Lemma accrueInterest_idempotent_witness :
  fst (call (Scenario.env_at 1001 2) AccrueInterest
         (fst (call (Scenario.env_at 1001 3) AccrueInterest Scenario.opened)))
  = fst (call (Scenario.env_at 1001 3) AccrueInterest Scenario.opened).
Proof.
  apply (accrueInterest_idempotent (Scenario.env_at 1001 3)
           (Scenario.env_at 1001 2) Scenario.opened).
  reflexivity.
Defined.

Lemma preview_is_accrual (env : Env) (p : Pool) :
  _previewAccrual env p
  = (let! p1 := _accrueInterest env p in
     Ok (borrowIndex p1, totalBorrows p1)).
Proof.
  unfold _accrueInterest, _previewAccrual.
  destruct ((timestamp env =? lastAccrual p) || (totalBorrows p =? 0)
            || (interestRatePerSecond p =? 0)); [reflexivity |].
  repeat match goal with
         | |- context [bind (sub ?a ?b) _] =>
             destruct (sub a b); cbn [bind]; [| reflexivity]
         | |- context [bind (mul ?a ?b) _] =>
             destruct (mul a b); cbn [bind]; [| reflexivity]
         | |- context [bind (div ?a ?b) _] =>
             destruct (div a b); cbn [bind]; [| reflexivity]
         | |- context [bind (add ?a ?b) _] =>
             destruct (add a b); cbn [bind]; [| reflexivity]
         end.
  reflexivity.
Qed.

(** **** X4.  The views are "as of now": [getBorrowBalance(user)] returns
    exactly the debt that [_borrowBalance] would read after an
    [accrueInterest()] at the same timestamp, [getPoolData] reports the
    index and the total borrows that this accrual would store, and both
    abort exactly when that accrual would abort. *)
Theorem views_are_as_of_now (env : Env) (user : address) (w : World) :
  getBorrowBalance env user w
  = (let! p1 := _accrueInterest env (pool w) in
     _borrowBalance p1 (account_of p1 user))
  /\ (forall p1, _accrueInterest env (pool w) = Ok p1 ->
      forall d, getPoolData env w = Ok d ->
      pd_index d = borrowIndex p1 /\ pd_totalBorrows d = totalBorrows p1
      /\ pd_totalCollateral d = totalCollateral p1)
  /\ (forall e, _accrueInterest env (pool w) = Revert e ->
      getPoolData env w = Revert e).
Proof.
  split; [| split].
  - unfold getBorrowBalance. rewrite preview_is_accrual.
    destruct (_accrueInterest env (pool w)) as [p1 | e] eqn:Hacc;
      cbn [bind]; [| reflexivity].
    apply accrue_shape in Hacc. destruct Hacc as (tb & bi & -> & _ & _).
    reflexivity.
  - intros p1 Hacc d H. unfold getPoolData in H.
    rewrite preview_is_accrual, Hacc in H. cbn [bind] in H.
    apply bind_inv in H. destruct H as (util & _ & H). injection H as <-.
    cbn. apply accrue_shape in Hacc. destruct Hacc as (tb & bi & -> & _ & _).
    auto.
  - intros e Hacc. unfold getPoolData.
    rewrite preview_is_accrual, Hacc. reflexivity.
Qed.

(** **** X5.  The utilization reported by [utilization()] and by
    [getPoolData()] never exceeds 1.0 ([WAD]), and is zero when nothing is
    borrowed. *)
Theorem utilization_at_most_one (env : Env) (w : World) (u : N) :
  utilization env w = Ok u ->
  u <= WAD
  /\ (forall d, getPoolData env w = Ok d ->
      pd_util d = u /\ (pd_totalBorrows d = 0 -> u = 0)).
Proof.
  unfold utilization, getPoolData. intros H.
  apply bind_inv in H. destruct H as ([index borrows] & Hprev & H).
  rewrite Hprev. cbn [bind].
  destruct (N.eqb_spec borrows 0) as [-> | Hpos].
  - injection H as <-. split; [unfold WAD; lia |].
    intros d Hd. injection Hd as <-. cbn. auto.
  - apply bind_inv in H. destruct H as (scaled & Hs & H).
    apply bind_inv in H. destruct H as (total & Ht & H).
    rewrite Hs, Ht. cbn [bind]. rewrite H. cbn [bind].
    arith. subst. split.
    + apply N.Div0.div_le_upper_bound. lia.
    + intros d Hd. injection Hd as <-. cbn. split; [reflexivity | lia].
Qed.

Lemma utilization_at_most_one_witness :
  500000000000000000 <= WAD.
Proof.
  apply (utilization_at_most_one (Scenario.env_at 1000 3) Scenario.opened
           500000000000000000).
  vm_compute. reflexivity.
Defined.

(** ** Prices and limits *)

(** **** X6.  [_getScaledPrice] returns a price only from a feed that exists
    at a non-zero address, whose answer is positive and whose update is
    neither missing, nor in the future, nor older than one hour; the price is
    the answer rescaled from the feed's decimals to 18. *)
Theorem scaled_price_sound (env : Env) (oracle : address) (price : N) :
  _getScaledPrice env oracle = Ok price ->
  oracle <> 0
  /\ exists f,
       feeds env !! oracle = Some f
       /\ (0 < answer f)%Z
       /\ updatedAt f <> 0
       /\ updatedAt f <= timestamp env
       /\ timestamp env <= updatedAt f + MAX_ORACLE_DELAY
       /\ price = Z.to_N (answer f) * PRICE_PRECISION / 10 ^ feedDecimals f.
Proof.
  unfold _getScaledPrice. intros H.
  apply bind_inv in H. destruct H as (u1 & Hz & H).
  apply bind_inv in H. destruct H as (f & Hf & H).
  apply bind_inv in H. destruct H as (u2 & Hpos & H).
  apply bind_inv in H. destruct H as (fresh & Hfresh & H).
  apply bind_inv in H. destruct H as (u3 & Hreq & H).
  apply bind_inv in H. destruct H as (scale & Hscale & H).
  apply bind_inv in H. destruct H as (scaled & Hscaled & H).
  apply require_inv in Hz, Hpos, Hreq. subst fresh.
  apply negb_true_iff, N.eqb_neq in Hz. apply Z.ltb_lt in Hpos.
  split; [exact Hz |].
  destruct (feeds env !! oracle) as [f' |]; [| discriminate Hf].
  injection Hf as ->. exists f. split; [reflexivity |].
  split; [exact Hpos |].
  destruct (N.eqb_spec (updatedAt f) 0) as [| Hnz]; [discriminate Hfresh |].
  apply bind_inv in Hfresh. destruct Hfresh as (age & Hage & Hfresh).
  injection Hfresh as Hfresh. apply N.leb_le in Hfresh.
  apply sub_inv in Hage. destruct Hage as [-> Hle].
  unfold pow10 in Hscale. destruct (_ <=? _); [| discriminate Hscale].
  injection Hscale as <-.
  apply mul_inv in Hscaled. destruct Hscaled as [-> _].
  apply div_inv in H. destruct H as [-> _].
  repeat split; try assumption. lia.
Qed.

Lemma scaled_price_sound_witness :
  301 <> 0
  /\ exists f,
       feeds (Scenario.env_at 1500 2) !! 301 = Some f
       /\ (0 < answer f)%Z
       /\ updatedAt f <> 0
       /\ updatedAt f <= timestamp (Scenario.env_at 1500 2)
       /\ timestamp (Scenario.env_at 1500 2)
          <= updatedAt f + MAX_ORACLE_DELAY
       /\ 2000000000000000000
          = Z.to_N (answer f) * PRICE_PRECISION / 10 ^ feedDecimals f.
Proof.
  apply (scaled_price_sound (Scenario.env_at 1500 2) 301
           2000000000000000000).
  vm_compute. reflexivity.
Defined.

(** The value of an amount does not decrease with the amount, and the
    value of a smaller amount is computed whenever that of a larger one
    is. *)
Lemma tokenValueUsd_monotone (env : Env) (small large decimals : N)
  (oracle : address) (value : N) :
  small <= large ->
  _tokenValueUsd env large decimals oracle = Ok value ->
  exists value',
    _tokenValueUsd env small decimals oracle = Ok value' /\ value' <= value.
Proof.
  intros Hle H. unfold _tokenValueUsd in *.
  destruct (N.eqb_spec small 0) as [-> | Hs].
  - exists 0. split; [reflexivity | lia].
  - destruct (N.eqb_spec large 0) as [-> | Hl]; [lia |].
    apply bind_inv in H. destruct H as (price & Hp & H).
    apply bind_inv in H. destruct H as (scale & Hsc & H).
    apply bind_inv in H. destruct H as (prod & Hm & H).
    rewrite Hp, Hsc. cbn [bind].
    apply mul_inv in Hm. destruct Hm as [-> Hfit].
    apply div_inv in H. destruct H as [-> Hnz].
    assert (Hprod : small * price <= large * price)
      by (apply N.mul_le_mono_r; exact Hle).
    rewrite mul_fits by lia. cbn [bind]. unfold div.
    apply N.eqb_neq in Hnz. rewrite Hnz.
    eexists. split; [reflexivity |].
    apply N.Div0.div_le_mono. exact Hprod.
Qed.

(** **** X7.  The borrow limit that [getAccountData] advertises is safe: an
    account whose current debt does not exceed
    [_maxBorrowInDebtTokens(collateral)] passes [_isSolvent]. *)
Theorem advertised_limit_is_safe (env : Env) (p : Pool) (acc : Account)
  (limit debt : N) :
  _maxBorrowInDebtTokens env p (collateral acc) = Ok limit ->
  _borrowBalance p acc = Ok debt ->
  debt <= limit ->
  _isSolvent env p acc = Ok true.
Proof.
  unfold _maxBorrowInDebtTokens, _isSolvent. intros Hmax Hdebt Hle.
  rewrite Hdebt. cbn [bind].
  destruct (N.eqb_spec debt 0) as [| Hpos]; [reflexivity |].
  apply bind_inv in Hmax. destruct Hmax as (cv & Hcv & Hmax).
  apply bind_inv in Hmax. destruct Hmax as (weighted & Hw & Hmax).
  apply bind_inv in Hmax. destruct Hmax as (usdLimit & Hu & Hmax).
  rewrite Hcv. cbn [bind].
  destruct (N.eqb_spec usdLimit 0) as [-> | Hunz].
  { injection Hmax as <-. lia. }
  apply bind_inv in Hmax. destruct Hmax as (debtPrice & Hdp & Hmax).
  apply bind_inv in Hmax. destruct Hmax as (scale & Hsc & Hmax).
  apply bind_inv in Hmax. destruct Hmax as (scaledLimit & Hsl & Hmax).
  apply mul_inv in Hsl. destruct Hsl as [-> Hfit].
  apply div_inv in Hmax. destruct Hmax as [-> Hdpnz].
  (* the value of the limit itself is at most the USD limit *)
  assert (Hscale : scale <> 0).
  { unfold pow10 in Hsc. destruct (_ <=? _); [| discriminate Hsc].
    injection Hsc as <-. apply N.pow_nonzero. discriminate. }
  assert (Hback : usdLimit * scale / debtPrice * debtPrice <= usdLimit * scale).
  { rewrite N.mul_comm. apply N.Div0.mul_div_le. }
  assert (Hvalue : exists dv,
             _debtValueUsd env p debt = Ok dv /\ dv <= usdLimit).
  { unfold _debtValueUsd, _tokenValueUsd.
    apply N.eqb_neq in Hpos. rewrite Hpos, Hdp, Hsc. cbn [bind].
    assert (Hprod : debt * debtPrice <= usdLimit * scale).
    { etransitivity; [apply N.mul_le_mono_r; exact Hle | exact Hback]. }
    rewrite mul_fits by lia. cbn [bind]. unfold div.
    apply N.eqb_neq in Hscale. rewrite Hscale.
    eexists. split; [reflexivity |].
    apply N.Div0.div_le_upper_bound. rewrite (N.mul_comm scale). exact Hprod. }
  destruct Hvalue as (dv & -> & Hdv). cbn [bind].
  rewrite Hw. cbn [bind]. rewrite Hu. cbn [bind].
  f_equal. apply N.leb_le. exact Hdv.
Qed.

Lemma advertised_limit_is_safe_witness :
  _isSolvent (Scenario.env_at 1000 2) (pool Scenario.opened)
    (account_of (pool Scenario.opened) 2) = Ok true.
Proof.
  apply (advertised_limit_is_safe (Scenario.env_at 1000 2)
           (pool Scenario.opened) (account_of (pool Scenario.opened) 2)
           1400000 500000).
  - vm_compute. reflexivity.
  - vm_compute. reflexivity.
  - apply N.leb_le. vm_compute. reflexivity.
Defined.

(** ** Solvency against liquidation *)

(** With [collateralFactor <= liquidationThreshold], an account that
    [_isSolvent] accepts is never reported unhealthy by [_isHealthy]. *)
Lemma solvent_is_healthy (env : Env) (p : Pool) (acc : Account) :
  collateralFactor p <= liquidationThreshold p ->
  _isSolvent env p acc = Ok true ->
  _isHealthy env p acc <> Ok false.
Proof.
  intros Hord Hs Hh. unfold _isSolvent, _borrowBalance,
    _borrowBalanceWithIndex in Hs. unfold _isHealthy, _healthFactor in Hh.
  assert (Hmax : (WAD <=? MAX_UINT256) = true) by (vm_compute; reflexivity).
  destruct (borrowBase acc =? 0).
  { cbn [bind] in Hh. rewrite Hmax in Hh. discriminate Hh. }
  apply bind_inv in Hs. destruct Hs as (debt & Hdebt & Hs).
  apply bind_inv in Hdebt. destruct Hdebt as (scaled & Hsc & Hdebt).
  rewrite Hsc in Hh. cbn [bind] in Hh. rewrite Hdebt in Hh. cbn [bind] in Hh.
  destruct (debt =? 0).
  { cbn [bind] in Hh. rewrite Hmax in Hh. discriminate Hh. }
  apply bind_inv in Hs. destruct Hs as (cv & Hcv & Hs).
  apply bind_inv in Hs. destruct Hs as (dv & Hdv & Hs).
  apply bind_inv in Hs. destruct Hs as (weighted & Hw & Hs).
  apply bind_inv in Hs. destruct Hs as (limit & Hl & Hs).
  injection Hs as Hs. apply N.leb_le in Hs.
  rewrite Hcv in Hh. cbn [bind] in Hh. rewrite Hdv in Hh. cbn [bind] in Hh.
  destruct (N.eqb_spec dv 0) as [| Hdvnz].
  { cbn [bind] in Hh. rewrite Hmax in Hh. discriminate Hh. }
  apply bind_inv in Hh. destruct Hh as (health & Hh & Hcmp).
  apply bind_inv in Hh. destruct Hh as (weighted' & Hw' & Hh).
  injection Hcmp as Hcmp. apply N.leb_gt in Hcmp.
  apply mul_inv in Hw, Hw'. destruct Hw as [-> _]. destruct Hw' as [-> _].
  apply div_inv in Hl, Hh. destruct Hl as [-> _]. destruct Hh as [-> _].
  revert Hcmp. apply N.le_ngt.
  apply N.div_le_lower_bound; [exact Hdvnz |].
  assert (H1 : dv * WAD <= cv * collateralFactor p).
  { etransitivity; [apply N.mul_le_mono_r; exact Hs |].
    rewrite N.mul_comm. apply N.Div0.mul_div_le. }
  assert (H2 : cv * collateralFactor p <= cv * liquidationThreshold p)
    by (apply N.mul_le_mono_l; exact Hord).
  lia.
Qed.

Lemma isHealthy_context (env env' : Env) (p : Pool) (acc : Account) (t : N) :
  timestamp env' = timestamp env -> feeds env' = feeds env ->
  _isHealthy env' (set_lastAccrual t p) acc = _isHealthy env p acc.
Proof.
  destruct env as [ts s f], env' as [ts' s' f']. cbn. intros -> ->.
  reflexivity.
Qed.

(** **** X8.  The two gates are consistent: an account that has just
    passed the solvency gate of [borrow] or [withdrawCollateral] cannot be
    liquidated in the same block at the same prices, whoever calls
    [liquidate] and whatever the amount. *)
Theorem no_liquidation_after_gate (env env' : Env) (amount repayAmount : N)
  (w w' : World) (v : Value) :
  reachable w ->
  exec env (Borrow amount) w = Ok (v, w')
  \/ exec env (WithdrawCollateral amount) w = Ok (v, w') ->
  timestamp env' = timestamp env -> feeds env' = feeds env ->
  exists e,
    exec env' (Liquidate (sender env) repayAmount) w' = Revert e.
Proof.
  intros Hreach Hgate Ht Hf.
  assert (Hreach' : reachable w').
  { destruct Hgate as [H | H];
      [pose proof (reachable_call env (Borrow amount) w Hreach) as Hr
      | pose proof (reachable_call env (WithdrawCollateral amount) w Hreach)
          as Hr];
      unfold call in Hr; rewrite H in Hr; exact Hr. }
  destruct (reachable_parameters_ordered w' Hreach') as (_ & Hord & _).
  assert (Hsolvent : _isSolvent env (pool w')
                       (account_of (pool w') (sender env)) = Ok true
                     /\ lastAccrual (pool w') = timestamp env).
  { destruct Hgate as [H | H]; cbn [exec] in H;
      unfold silently, borrow, withdrawCollateral in H; inv_ok; subst;
      cbn [pool]; (split; [assumption |]); shapes; ledger; reflexivity. }
  destruct Hsolvent as [Hsolvent Hlast].
  pose proof (solvent_is_healthy _ _ _ Hord Hsolvent) as Hhealthy.
  cbn [exec]. unfold silently, liquidate.
  destruct (whenNotPaused (pool w')) as [u1 | e1]; cbn [bind]; [| eauto].
  destruct (require (negb (sender env =? sender env')) SelfLiquidation)
    as [u2 | e2]; cbn [bind]; [| eauto].
  destruct (require (0 <? repayAmount) ZeroAmount) as [u3 | e3];
    cbn [bind]; [| eauto].
  rewrite accrue_idle by (left; congruence). cbn [bind].
  assert (Hacc : account_of (set_lastAccrual (timestamp env') (pool w'))
                   (sender env) = account_of (pool w') (sender env))
    by reflexivity.
  rewrite Hacc, (isHealthy_context env env') by assumption.
  destruct (_isHealthy env (pool w') (account_of (pool w') (sender env)))
    as [[|] | e4]; cbn [bind require negb]; eauto.
  contradiction.
Qed.

Lemma no_liquidation_after_gate_witness :
  exists e,
    exec (Scenario.env_at 1000 3) (Liquidate 2 100000) Scenario.opened
    = Revert e.
Proof.
  apply (no_liquidation_after_gate (Scenario.env_at 1000 2)
           (Scenario.env_at 1000 3) 500000 100000 Scenario.deposited
           Scenario.opened VNone).
  - apply reachable_run, reachable_genesis.
  - left. vm_compute. reflexivity.
  - reflexivity.
  - reflexivity.
Defined.

(** ** Roles and the pause *)



Lemma accrue_paused (env : Env) (p : Pool) (b : bool) :
  _accrueInterest env (set_paused b p)
  = (let! p1 := _accrueInterest env p in Ok (set_paused b p1)).
Proof.
  unfold _accrueInterest.
  cbn [lastAccrual totalBorrows interestRatePerSecond borrowIndex set_paused].
  destruct ((timestamp env =? lastAccrual p) || (totalBorrows p =? 0)
            || (interestRatePerSecond p =? 0)); [reflexivity |].
  repeat match goal with
         | |- context [bind (sub ?a ?b) _] =>
             destruct (sub a b); cbn [bind]; [| reflexivity]
         | |- context [bind (mul ?a ?b) _] =>
             destruct (mul a b); cbn [bind]; [| reflexivity]
         | |- context [bind (div ?a ?b) _] =>
             destruct (div a b); cbn [bind]; [| reflexivity]
         | |- context [bind (add ?a ?b) _] =>
             destruct (add a b); cbn [bind]; [| reflexivity]
         end.
  reflexivity.
Qed.

Lemma decreaseBorrow_paused (p : Pool) (who : address) (amount : N) (b : bool) :
  _decreaseBorrow (set_paused b p) who amount
  = (let! '(applied, p') := _decreaseBorrow p who amount in
     Ok (applied, set_paused b p')).
Proof.
  unfold _decreaseBorrow, _borrowBalance.
  change (account_of (set_paused b p) who) with (account_of p who).
  cbn [borrowIndex set_paused].
  destruct (_borrowBalanceWithIndex (account_of p who) (borrowIndex p))
    as [current |]; cbn [bind]; [| reflexivity].
  destruct (_ =? 0); [reflexivity |].
  destruct (sub current _) as [newBalance |]; cbn [bind]; [| reflexivity].
  match goal with
  | |- context [bind ?c _] => destruct c as [base |]; cbn [bind];
                              [| reflexivity]
  end.
  change (totalBorrows (set_account who _ (set_paused b p)))
    with (totalBorrows p).
  change (totalBorrows (set_account who
            (set_borrowBase base (account_of p who)) p))
    with (totalBorrows p).
  destruct (sub (totalBorrows p) _); cbn [bind]; reflexivity.
Qed.

(** **** X10.  The pause closes the way in and leaves the way out open: on
    a paused pool [depositCollateral], [borrow] and [liquidate] are refused
    with the pause error, while [repay] and [withdrawCollateral] do not read
    the pause flag at all: a call that succeeds succeeds with the same
    return value and the same effect whatever the flag is set to. *)
Theorem pause_gates_entries_not_exits (env : Env) (op : Op) (w : World) :
  (paused (pool w) = true -> pausable op = true ->
   snd (call env op w) = Revert EnforcedPause)
  /\ (is_exit op = true ->
      forall b v w',
        exec env op w = Ok (v, w') ->
        exec env op (with_pause b w) = Ok (v, with_pause b w')).
Proof.
  split.
  - intros Hp Hop. unfold call.
    destruct op; try discriminate Hop; cbn [exec];
      unfold silently, depositCollateral, borrow, liquidate, whenNotPaused;
      rewrite Hp; reflexivity.
  - intros Hop b v w' H.
    destruct op; try discriminate Hop; cbn [exec] in *.
    + (* withdrawCollateral *)
      unfold silently, withdrawCollateral, with_pause, with_pool in *.
      cbn [pool collateralToken debtToken].
      rewrite accrue_paused.
      apply bind_inv in H. destruct H as (w1 & H & Hw). injection Hw as <- <-.
      apply bind_inv in H. destruct H as (u1 & -> & H). cbn [bind].
      apply bind_inv in H. destruct H as (p1 & -> & H). cbn [bind].
      apply bind_inv in H. destruct H as (u2 & Hc & H).
      change (account_of (set_paused b p1) (sender env))
        with (account_of p1 (sender env)).
      rewrite Hc. cbn [bind].
      apply bind_inv in H. destruct H as (c & -> & H). cbn [bind].
      apply bind_inv in H. destruct H as (tc & Htc & H).
      change (totalCollateral (set_account (sender env)
                (set_collateral c (account_of p1 (sender env)))
                (set_paused b p1)))
        with (totalCollateral (set_account (sender env)
                (set_collateral c (account_of p1 (sender env))) p1)).
      rewrite Htc. cbn [bind].
      apply bind_inv in H. destruct H as (solvent & Hs & H).
      apply bind_inv in H. destruct H as (u3 & Hreq & H).
      apply bind_inv in H. destruct H as (tok & Htok & H).
      injection H as <-.
      match goal with
      | |- context [_isSolvent env ?p ?a] =>
          change (_isSolvent env p a)
            with (_isSolvent env
                    (set_totalCollateral tc
                       (set_account (sender env)
                          (set_collateral c (account_of p1 (sender env))) p1))
                    (account_of
                       (set_totalCollateral tc
                          (set_account (sender env)
                             (set_collateral c (account_of p1 (sender env)))
                             p1)) (sender env)))
      end.
      rewrite Hs. cbn [bind]. rewrite Hreq. cbn [bind].
      cbn [this set_totalCollateral set_account set_accounts set_paused] in *.
      rewrite Htok. cbn [bind]. reflexivity.
    + (* repay *)
      unfold repay, with_pause, with_pool in *.
      cbn [pool collateralToken debtToken].
      rewrite accrue_paused.
      apply bind_inv in H. destruct H as ([r w1] & H & Hw).
      injection Hw as <- <-.
      apply bind_inv in H. destruct H as (u1 & -> & H). cbn [bind].
      apply bind_inv in H. destruct H as (p1 & -> & H). cbn [bind].
      rewrite decreaseBorrow_paused.
      apply bind_inv in H. destruct H as ([applied p2] & -> & H). cbn [bind].
      apply bind_inv in H. destruct H as (u2 & -> & H). cbn [bind].
      apply bind_inv in H. destruct H as (tok & Htok & H).
      injection H as <- <-.
      cbn [this set_paused] in *. rewrite Htok. cbn [bind]. reflexivity.
Qed.

Lemma pause_gates_entries_not_exits_witness :
  exec (Scenario.env_at 1500 2) (Repay 100) (with_pause true Scenario.opened)
  = Ok (VUint 100, with_pause true Scenario.repaid).
Proof.
  apply (proj2 (pause_gates_entries_not_exits (Scenario.env_at 1500 2)
                  (Repay 100) Scenario.opened) eq_refl true (VUint 100)
           Scenario.repaid).
  vm_compute. reflexivity.
Defined.

(** ** Custody *)

Lemma safeTransferFrom_balances (t t' : Token) (spender from to : address)
  (amount : N) :
  safeTransferFrom t spender from to amount = Ok t' ->
  from <> to ->
  balanceOf t' to = balanceOf t to + amount
  /\ balanceOf t' from + amount = balanceOf t from.
Proof.
  unfold safeTransferFrom. intros H Hne.
  apply bind_inv in H. destruct H as (u & _ & H).
  apply bind_inv in H. destruct H as (t1 & Ht & H).
  injection H as <-.
  apply safeTransfer_balances in Ht; [| exact Hne].
  unfold balanceOf in *. cbn [balances]. exact Ht.
Qed.



(** ** The repayment side of a liquidation *)



(** ** Leaving the pool *)

Lemma collateral_le_sum (m : gmap N Account) (a : address) :
  collateral (default (mkAccount 0 0) (m !! a)) <= sum_collateral m.
Proof.
  destruct (m !! a) as [acc |] eqn:E; cbn; [| apply N.le_0_l].
  unfold sum_collateral.
  rewrite (map_fold_delete_L _ 0 a acc m); [lia | intros; lia | exact E].
Qed.

Lemma account_of_set_account_eq_total (a : address) (acc : Account) (p : Pool)
  (tc : N) :
  account_of (set_totalCollateral tc (set_account a acc p)) a = acc.
Proof.
  unfold account_of, set_account. cbn [accounts set_totalCollateral
    set_accounts]. now rewrite lookup_insert_eq.
Qed.

(** A withdrawal by an account without debt, step by step. *)
Lemma withdraw_without_debt (env : Env) (amount : N) (w : World) (p1 : Pool) :
  _accrueInterest env (pool w) = Ok p1 ->
  borrowBase (account_of (pool w) (sender env)) = 0 ->
  0 < amount ->
  amount <= collateral (account_of (pool w) (sender env)) ->
  amount <= totalCollateral (pool w) ->
  amount <= balanceOf (collateralToken w) (this (pool w)) ->
  exists tok,
    safeTransfer (collateralToken w) (this (pool w)) (sender env) amount
    = Ok tok
    /\ exec env (WithdrawCollateral amount) w
       = Ok (VNone,
             mkWorld
               (set_totalCollateral (totalCollateral (pool w) - amount)
                  (set_account (sender env)
                     (set_collateral
                        (collateral (account_of (pool w) (sender env))
                         - amount)
                        (account_of (pool w) (sender env))) p1))
               tok (debtToken w)).
Proof.
  intros Hacc Hbase Hpos Hle Htotal Hbal.
  cbn [exec]. unfold silently, withdrawCollateral.
  apply N.ltb_lt in Hpos. rewrite Hpos, Hacc. cbn [require bind].
  apply accrue_shape in Hacc. destruct Hacc as (tb & bi & -> & _ & _).
  change (account_of (set_lastAccrual (timestamp env)
            (set_borrowIndex bi (set_totalBorrows tb (pool w)))) (sender env))
    with (account_of (pool w) (sender env)).
  pose proof Hle as Hle'. apply N.leb_le in Hle'. rewrite Hle'.
  cbn [require bind].
  rewrite (sub_fits _ _ Hle). cbn [bind].
  cbn [totalCollateral set_account set_accounts set_lastAccrual
       set_borrowIndex set_totalBorrows].
  rewrite (sub_fits _ _ Htotal). cbn [bind].
  unfold _isSolvent, _borrowBalance, _borrowBalanceWithIndex.
  rewrite account_of_set_account_eq_total.
  cbn [borrowBase set_collateral]. rewrite Hbase. cbn [N.eqb bind require].
  unfold safeTransfer.
  cbn [this set_totalCollateral set_account set_accounts set_lastAccrual
       set_borrowIndex set_totalBorrows].
  apply N.leb_le in Hbal. rewrite Hbal. cbn [require bind].
  eexists. split; reflexivity.
Qed.

(** **** X13.  An account without debt can always take its collateral
    out: in a reachable state, if the accrual of the call goes through and
    the pool holds the tokens, [withdrawCollateral(amount)] succeeds for
    every [0 < amount <= collateral], whether the pool is paused or not and
    whatever the price feeds answer (no price is read). *)
Theorem debt_free_withdrawal (env : Env) (amount : N) (w : World) (p1 : Pool) :
  reachable w ->
  _accrueInterest env (pool w) = Ok p1 ->
  borrowBase (account_of (pool w) (sender env)) = 0 ->
  0 < amount ->
  amount <= collateral (account_of (pool w) (sender env)) ->
  amount <= balanceOf (collateralToken w) (this (pool w)) ->
  exists w',
    exec env (WithdrawCollateral amount) w = Ok (VNone, w')
    /\ collateral (account_of (pool w') (sender env)) + amount
       = collateral (account_of (pool w) (sender env))
    /\ totalCollateral (pool w') + amount = totalCollateral (pool w).
Proof.
  intros Hreach Hacc Hbase Hpos Hle Hbal.
  pose proof (reachable_conserves w Hreach) as Hsum.
  pose proof (collateral_le_sum (accounts (pool w)) (sender env)) as Hpart.
  fold (account_of (pool w) (sender env)) in Hpart. rewrite <- Hsum in Hpart.
  assert (Htotal : amount <= totalCollateral (pool w)) by lia.
  destruct (withdraw_without_debt env amount w p1 Hacc Hbase Hpos Hle Htotal
              Hbal) as (tok & _ & Hexec).
  eexists. split; [exact Hexec |]. cbn [pool].
  rewrite account_of_set_account_eq_total.
  cbn [collateral set_collateral totalCollateral set_totalCollateral].
  split; lia.
Qed.

Lemma reachable_frozen : reachable Exits.frozen.
Proof.
  unfold Exits.frozen, Scenario.deposited.
  repeat apply reachable_run. apply reachable_genesis.
Qed.

Lemma debt_free_withdrawal_witness :
  exists w',
    exec (Exits.dark 2) (WithdrawCollateral 400000) Exits.frozen
    = Ok (VNone, w')
    /\ collateral (account_of (pool w') 2) + 400000
       = collateral (account_of (pool Exits.frozen) 2)
    /\ totalCollateral (pool w') + 400000
       = totalCollateral (pool Exits.frozen).
Proof.
  eapply (debt_free_withdrawal (Exits.dark 2) 400000 Exits.frozen).
  - exact reachable_frozen.
  - vm_compute. reflexivity.
  - vm_compute. reflexivity.
  - vm_compute. reflexivity.
  - apply N.leb_le. vm_compute. reflexivity.
  - apply N.leb_le. vm_compute. reflexivity.
Defined.

(** **** X14.  Deposit and withdrawal undo each other: after a successful
    [depositCollateral(amount)] by an account without debt, the same account
    can withdraw the same amount in the same block, whatever the price feeds
    answer by then, and this gives back the collateral balance, the total,
    and the token balances of the account and of the pool from before the
    deposit. *)
Theorem deposit_withdraw_round_trip (env env' : Env) (amount : N)
  (w w1 : World) (v : Value) :
  exec env (DepositCollateral amount) w = Ok (v, w1) ->
  borrowBase (account_of (pool w) (sender env)) = 0 ->
  sender env <> this (pool w) ->
  timestamp env' = timestamp env -> sender env' = sender env ->
  exists w2,
    exec env' (WithdrawCollateral amount) w1 = Ok (VNone, w2)
    /\ account_of (pool w2) (sender env) = account_of (pool w) (sender env)
    /\ totalCollateral (pool w2) = totalCollateral (pool w)
    /\ balanceOf (collateralToken w2) (sender env)
       = balanceOf (collateralToken w) (sender env)
    /\ balanceOf (collateralToken w2) (this (pool w))
       = balanceOf (collateralToken w) (this (pool w)).
Proof.
  intros Hdep Hbase Hself Ht Hs.
  cbn [exec] in Hdep. unfold silently, depositCollateral in Hdep.
  apply bind_inv in Hdep. destruct Hdep as (w1' & Hdep & Hw).
  injection Hw as _ <-.
  apply bind_inv in Hdep. destruct Hdep as (u1 & _ & Hdep).
  apply bind_inv in Hdep. destruct Hdep as (u2 & Hpos & Hdep).
  apply bind_inv in Hdep. destruct Hdep as (p1 & Hacc & Hdep).
  apply bind_inv in Hdep. destruct Hdep as (c & Hc & Hdep).
  apply bind_inv in Hdep. destruct Hdep as (tc & Htc & Hdep).
  apply bind_inv in Hdep. destruct Hdep as (tok & Htok & Hdep).
  injection Hdep as <-.
  apply require_inv in Hpos. apply N.ltb_lt in Hpos.
  apply accrue_shape in Hacc. destruct Hacc as (tb & bi & -> & _ & _).
  apply add_inv in Hc, Htc. destruct Hc as [-> _]. destruct Htc as [-> _].
  cbn [totalCollateral this set_account set_accounts set_lastAccrual
       set_borrowIndex set_totalBorrows set_totalCollateral] in *.
  change (account_of (set_lastAccrual (timestamp env)
            (set_borrowIndex bi (set_totalBorrows tb (pool w)))) (sender env))
    with (account_of (pool w) (sender env)) in *.
  apply safeTransferFrom_balances in Htok; [| exact Hself].
  destruct Htok as [Hin Hout].
  match goal with
  | |- context [exec env' _ ?w1] =>
      destruct (withdraw_without_debt env' amount w1
                  (set_lastAccrual (timestamp env') (pool w1)))
        as (tok2 & Htok2 & Hexec)
  end.
  - apply accrue_idle. left. cbn. exact Ht.
  - cbn [pool]. rewrite Hs, account_of_set_account_eq_total. exact Hbase.
  - exact Hpos.
  - cbn [pool]. rewrite Hs, account_of_set_account_eq_total. cbn. lia.
  - cbn. lia.
  - cbn [pool collateralToken this set_totalCollateral set_account
         set_accounts set_lastAccrual set_borrowIndex set_totalBorrows].
    lia.
  - eexists. split; [exact Hexec |].
    cbn [pool collateralToken this set_totalCollateral set_account
         set_accounts set_lastAccrual set_borrowIndex set_totalBorrows] in *.
    rewrite Hs in *. rewrite !account_of_set_account_eq_total in *.
    apply safeTransfer_balances in Htok2; [| congruence].
    destruct Htok2 as [Hback Hgone].
    split; [| split; [| split]].
    + destruct (account_of (pool w) (sender env)) as [c0 b0].
      cbn in *. unfold set_collateral. cbn. f_equal. lia.
    + cbn. lia.
    + lia.
    + lia.
Qed.

Lemma deposit_withdraw_round_trip_witness :
  exists w2,
    exec (Exits.dark 2) (WithdrawCollateral 250000)
      (fst (call (mkEnv 9999 2 (feeds (Scenario.env_at 1000 2)))
              (DepositCollateral 250000) Spec.funded))
    = Ok (VNone, w2)
    /\ account_of (pool w2) 2 = account_of (pool Spec.funded) 2
    /\ totalCollateral (pool w2) = totalCollateral (pool Spec.funded)
    /\ balanceOf (collateralToken w2) 2
       = balanceOf (collateralToken Spec.funded) 2
    /\ balanceOf (collateralToken w2) (this (pool Spec.funded))
       = balanceOf (collateralToken Spec.funded) (this (pool Spec.funded)).
Proof.
  apply (deposit_withdraw_round_trip
           (mkEnv 9999 2 (feeds (Scenario.env_at 1000 2))) (Exits.dark 2)
           250000 Spec.funded _ VNone).
  - vm_compute. reflexivity.
  - vm_compute. reflexivity.
  - vm_compute. discriminate.
  - reflexivity.
  - reflexivity.
Defined.

(** ** The pool reading the mock aggregator *)

(** **** X15.  How long an answer of the mock aggregator lives.  After
    [updateAnswer(a)] at time [t], a pool whose oracle address points to
    the aggregator reads the price [a * 1e18 / 10^decimals] at every time
    from [t] to [t + 3600] (for [a > 0], [t > 0] and values that fit in
    [uint256]); it refuses a non-positive answer with "Invalid price", and
    from [t + 3601] on it refuses the answer with "Stale price". *)
Theorem mock_answer_lifetime (env : Env) (oracle : address) (t : N) (a : Z)
  (m m' : MockV3Aggregator.State) :
  MockV3Aggregator.updateAnswer t a m = Ok m' ->
  feeds env !! oracle = Some (MockV3Aggregator.feed m') ->
  oracle <> 0 ->
  ((a <= 0)%Z -> _getScaledPrice env oracle = Revert InvalidPrice)
  /\ ((0 < a)%Z -> t + MAX_ORACLE_DELAY < timestamp env ->
      _getScaledPrice env oracle = Revert StalePrice)
  /\ ((0 < a)%Z -> t <> 0 -> t <= timestamp env ->
      timestamp env <= t + MAX_ORACLE_DELAY ->
      10 ^ MockV3Aggregator._decimals m <= MAX_UINT256 ->
      Z.to_N a * PRICE_PRECISION <= MAX_UINT256 ->
      _getScaledPrice env oracle
      = Ok (Z.to_N a * PRICE_PRECISION / 10 ^ MockV3Aggregator._decimals m)).
Proof.
  intros Hup Hfeed Hnz.
  unfold MockV3Aggregator.updateAnswer, MockV3Aggregator._updateAnswer in Hup.
  destruct (_ <=? _); [| discriminate Hup]. injection Hup as <-.
  unfold MockV3Aggregator.feed, MockV3Aggregator.latestRoundData,
    MockV3Aggregator.decimals in Hfeed.
  cbn in Hfeed.
  unfold _getScaledPrice. apply N.eqb_neq in Hnz. rewrite Hnz, Hfeed.
  cbn [negb require bind answer updatedAt feedDecimals].
  split; [| split].
  - intros Ha. apply Z.ltb_ge in Ha. rewrite Ha. reflexivity.
  - intros Ha Hlate. apply Z.ltb_lt in Ha. rewrite Ha. cbn [require bind].
    destruct (N.eqb_spec t 0) as [-> | Htnz]; [reflexivity |].
    rewrite sub_fits by lia. cbn [bind].
    assert (Hstale : (timestamp env - t <=? MAX_ORACLE_DELAY) = false)
      by (apply N.leb_gt; lia).
    rewrite Hstale. reflexivity.
  - intros Ha Htnz Hle Hfresh Hscale Hfit.
    apply Z.ltb_lt in Ha. rewrite Ha. cbn [require bind].
    apply N.eqb_neq in Htnz. rewrite Htnz.
    rewrite (sub_fits _ _ Hle). cbn [bind].
    assert (Hok : (timestamp env - t <=? MAX_ORACLE_DELAY) = true)
      by (apply N.leb_le; lia).
    rewrite Hok. cbn [require bind].
    unfold pow10. apply N.leb_le in Hscale. rewrite Hscale. cbn [bind].
    rewrite (mul_fits _ _ Hfit). cbn [bind]. unfold div.
    assert (Hpow : (10 ^ MockV3Aggregator._decimals m =? 0) = false).
    { apply N.eqb_neq. apply N.pow_nonzero. discriminate. }
    rewrite Hpow. reflexivity.
Qed.

Lemma mock_answer_lifetime_witness :
  _getScaledPrice (MockScenario.env_at 4600) 301 = Ok 3000000000000000000
  /\ _getScaledPrice (MockScenario.env_at 4601) 301 = Revert StalePrice.
Proof.
  assert (Hdep : MockScenario.deployed = Ok MockScenario.start)
    by reflexivity.
  assert (Hup : MockV3Aggregator.updateAnswer 1000 300000000
                  MockScenario.start = Ok MockScenario.updated)
    by reflexivity.
  split.
  - apply (proj2 (proj2 (mock_answer_lifetime (MockScenario.env_at 4600) 301
                           1000 300000000 MockScenario.start
                           MockScenario.updated Hup eq_refl
                           ltac:(discriminate)))).
    + reflexivity.
    + discriminate.
    + apply N.leb_le. vm_compute. reflexivity.
    + apply N.leb_le. vm_compute. reflexivity.
    + apply N.leb_le. vm_compute. reflexivity.
    + apply N.leb_le. vm_compute. reflexivity.
  - apply (proj1 (proj2 (mock_answer_lifetime (MockScenario.env_at 4601) 301
                           1000 300000000 MockScenario.start
                           MockScenario.updated Hup eq_refl
                           ltac:(discriminate)))).
    + reflexivity.
    + apply N.ltb_lt. vm_compute. reflexivity.
Defined.

(** * GuardianVault *)
Section Vault.
Import GuardianVault.
Local Open Scope vault_scope.

Lemma andThen_inv {A B : Type} (c : outcome A) (k : A -> outcome B) (b : B) :
  andThen c k = Done b -> exists a, c = Done a /\ k a = Done b.
Proof. destruct c as [a|e]; cbn; [eauto | discriminate]. Qed.

Lemma ensure_inv (b : bool) (e : Error) (u : unit) :
  ensure b e = Done u -> b = true.
Proof. destruct b; [reflexivity | discriminate]. Qed.

Lemma ensure_done (b : bool) (e : Error) :
  b = true -> ensure b e = Done tt.
Proof. intros ->; reflexivity. Qed.

Lemma hasRole_true (r : Role) (a : address) (v : Vault) :
  hasRole r a v = true <-> a ∈ members r v.
Proof. unfold hasRole. apply bool_decide_eq_true. Qed.

Lemma hasRole_false (r : Role) (a : address) (v : Vault) :
  hasRole r a v = false <-> a ∉ members r v.
Proof. unfold hasRole. apply bool_decide_eq_false. Qed.

Lemma size_add_member (a : N) (s : gset N) :
  a ∉ s -> N.of_nat (size ({[a]} ∪ s)) = N.of_nat (size s) + 1.
Proof.
  intros Ha. rewrite size_union by set_solver. rewrite size_singleton. lia.
Qed.

Lemma size_drop_member (a : N) (s : gset N) :
  a ∈ s ->
  1 <= N.of_nat (size s)
  /\ N.of_nat (size (s ∖ {[a]})) = N.of_nat (size s) - 1.
Proof.
  intros Ha. rewrite size_difference by set_solver. rewrite size_singleton.
  assert (size s <> 0%nat) as Hs.
  { intros Hz. apply size_empty_inv in Hz. set_solver. }
  lia.
Qed.


Lemma grantRole_cases (r : Role) (a : address) (v : Vault) (u : bool)
  (v' : Vault) :
  _grantRole r a v = Done (u, v') ->
  same_ledger v v'
  /\ approvalsRequired v' = approvalsRequired v
  /\ (forall r', members r' v'
        = if u && bool_decide (r' = r) then {[a]} ∪ members r' v
          else members r' v)
  /\ u = negb (hasRole r a v)
  /\ guardianCount v'
     = if is_guardian_role r && u then guardianCount v + 1
       else guardianCount v.
Proof.
  unfold _grantRole, super_grantRole, same_ledger.
  destruct (hasRole r a v) eqn:Hr.
  - rewrite andb_false_r. intros [= <- <-]. rewrite andb_false_r.
    repeat split; reflexivity.
  - destruct r; cbn [is_guardian_role andb].
    1,2: intros [= <- <-]; repeat split; try reflexivity;
         intros []; reflexivity.
    destruct (_ <=? _) eqn:E; [|discriminate].
    intros [= <- <-]. repeat split; try reflexivity.
    intros []; reflexivity.
Qed.

Lemma revokeRole_cases (r : Role) (a : address) (v : Vault) (u : bool)
  (v' : Vault) :
  _revokeRole r a v = Done (u, v') ->
  same_ledger v v'
  /\ (forall r', members r' v'
        = if u && bool_decide (r' = r) then members r' v ∖ {[a]}
          else members r' v)
  /\ u = hasRole r a v
  /\ (if is_guardian_role r && u
      then 1 <= guardianCount v
           /\ guardianCount v' = guardianCount v - 1
           /\ approvalsRequired v'
              = (if guardianCount v - 1 <? approvalsRequired v
                 then (guardianCount v - 1) mod 256
                 else approvalsRequired v)
      else guardianCount v' = guardianCount v
           /\ approvalsRequired v' = approvalsRequired v).
Proof.
  unfold _revokeRole, super_revokeRole, same_ledger.
  destruct (hasRole r a v) eqn:Hr.
  - destruct r; cbn [is_guardian_role andb].
    1,2: intros [= <- <-]; repeat split; try reflexivity;
         intros []; reflexivity.
    cbn [guardianCount set_members set_guardianCount approvalsRequired].
    destruct (1 <=? _) eqn:E; [|discriminate].
    apply N.leb_le in E.
    destruct (_ <? _) eqn:E'; intros [= <- <-];
      (repeat split; try reflexivity; try assumption;
       try (intros []; reflexivity)).
  - rewrite andb_false_r. intros [= <- <-]. rewrite andb_false_r.
    repeat split; reflexivity.
Qed.


Ltac vault_inv H :=
  repeat match type of H with
  | andThen (ensure _ _) _ = Done _ =>
      let u := fresh "u" in let Hc := fresh "Hc" in
      apply andThen_inv in H as (u & Hc & H);
      apply ensure_inv in Hc
  | andThen _ _ = Done _ =>
      let a := fresh "a" in let Hc := fresh "Hc" in
      apply andThen_inv in H as (a & Hc & H)
  | _ => progress cbv zeta in H
  end.

Lemma whenNotPaused_inv (v : Vault) (u : unit) :
  whenNotPaused v = Done u -> paused v = false.
Proof.
  unfold whenNotPaused. intros H%ensure_inv. now apply negb_true_iff in H.
Qed.

Lemma onlyRole_inv (r : Role) (env : Env) (v : Vault) (u : unit) :
  onlyRole r env v = Done u -> sender env ∈ members r v.
Proof. unfold onlyRole. intros H%ensure_inv. now apply hasRole_true. Qed.

Lemma activeRequest_inv (env : Env) (id : N) (v : Vault)
  (r : WithdrawalRequest) :
  _activeRequest env id v = Done r ->
  r = request_of v id /\ active env r.
Proof.
  unfold _activeRequest, _isInactive, active. intros H. vault_inv H.
  injection H as <-. split; [reflexivity|].
  apply N.ltb_lt in Hc. apply negb_true_iff, orb_false_iff in Hc0.
  destruct Hc0 as [He Hx]. repeat split; try assumption.
  intros Hd. apply N.eqb_neq in Hd. rewrite Hd in Hc1. cbn in Hc1.
  apply ensure_inv in Hc1. now apply N.leb_le.
Qed.

Lemma activeRequest_done (env : Env) (id : N) (v : Vault) :
  active env (request_of v id) ->
  _activeRequest env id v = Done (request_of v id).
Proof.
  unfold _activeRequest, _isInactive, active.
  intros (Ha & He & Hx & Hd).
  apply N.ltb_lt in Ha. rewrite Ha, He, Hx. cbn.
  destruct (deadline (request_of v id) =? 0) eqn:E; cbn; [reflexivity|].
  apply N.eqb_neq in E. apply Hd, N.leb_le in E. now rewrite E.
Qed.

Lemma createWithdrawal_inv (env : Env) (a t : address) (n d : N) (v : Vault)
  (id : N) (v' : Vault) :
  createWithdrawal env a t n d v = Done (id, v') ->
  paused v = false /\ sender env ∈ guardians v /\ t <> 0 /\ 0 < n
  /\ (d <> 0 -> timestamp env < d)
  /\ id = _nextRequestId v
  /\ v' = set_request id (mkRequest a t n d false false 0)
            (set_nextRequestId (id + 1) v).
Proof.
  unfold createWithdrawal. intros H. vault_inv H.
  apply whenNotPaused_inv in Hc. apply onlyRole_inv in Hc0.
  apply negb_true_iff, N.eqb_neq in Hc1. apply N.ltb_lt in Hc2.
  injection H as <- <-. repeat split; try assumption.
  intros Hd. apply N.eqb_neq in Hd. rewrite Hd in Hc3. cbn in Hc3.
  apply ensure_inv in Hc3. now apply N.ltb_lt.
Qed.

Lemma approveWithdrawal_inv (env : Env) (id : N) (v v' : Vault) :
  approveWithdrawal env id v = Done v' ->
  paused v = false /\ sender env ∈ guardians v
  /\ active env (request_of v id)
  /\ (sender env ∉ approvers_of v id)
  /\ approvals (request_of v id) + 1 <= MAX_UINT8
  /\ v' = set_request id
            (with_approvals (approvals (request_of v id) + 1)
               (request_of v id))
            (set_approvers id ({[sender env]} ∪ approvers_of v id) v).
Proof.
  unfold approveWithdrawal. intros H. vault_inv H.
  apply whenNotPaused_inv in Hc. apply onlyRole_inv in Hc0.
  apply activeRequest_inv in Hc1 as [-> Hact].
  apply negb_true_iff, bool_decide_eq_false in Hc2.
  apply N.leb_le in Hc3. injection H as <-.
  repeat split; try assumption; apply Hact.
Qed.

Lemma revokeApproval_inv (env : Env) (id : N) (v v' : Vault) :
  revokeApproval env id v = Done v' ->
  paused v = false /\ sender env ∈ guardians v
  /\ active env (request_of v id)
  /\ sender env ∈ approvers_of v id
  /\ 1 <= approvals (request_of v id)
  /\ v' = set_request id
            (with_approvals (approvals (request_of v id) - 1)
               (request_of v id))
            (set_approvers id (approvers_of v id ∖ {[sender env]}) v).
Proof.
  unfold revokeApproval. intros H. vault_inv H.
  apply whenNotPaused_inv in Hc. apply onlyRole_inv in Hc0.
  apply activeRequest_inv in Hc1 as [-> Hact].
  apply bool_decide_eq_true in Hc2.
  apply N.leb_le in Hc3. injection H as <-.
  repeat split; try assumption; apply Hact.
Qed.

Lemma transferEth_inv (env : Env) (t : address) (n : N) (v v' : Vault) :
  _transferEth env t n v = Done v' ->
  n <= balance v
  /\ ((t = self v /\ v' = v)
      \/ (t <> self v /\ accepts env t = true
          /\ v' = set_balance (balance v - n) v)).
Proof.
  unfold _transferEth. intros H. vault_inv H. apply N.leb_le in Hc.
  split; [assumption|].
  destruct (t =? self v) eqn:E.
  - apply N.eqb_eq in E. injection H as <-. now left.
  - apply N.eqb_neq in E. vault_inv H. injection H as <-. now right.
Qed.

Lemma transferToken_inv (a t : address) (n : N) (v v' : Vault) :
  _transferToken a t n v = Done v' ->
  exists ledger,
    assets v !! a = Some ledger
    /\ n <= default 0 (ledger !! self v)
    /\ v' = set_assets
              (<[a := <[t := default 0
                             (<[self v := default 0 (ledger !! self v) - n]>
                                ledger !! t) + n]>
                        (<[self v := default 0 (ledger !! self v) - n]>
                           ledger)]> (assets v)) v.
Proof.
  unfold _transferToken. intros H.
  destruct (assets v !! a) as [ledger|]; [|discriminate].
  vault_inv H. apply N.leb_le in Hc. injection H as <-.
  exists ledger. repeat split; assumption.
Qed.

Lemma executeWithdrawal_inv (env : Env) (id : N) (v v' : Vault) :
  executeWithdrawal env id v = Done v' ->
  paused v = false /\ sender env ∈ guardians v
  /\ active env (request_of v id)
  /\ approvalsRequired v <= approvals (request_of v id)
  /\ let r := request_of v id in
     let v1 := set_request id (with_executed r) v in
     if asset r =? 0
     then _transferEth env (to r) (amount r) v1 = Done v'
     else _transferToken (asset r) (to r) (amount r) v1 = Done v'.
Proof.
  unfold executeWithdrawal. intros H. vault_inv H.
  apply whenNotPaused_inv in Hc. apply onlyRole_inv in Hc0.
  apply activeRequest_inv in Hc1 as [-> Hact].
  apply N.leb_le in Hc2.
  repeat split; try assumption; try apply Hact.
  cbv zeta. destruct (asset (request_of v id) =? 0); exact H.
Qed.

Lemma cancelWithdrawal_inv (env : Env) (id : N) (v v' : Vault) :
  cancelWithdrawal env id v = Done v' ->
  sender env ∈ admins v
  /\ 0 < amount (request_of v id)
  /\ executed (request_of v id) = false
  /\ cancelled (request_of v id) = false
  /\ v' = set_request id (with_cancelled (request_of v id)) v.
Proof.
  unfold cancelWithdrawal, _isInactive. intros H. vault_inv H.
  apply onlyRole_inv in Hc. apply N.ltb_lt in Hc0.
  apply negb_true_iff, orb_false_iff in Hc1 as [He Hx].
  injection H as <-. repeat split; assumption.
Qed.


Lemma request_of_set_request (id id' : N) (r : WithdrawalRequest)
  (v : Vault) :
  request_of (set_request id r v) id'
  = if decide (id' = id) then r else request_of v id'.
Proof.
  unfold request_of. cbn. destruct (decide (id' = id)) as [->|Hne].
  - now rewrite lookup_insert_eq.
  - now rewrite lookup_insert_ne by congruence.
Qed.

Lemma approvers_of_set_approvers (id id' : N) (s : gset N) (v : Vault) :
  approvers_of (set_approvers id s v) id'
  = if decide (id' = id) then s else approvers_of v id'.
Proof.
  unfold approvers_of. cbn. destruct (decide (id' = id)) as [->|Hne].
  - now rewrite lookup_insert_eq.
  - now rewrite lookup_insert_ne by congruence.
Qed.

Lemma approvers_of_set_request (id id' : N) (r : WithdrawalRequest)
  (v : Vault) :
  approvers_of (set_request id r v) id' = approvers_of v id'.
Proof. reflexivity. Qed.

Lemma request_of_set_approvers (id id' : N) (s : gset N) (v : Vault) :
  request_of (set_approvers id s v) id' = request_of v id'.
Proof. reflexivity. Qed.

Lemma request_stored (v : Vault) (id : N) :
  0 < amount (request_of v id) ->
  _withdrawals v !! id = Some (request_of v id).
Proof.
  unfold request_of. destruct (_withdrawals v !! id); cbn; [reflexivity|lia].
Qed.

Lemma no_stale_approvals (v : Vault) (id : N) :
  well_formed v -> _nextRequestId v <= id -> approvers_of v id = ∅.
Proof.
  intros Hwf Hid. unfold approvers_of.
  destruct (_approvals v !! id) as [s|] eqn:E; [|reflexivity].
  apply (wf_approvers _ Hwf) in E. lia.
Qed.

Lemma well_formed_roles (v v' : Vault) :
  same_ledger v v' ->
  guardianCount v' = N.of_nat (size (guardians v')) ->
  approvalsRequired v' <= guardianCount v' ->
  approvalsRequired v' <= MAX_UINT8 ->
  well_formed v -> well_formed v'.
Proof.
  intros (_ & _ & Hn & Hw & Ha & _ & _) Hc Ht Hu Hwf.
  constructor; try assumption.
  - rewrite Hn. apply (wf_next _ Hwf).
  - intros id r. rewrite Hw, Hn. unfold approvers_of. rewrite Ha.
    apply (wf_requests _ Hwf).
  - intros id s. rewrite Ha, Hn. apply (wf_approvers _ Hwf).
Qed.

Lemma grantRole_well_formed (r : Role) (a : address) (v : Vault) (u : bool)
  (v' : Vault) :
  well_formed v -> _grantRole r a v = Done (u, v') -> well_formed v'.
Proof.
  intros Hwf H. apply grantRole_cases in H as (Hl & Ht & Hm & Hu & Hc).
  pose proof (wf_count _ Hwf). pose proof (wf_threshold _ Hwf).
  pose proof (wf_uint8 _ Hwf).
  apply (well_formed_roles v); try assumption; try lia.
  - specialize (Hm GUARDIAN_ROLE). cbn [members] in Hm. rewrite Hc, Hm.
    destruct r; case_bool_decide; try discriminate; try congruence;
      rewrite ?andb_false_r; cbn [is_guardian_role andb]; try assumption.
    destruct u; cbn; [|assumption].
    symmetry in Hu. apply negb_true_iff, hasRole_false in Hu.
    cbn [members] in Hu. rewrite size_add_member by assumption. lia.
  - rewrite Ht, Hc. destruct (_ && _); lia.
Qed.

Lemma revokeRole_well_formed (r : Role) (a : address) (v : Vault) (u : bool)
  (v' : Vault) :
  well_formed v -> _revokeRole r a v = Done (u, v') -> well_formed v'.
Proof.
  intros Hwf H. apply revokeRole_cases in H as (Hl & Hm & Hu & Hc).
  pose proof (wf_count _ Hwf) as Hn. pose proof (wf_threshold _ Hwf).
  pose proof (wf_uint8 _ Hwf) as H8. unfold MAX_UINT8 in H8.
  specialize (Hm GUARDIAN_ROLE). cbn [members] in Hm.
  destruct (is_guardian_role r && u) eqn:E.
  - apply andb_true_iff in E as [Er ->]. destruct r; try discriminate.
    rewrite bool_decide_eq_true_2 in Hm by reflexivity. cbn in Hm.
    symmetry in Hu. apply hasRole_true in Hu. cbn [members] in Hu.
    destruct (size_drop_member _ _ Hu) as [H1 H2].
    destruct Hc as (Hge & Hc & Ht).
    assert (approvalsRequired v' <= guardianCount v - 1
            /\ approvalsRequired v' <= 255) as [Ht1 Ht2].
    { rewrite Ht. destruct (_ <? _) eqn:E; [apply N.ltb_lt in E|
                                            apply N.ltb_ge in E].
      - rewrite N.mod_small by lia. lia.
      - lia. }
    apply (well_formed_roles v); try assumption.
    + rewrite Hc, Hm, H2. lia.
    + lia.
  - destruct Hc as [Hc Ht].
    apply (well_formed_roles v); try assumption; try (unfold MAX_UINT8; lia).
    rewrite Hc, Hm, Hn.
    destruct u; [|now rewrite andb_false_l].
    destruct r; try discriminate; case_bool_decide; try discriminate;
      try congruence; reflexivity.
Qed.


Lemma grantGuardians_inv (rest : list address) :
  forall (seen : list address) (v v' : Vault),
    grantGuardians seen rest v = Done v' ->
    NoDup rest
    /\ (forall g, g ∈ rest -> g <> 0 /\ g ∉ seen)
    /\ guardians v' = list_to_set rest ∪ guardians v
    /\ admins v' = admins v /\ pausers v' = pausers v
    /\ same_ledger v v'
    /\ approvalsRequired v' = approvalsRequired v
    /\ (guardianCount v = N.of_nat (size (guardians v)) ->
        guardianCount v' = N.of_nat (size (guardians v'))).
Proof.
  induction rest as [|g rest IH]; intros seen v v' H.
  - injection H as <-. unfold same_ledger.
    split; [constructor|]. split; [intros g Hg; inversion Hg|].
    split; [cbn; apply set_eq; intros x; set_unfold; tauto|].
    repeat split; auto.
  - cbn [grantGuardians] in H. vault_inv H.
    destruct a as [upd v1].
    apply negb_true_iff, N.eqb_neq in Hc.
    assert (g ∉ seen) as Hseen.
    { intros Hin. rewrite forallb_forall in Hc0.
      apply list_elem_of_In, Hc0 in Hin. rewrite N.eqb_refl in Hin.
      discriminate. }
    apply grantRole_cases in Hc1 as (Hl & Ht & Hm & Hu & Hn).
    apply IH in H as (Hnd & Hall & Hg & Had & Hpa & Hl' & Ht' & Hcount).
    pose proof (Hm GUARDIAN_ROLE) as Hmg.
    pose proof (Hm DEFAULT_ADMIN_ROLE) as Hma.
    pose proof (Hm PAUSER_ROLE) as Hmp.
    cbn [members] in Hmg, Hma, Hmp.
    rewrite bool_decide_eq_true_2 in Hmg by reflexivity.
    rewrite bool_decide_eq_false_2, andb_false_r in Hma by discriminate.
    rewrite bool_decide_eq_false_2, andb_false_r in Hmp by discriminate.
    rewrite andb_true_r in Hmg. cbn [is_guardian_role andb] in Hn.
    assert (guardians v1 = {[g]} ∪ guardians v) as Hg1.
    { rewrite Hmg. destruct upd; [reflexivity|].
      symmetry in Hu. apply negb_false_iff, hasRole_true in Hu.
      cbn [members] in Hu. apply set_eq. intros x. set_unfold.
      intuition congruence. }
    split.
    { constructor; [|assumption].
      intros Hin. apply Hall in Hin as [_ Hin]. clear -Hin. set_solver. }
    split.
    { intros g' [->|Hin]%elem_of_cons; [now split|].
      apply Hall in Hin as [Hz Hin]. split; [assumption|clear -Hin; set_solver]. }
    split; [rewrite Hg, Hg1; cbn; apply set_eq; intros x; set_unfold; tauto|].
    split; [congruence|]. split; [congruence|].
    split; [unfold same_ledger in *; intuition congruence|].
    split; [congruence|].
    { intros Hcv. apply Hcount. rewrite Hn, Hmg.
      destruct upd; [|assumption].
      symmetry in Hu. apply negb_true_iff, hasRole_false in Hu.
      cbn [members] in Hu. rewrite size_add_member by assumption. lia. }
Qed.


Lemma constructor_inv (env : Env) (this : address) (gs : list address)
  (threshold : N) (pauser : address) (v : Vault) :
  constructor env this gs threshold pauser = Done v ->
  (0 < threshold /\ threshold <= N.of_nat (length gs))
  /\ NoDup gs /\ (forall g, g ∈ gs -> g <> 0)
  /\ guardians v = list_to_set gs ∪ {[sender env]}
  /\ guardianCount v = N.of_nat (size (guardians v))
  /\ admins v = {[sender env]}
  /\ pausers v = {[if pauser =? 0 then sender env else pauser]}
  /\ approvalsRequired v = threshold
  /\ self v = this /\ balance v = 0 /\ paused v = false
  /\ _nextRequestId v = 1 /\ _withdrawals v = ∅ /\ _approvals v = ∅
  /\ assets v = ∅.
Proof.
  unfold constructor. intros H. vault_inv H.
  apply andb_true_iff in Hc0 as [Ht1 Ht2].
  apply N.ltb_lt in Ht1. apply N.leb_le in Ht2.
  destruct a as [u1 v1]. vault_inv H. rename Hc0 into Hc2.
  destruct a as [u2 v2]. vault_inv H. rename Hc0 into Hc3, a into v3.
  apply grantRole_cases in Hc1 as (Hl1 & Hr1 & Hm1 & Hu1 & Hn1).
  assert (exists p, p = (if pauser =? 0 then sender env else pauser)
                    /\ _grantRole PAUSER_ROLE p v1 = Done (u2, v2))
    as (p & Hp & Hc2').
  { destruct (pauser =? 0); cbn in Hc2; eauto. }
  clear Hc Hc2.
  apply grantRole_cases in Hc2' as (Hl2 & Hr2 & Hm2 & Hu2 & Hn2).
  apply grantGuardians_inv in Hc3
    as (Hnd & Hall & Hg3 & Ha3 & Hp3 & Hl3 & Hr3 & Hn3).
  cbn [is_guardian_role andb] in Hn1, Hn2.
  pose proof (Hm1 GUARDIAN_ROLE) as Hg1. pose proof (Hm2 GUARDIAN_ROLE) as Hg2.
  pose proof (Hm1 DEFAULT_ADMIN_ROLE) as Ha1.
  pose proof (Hm2 DEFAULT_ADMIN_ROLE) as Ha2.
  pose proof (Hm1 PAUSER_ROLE) as Hp1. pose proof (Hm2 PAUSER_ROLE) as Hp2.
  clear Hm1 Hm2. cbn [members] in *.
  rewrite bool_decide_eq_false_2, andb_false_r in Hg1, Hg2, Ha2, Hp1
    by discriminate.
  rewrite bool_decide_eq_true_2, andb_true_r in Ha1, Hp2 by reflexivity.
  cbn [guardians admins pausers guardianCount] in Hg1, Ha1, Hp1, Hn1.
  assert (u1 = true) as -> by (rewrite Hu1; reflexivity).
  assert (u2 = true) as ->.
  { rewrite Hu2. apply negb_true_iff, hasRole_false. cbn [members].
    rewrite Hp1. apply not_elem_of_empty. }
  assert (guardians v3 = list_to_set gs) as Hg3'.
  { rewrite Hg3, Hg2, Hg1. apply set_eq. intros x. set_unfold. tauto. }
  assert (guardianCount v3 = N.of_nat (size (guardians v3))) as Hn3'.
  { apply Hn3. rewrite Hn2, Hn1, Hg2, Hg1. reflexivity. }
  assert (admins v3 = {[sender env]}) as Ha3'.
  { rewrite Ha3, Ha2, Ha1. apply set_eq. intros x. set_unfold. tauto. }
  assert (pausers v3 = {[p]}) as Hp3'.
  { rewrite Hp3, Hp2, Hp1. apply set_eq. intros x. set_unfold. tauto. }
  assert (approvalsRequired v3 = threshold) as Hr3'.
  { rewrite Hr3, Hr2, Hr1. reflexivity. }
  assert (same_ledger (mkVault this 0 threshold 0 1 ∅ ∅ false ∅ ∅ ∅ ∅) v3)
    as (Hs & Hb & Hx & Hw & Hap & Hpz & Has).
  { unfold same_ledger in *. cbn in *. intuition congruence. }
  cbn in Hs, Hb, Hx, Hw, Hap, Hpz, Has.
  split; [split; assumption|]. split; [assumption|].
  split; [intros g Hg; now apply Hall in Hg|].
  destruct (hasRole GUARDIAN_ROLE (sender env) v3) eqn:Hh; cbn in H.
  - injection H as <-. apply hasRole_true in Hh. cbn [members] in Hh.
    rewrite <- Hp. repeat split; try assumption.
    rewrite Hg3'. rewrite Hg3' in Hh. apply set_eq. intros x. set_unfold.
    intuition congruence.
  - vault_inv H. destruct a as [u4 v4]. injection H as <-.
    apply grantRole_cases in Hc as (Hl4 & Hr4 & Hm4 & Hu4 & Hn4).
    rewrite Hh in Hu4. cbn in Hu4. subst u4.
    cbn [is_guardian_role andb] in Hn4.
    pose proof (Hm4 GUARDIAN_ROLE) as Hg4.
    pose proof (Hm4 DEFAULT_ADMIN_ROLE) as Ha4.
    pose proof (Hm4 PAUSER_ROLE) as Hp4. clear Hm4. cbn [members] in *.
    rewrite bool_decide_eq_false_2 in Ha4, Hp4 by discriminate.
    rewrite bool_decide_eq_true_2 in Hg4 by reflexivity. cbn in Ha4, Hp4, Hg4.
    apply hasRole_false in Hh. cbn [members] in Hh.
    destruct Hl4 as (Hs4 & Hb4 & Hx4 & Hw4 & Hap4 & Hpz4 & Has4).
    rewrite <- Hp. repeat split; try congruence.
    + rewrite Hg4, Hg3'. apply set_eq. intros x. set_unfold. tauto.
    + rewrite Hn4, Hg4, Hn3'. rewrite size_add_member by assumption. lia.
Qed.

Lemma constructor_well_formed (env : Env) (this : address)
  (gs : list address) (threshold : N) (pauser : address) (v : Vault) :
  threshold <= MAX_UINT8 ->
  constructor env this gs threshold pauser = Done v ->
  well_formed v.
Proof.
  intros H8 H. apply constructor_inv in H
    as ([Ht1 Ht2] & Hnd & _ & Hg & Hn & _ & _ & Hr & _ & _ & _ & Hx & Hw
        & Ha & _).
  constructor.
  - assumption.
  - rewrite Hr, Hn, Hg.
    assert (size (list_to_set gs : gset N) <= size (list_to_set gs ∪ {[sender env]} : gset N))%nat.
    { apply subseteq_size. apply union_subseteq_l. }
    rewrite size_list_to_set in H by assumption. lia.
  - now rewrite Hr.
  - rewrite Hx. lia.
  - intros id r. rewrite Hw, lookup_empty. discriminate.
  - intros id s. rewrite Ha, lookup_empty. discriminate.
Qed.


Lemma well_formed_touch (v v' : Vault) (id : N) (r : WithdrawalRequest)
  (s : gset N) :
  well_formed v ->
  guardianCount v' = guardianCount v -> guardians v' = guardians v ->
  approvalsRequired v' = approvalsRequired v ->
  _nextRequestId v' = _nextRequestId v ->
  _withdrawals v' = <[id := r]> (_withdrawals v) ->
  (_approvals v' = <[id := s]> (_approvals v)
   \/ (_approvals v' = _approvals v /\ s = approvers_of v id)) ->
  0 < amount (request_of v id) ->
  0 < amount r -> approvals r = N.of_nat (size s) ->
  well_formed v'.
Proof.
  intros Hwf Hc Hg Ht Hn Hw Ha Hold Hr Hs.
  apply request_stored, (wf_requests _ Hwf) in Hold as (H1 & H2 & _).
  assert (approvers_of v' id = s) as Hid.
  { unfold approvers_of. destruct Ha as [-> | [-> ->]]; [|reflexivity].
    now rewrite lookup_insert_eq. }
  assert (forall id', id' <> id -> approvers_of v' id' = approvers_of v id')
    as Hother.
  { intros id' Hne. unfold approvers_of.
    destruct Ha as [-> | [-> _]]; [|reflexivity].
    now rewrite lookup_insert_ne by congruence. }
  constructor.
  - rewrite Hc, Hg. apply (wf_count _ Hwf).
  - rewrite Ht, Hc. apply (wf_threshold _ Hwf).
  - rewrite Ht. apply (wf_uint8 _ Hwf).
  - rewrite Hn. apply (wf_next _ Hwf).
  - intros id' r'. rewrite Hw, Hn.
    destruct (decide (id' = id)) as [->|Hne].
    + rewrite lookup_insert_eq. intros [= <-]. rewrite Hid. auto.
    + rewrite lookup_insert_ne by congruence. rewrite Hother by assumption.
      apply (wf_requests _ Hwf).
  - intros id' s'. rewrite Hn. destruct Ha as [-> | [-> _]].
    + destruct (decide (id' = id)) as [->|Hne].
      * intros _. assumption.
      * rewrite lookup_insert_ne by congruence. apply (wf_approvers _ Hwf).
    + apply (wf_approvers _ Hwf).
Qed.

Lemma well_formed_ext (v v' : Vault) :
  guardianCount v' = guardianCount v -> guardians v' = guardians v ->
  approvalsRequired v' = approvalsRequired v ->
  _nextRequestId v' = _nextRequestId v ->
  _withdrawals v' = _withdrawals v -> _approvals v' = _approvals v ->
  well_formed v -> well_formed v'.
Proof.
  intros Hc Hg Ht Hn Hw Ha Hwf. constructor.
  - rewrite Hc, Hg. apply (wf_count _ Hwf).
  - rewrite Ht, Hc. apply (wf_threshold _ Hwf).
  - rewrite Ht. apply (wf_uint8 _ Hwf).
  - rewrite Hn. apply (wf_next _ Hwf).
  - intros id r. rewrite Hw, Hn. unfold approvers_of. rewrite Ha.
    apply (wf_requests _ Hwf).
  - intros id s. rewrite Ha, Hn. apply (wf_approvers _ Hwf).
Qed.

Lemma createWithdrawal_well_formed (env : Env) (a t : address) (n d : N)
  (v : Vault) (id : N) (v' : Vault) :
  well_formed v -> createWithdrawal env a t n d v = Done (id, v') ->
  well_formed v'.
Proof.
  intros Hwf H.
  apply createWithdrawal_inv in H as (_ & _ & _ & Hn & _ & -> & ->).
  pose proof (wf_next _ Hwf) as Hnext.
  constructor; cbn.
  - apply (wf_count _ Hwf).
  - apply (wf_threshold _ Hwf).
  - apply (wf_uint8 _ Hwf).
  - lia.
  - intros id r. unfold approvers_of. cbn.
    destruct (decide (id = _nextRequestId v)) as [->|Hne].
    + rewrite lookup_insert_eq. intros [= <-]. cbn.
      pose proof (no_stale_approvals v (_nextRequestId v) Hwf
                    (N.le_refl _)) as Hs.
      unfold approvers_of in Hs. rewrite Hs.
      repeat split; lia.
    + rewrite lookup_insert_ne by congruence. intros Hr.
      apply (wf_requests _ Hwf) in Hr as (H1 & H2 & H3 & H4).
      repeat split; try lia; exact H4.
  - intros id s Hs. apply (wf_approvers _ Hwf) in Hs. lia.
Qed.

Lemma exec_well_formed (env : Env) (op : Op) (v : Vault) (x : option N)
  (v' : Vault) :
  well_formed v -> well_typed op = true ->
  exec env op v = Done (x, v') -> well_formed v'.
Proof.
  intros Hwf Hty H.
  destruct op as [value|value|a t n d|i|i|i|i| | |n|r a|r a|r a];
    cbn [exec] in H; vault_inv H; try (injection H as <- <-).
  - (* receive *)
    injection Hc as <-. now apply (well_formed_ext v).
  - (* deposit *)
    unfold deposit in Hc. vault_inv Hc. injection Hc as <-.
    now apply (well_formed_ext v).
  - (* createWithdrawal *)
    destruct a0 as [id v1]. injection H as <- <-.
    eapply createWithdrawal_well_formed; eassumption.
  - (* approveWithdrawal *)
    apply approveWithdrawal_inv in Hc
      as (_ & _ & (Ham & _) & Hnew & _ & ->).
    pose proof (request_stored _ _ Ham) as Hst.
    apply (wf_requests _ Hwf) in Hst as (_ & _ & _ & Hk).
    eapply (well_formed_touch v); try reflexivity; try eassumption.
    + left. reflexivity.
    + cbn. rewrite size_add_member by assumption. lia.
  - (* revokeApproval *)
    apply revokeApproval_inv in Hc
      as (_ & _ & (Ham & _) & Hold & _ & ->).
    pose proof (request_stored _ _ Ham) as Hst.
    apply (wf_requests _ Hwf) in Hst as (_ & _ & _ & Hk).
    destruct (size_drop_member _ _ Hold) as [_ Hsz].
    eapply (well_formed_touch v); try reflexivity; try eassumption.
    + left. reflexivity.
    + cbn. rewrite Hsz. lia.
  - (* executeWithdrawal *)
    apply executeWithdrawal_inv in Hc as (_ & _ & (Ham & _) & _ & Hx).
    cbv zeta in Hx.
    pose proof (request_stored _ _ Ham) as Hst.
    apply (wf_requests _ Hwf) in Hst as (_ & _ & _ & Hk).
    assert (well_formed
              (set_request i (with_executed (request_of v i)) v)) as Hwf1.
    { eapply (well_formed_touch v); try reflexivity; try eassumption.
      right. split; reflexivity. }
    destruct (asset (request_of v i) =? 0).
    + apply transferEth_inv in Hx as [_ [[_ ->] | (_ & _ & ->)]];
        [assumption|].
      revert Hwf1. now apply well_formed_ext.
    + apply transferToken_inv in Hx as (ledger & _ & _ & ->).
      revert Hwf1. now apply well_formed_ext.
  - (* cancelWithdrawal *)
    apply cancelWithdrawal_inv in Hc as (_ & Ham & _ & _ & ->).
    pose proof (request_stored _ _ Ham) as Hst.
    apply (wf_requests _ Hwf) in Hst as (_ & _ & _ & Hk).
    eapply (well_formed_touch v); try reflexivity; try eassumption.
    right. split; reflexivity.
  - (* pause *)
    unfold pause in Hc. vault_inv Hc. injection Hc as <-.
    now apply (well_formed_ext v).
  - (* unpause *)
    unfold unpause in Hc. vault_inv Hc. injection Hc as <-.
    now apply (well_formed_ext v).
  - (* setApprovalsRequired *)
    unfold setApprovalsRequired in Hc. vault_inv Hc. injection Hc as <-.
    apply N.leb_le in Hc2. cbn in Hty. apply N.leb_le in Hty.
    apply (well_formed_roles v); try assumption; try apply Hwf.
    unfold same_ledger. cbn. repeat split.
  - (* grantRole *)
    unfold grantRole in Hc. vault_inv Hc. destruct a2 as [u1 v1].
    injection Hc as <-. eapply grantRole_well_formed; eassumption.
  - (* revokeRole *)
    unfold revokeRole in Hc. vault_inv Hc. destruct a2 as [u1 v1].
    injection Hc as <-. eapply revokeRole_well_formed; eassumption.
  - (* renounceRole *)
    unfold renounceRole in Hc. vault_inv Hc. destruct a1 as [u1 v1].
    injection Hc as <-. eapply revokeRole_well_formed; eassumption.
Qed.

Lemma call_well_formed (env : Env) (op : Op) (v : Vault) :
  well_formed v -> well_typed op = true -> well_formed (call env op v).
Proof.
  intros Hwf Hty. unfold call.
  destruct (exec env op v) as [[x v']|e] eqn:E; [|assumption].
  eapply exec_well_formed; eassumption.
Qed.

Lemma reachable_well_formed (v : Vault) : reachable v -> well_formed v.
Proof.
  induction 1.
  - eapply constructor_well_formed; eassumption.
  - now apply call_well_formed.
  - revert IHreachable. now apply well_formed_ext.
Qed.


Lemma run_well_formed (calls : list (Env * Op)) :
  forall v, well_formed v ->
    Forall (fun c => well_typed (snd c) = true) calls ->
    well_formed (run calls v).
Proof.
  induction calls as [|[env op] calls IH]; intros v Hwf Hty; [assumption|].
  inversion Hty as [|? ? Hop Hrest]; subst. cbn [run]. apply IH; [|assumption].
  now apply call_well_formed.
Qed.

Lemma reachable_vault_run (calls : list (Env * Op)) :
  forall v, reachable v ->
    Forall (fun c => well_typed (snd c) = true) calls ->
    reachable (run calls v).
Proof.
  induction calls as [|[env op] calls IH]; intros v Hr Hty; [assumption|].
  inversion Hty as [|? ? Hop Hrest]; subst. cbn [run]. apply IH; [|assumption].
  now apply reachable_call.
Qed.

Lemma reachable_vault_deployed : reachable VaultScenario.deployed.
Proof.
  apply (reachable_constructor (VaultScenario.at_ 1000 10) 500 [11; 12; 13]
           2 0).
  - unfold MAX_UINT8. lia.
  - vm_compute. reflexivity.
Qed.

Lemma reachable_vault_requested : reachable VaultScenario.requested.
Proof.
  apply reachable_vault_run; [apply reachable_vault_deployed|].
  repeat constructor.
Qed.

Lemma reachable_vault_approved : reachable VaultScenario.approved.
Proof.
  apply reachable_vault_run; [apply reachable_vault_requested|].
  repeat constructor.
Qed.

Lemma reachable_vault_paid : reachable VaultScenario.paid.
Proof.
  apply reachable_call; [reflexivity | apply reachable_vault_approved].
Qed.

(** **** X16.  GuardianVault bookkeeping.  In every state reachable from the
    constructor the guardian counter is the number of holders of the
    guardian role, and the approval requirement fits in eight bits and
    never exceeds that number: a requirement that no set of guardians could
    meet does not arise. *)
Theorem vault_requirement_attainable (v : Vault) :
  reachable v ->
  guardianCount v = N.of_nat (size (guardians v))
  /\ approvalsRequired v <= guardianCount v
  /\ approvalsRequired v <= MAX_UINT8.
Proof.
  intros Hr. apply reachable_well_formed in Hr.
  repeat split; apply Hr.
Qed.

Lemma vault_requirement_attainable_witness :
  guardianCount VaultScenario.approved
  = N.of_nat (size (guardians VaultScenario.approved))
  /\ approvalsRequired VaultScenario.approved
     <= guardianCount VaultScenario.approved
  /\ approvalsRequired VaultScenario.approved <= MAX_UINT8.
Proof.
  apply vault_requirement_attainable. apply reachable_vault_approved.
Defined.

Lemma reachable_vault_last_guardian : reachable VaultScenario.last_guardian.
Proof.
  apply reachable_vault_run; [apply reachable_vault_requested|].
  repeat constructor.
Qed.

(** How a call changes the approval requirement. *)
Lemma exec_requirement (env : Env) (op : Op) (v : Vault) (x : option N)
  (v' : Vault) :
  exec env op v = Done (x, v') ->
  approvalsRequired v' = approvalsRequired v
  \/ (exists n, op = SetApprovalsRequired n /\ 0 < n
                /\ approvalsRequired v' = n)
  \/ (exists a,
        (op = RevokeRole GUARDIAN_ROLE a \/ op = RenounceRole GUARDIAN_ROLE a)
        /\ a ∈ guardians v /\ 1 <= guardianCount v
        /\ guardianCount v' = guardianCount v - 1
        /\ approvalsRequired v'
           = (if guardianCount v - 1 <? approvalsRequired v
              then (guardianCount v - 1) mod 256
              else approvalsRequired v)).
Proof.
  intros H.
  destruct op as [value|value|a t n d|i|i|i|i| | |n|r a|r a|r a];
    cbn [exec] in H; vault_inv H; try (injection H as <- <-).
  - injection Hc as <-. now left.
  - unfold deposit in Hc. vault_inv Hc. injection Hc as <-. now left.
  - destruct a0 as [id v1]. injection H as <- <-.
    apply createWithdrawal_inv in Hc as (_ & _ & _ & _ & _ & _ & ->).
    now left.
  - apply approveWithdrawal_inv in Hc as (_ & _ & _ & _ & _ & ->). now left.
  - apply revokeApproval_inv in Hc as (_ & _ & _ & _ & _ & ->). now left.
  - apply executeWithdrawal_inv in Hc as (_ & _ & _ & _ & Hx).
    cbv zeta in Hx. left. destruct (asset (request_of v i) =? 0).
    + apply transferEth_inv in Hx as [_ [[_ ->] | (_ & _ & ->)]];
        reflexivity.
    + apply transferToken_inv in Hx as (ledger & _ & _ & ->). reflexivity.
  - apply cancelWithdrawal_inv in Hc as (_ & _ & _ & _ & ->). now left.
  - unfold pause in Hc. vault_inv Hc. injection Hc as <-. now left.
  - unfold unpause in Hc. vault_inv Hc. injection Hc as <-. now left.
  - unfold setApprovalsRequired in Hc. vault_inv Hc. injection Hc as <-.
    right. left. exists n. apply N.ltb_lt in Hc1. auto.
  - unfold grantRole in Hc. vault_inv Hc. destruct a2 as [u1 v1].
    injection Hc as <-. apply grantRole_cases in Hc1 as (_ & Ht & _).
    now left.
  - unfold revokeRole in Hc. vault_inv Hc. destruct a2 as [u1 v1].
    injection Hc as <-.
    apply revokeRole_cases in Hc1 as (_ & _ & Hu & Hcase).
    destruct r, u1; cbn [is_guardian_role andb] in Hcase;
      try (left; apply Hcase).
    right. right. exists a. symmetry in Hu. apply hasRole_true in Hu.
    cbn [members] in Hu. intuition.
  - unfold renounceRole in Hc. vault_inv Hc. destruct a1 as [u1 v1].
    injection Hc as <-. apply N.eqb_eq in Hc0.
    apply revokeRole_cases in Hc1 as (_ & _ & Hu & Hcase).
    destruct r, u1; cbn [is_guardian_role andb] in Hcase;
      try (left; apply Hcase).
    right. right. exists a. symmetry in Hu. apply hasRole_true in Hu.
    cbn [members] in Hu. intuition.
Qed.

(** **** X17.  GuardianVault, [_revokeRole].  A positive approval requirement
    falls to zero in one case only: the call removes the last guardian (by
    [revokeRole] or [renounceRole] of the guardian role).  No other call,
    [setApprovalsRequired] included, brings it to zero. *)
Theorem requirement_zero_only_without_guardians (env : Env) (op : Op)
  (v : Vault) :
  reachable v ->
  0 < approvalsRequired v ->
  approvalsRequired (call env op v) = 0 ->
  guardianCount v = 1 /\ guardianCount (call env op v) = 0
  /\ exists a, guardians v = {[a]}
       /\ (op = RevokeRole GUARDIAN_ROLE a
           \/ op = RenounceRole GUARDIAN_ROLE a).
Proof.
  intros Hr Hpos Hz. apply reachable_well_formed in Hr.
  pose proof (wf_uint8 _ Hr) as H8. unfold MAX_UINT8 in H8.
  pose proof (wf_count _ Hr) as Hn.
  unfold call in *. destruct (exec env op v) as [[x v']|e] eqn:E; [|lia].
  apply exec_requirement in E
    as [Hsame | [(n & _ & Hn0 & Hset) | (a & Hop & Ha & Hge & Hc & Ht)]];
    try lia.
  rewrite Hz in Ht.
  destruct (guardianCount v - 1 <? approvalsRequired v) eqn:El;
    [apply N.ltb_lt in El | lia].
  rewrite N.mod_small in Ht by lia.
  repeat split; try lia.
  exists a. split; [|assumption].
  assert (size (guardians v) = 1%nat) as Hs by lia.
  apply size_1_elem_of in Hs as [b Hb].
  apply leibniz_equiv in Hb. rewrite Hb in Ha |- *.
  apply elem_of_singleton in Ha. now subst.
Qed.

Lemma requirement_zero_only_without_guardians_witness :
  guardianCount VaultScenario.last_guardian = 1
  /\ guardianCount
       (call (VaultScenario.at_ 1400 10) (RenounceRole GUARDIAN_ROLE 10)
          VaultScenario.last_guardian) = 0
  /\ exists a, guardians VaultScenario.last_guardian = {[a]}
       /\ (RenounceRole GUARDIAN_ROLE 10 = RevokeRole GUARDIAN_ROLE a
           \/ RenounceRole GUARDIAN_ROLE 10 = RenounceRole GUARDIAN_ROLE a).
Proof.
  apply requirement_zero_only_without_guardians.
  - apply reachable_vault_last_guardian.
  - vm_compute. reflexivity.
  - vm_compute. reflexivity.
Defined.

(** **** X18.  GuardianVault, [_grantRole] and [setApprovalsRequired].  A
    requirement of zero is left only through [setApprovalsRequired]:
    granting the guardian role again does not restore it, so until the
    administrator sets a new requirement a request needs no approval. *)
Theorem requirement_zero_is_sticky (env : Env) (op : Op) (v : Vault) :
  approvalsRequired v = 0 ->
  0 < approvalsRequired (call env op v) ->
  exists n, op = SetApprovalsRequired n
    /\ sender env ∈ admins v
    /\ n <= guardianCount v
    /\ approvalsRequired (call env op v) = n.
Proof.
  intros Hz Hpos. unfold call in *.
  destruct (exec env op v) as [[x v']|e] eqn:E; [|lia].
  pose proof E as E'. apply exec_requirement in E'
    as [Hsame | [(n & -> & Hn0 & Hset) | (a & Hop & Ha & Hge & Hc & Ht)]].
  - lia.
  - exists n. cbn [exec] in E. vault_inv E.
    unfold setApprovalsRequired in Hc. vault_inv Hc.
    apply onlyRole_inv in Hc0. apply N.leb_le in Hc2. auto.
  - rewrite Hz in Ht. rewrite Ht in Hpos. cbn in Hpos.
    destruct (guardianCount v - 1 <? 0) eqn:El; [|lia].
    apply N.ltb_lt in El. lia.
Qed.

Lemma requirement_zero_is_sticky_witness :
  approvalsRequired
    (call (VaultScenario.at_ 1500 11) (GrantRole GUARDIAN_ROLE 12)
       VaultScenario.regrouped) = 0
  /\ exists n, SetApprovalsRequired 1 = SetApprovalsRequired n
       /\ sender (VaultScenario.at_ 1500 10) ∈ admins VaultScenario.regrouped
       /\ n <= guardianCount VaultScenario.regrouped
       /\ approvalsRequired
            (call (VaultScenario.at_ 1500 10) (SetApprovalsRequired 1)
               VaultScenario.regrouped) = n.
Proof.
  split; [vm_compute; reflexivity|].
  apply requirement_zero_is_sticky; vm_compute; reflexivity.
Defined.

(** **** X19.  GuardianVault, [executeWithdrawal].  In a reachable state a
    withdrawal is carried out only for a stored, unsettled and unexpired
    request, by a guardian, while the vault is not paused, and only when at
    least [approvalsRequired] distinct addresses have their approval flag
    set: the approval counter of a request always equals the number of
    flagged addresses.  The request is then marked executed, and an ETH
    payment to another address lowers the balance by the amount. *)
Theorem execution_needs_quorum (env : Env) (id : N) (v v' : Vault)
  (x : option N) :
  reachable v ->
  exec env (ExecuteWithdrawal id) v = Done (x, v') ->
  let r := request_of v id in
  paused v = false /\ sender env ∈ guardians v /\ active env r
  /\ approvals r = N.of_nat (size (approvers_of v id))
  /\ approvalsRequired v <= N.of_nat (size (approvers_of v id))
  /\ request_of v' id = with_executed r
  /\ (asset r = 0 -> amount r <= balance v
      /\ balance v' = (if to r =? self v then balance v
                       else balance v - amount r)).
Proof.
  intros Hr H. apply reachable_well_formed in Hr. cbv zeta.
  cbn [exec] in H. vault_inv H. injection H as <- <-.
  apply executeWithdrawal_inv in Hc as (Hp & Hg & Hact & Hq & Hx).
  cbv zeta in Hx.
  pose proof Hact as (Ham & _).
  apply request_stored, (wf_requests _ Hr) in Ham as (_ & _ & _ & Hk).
  rewrite <- Hk.
  repeat split; try assumption; try apply Hact.
  - destruct (asset (request_of v id) =? 0).
    + apply transferEth_inv in Hx as [_ [[_ ->] | (_ & _ & ->)]];
        unfold request_of; cbn; now rewrite lookup_insert_eq.
    + apply transferToken_inv in Hx as (ledger & _ & _ & ->).
      unfold request_of. cbn. now rewrite lookup_insert_eq.
  - rewrite H in Hx. cbn in Hx.
    apply transferEth_inv in Hx as [Hle _]. exact Hle.
  - rewrite H in Hx. cbn in Hx.
    apply transferEth_inv in Hx as [_ [[Ht ->] | (Ht & _ & ->)]]; cbn in *.
    + rewrite Ht, N.eqb_refl. reflexivity.
    + apply N.eqb_neq in Ht. rewrite Ht. reflexivity.
Qed.

Lemma execution_needs_quorum_witness :
  let r := request_of VaultScenario.approved 1 in
  paused VaultScenario.approved = false
  /\ sender (VaultScenario.at_ 1300 13) ∈ guardians VaultScenario.approved
  /\ active (VaultScenario.at_ 1300 13) r
  /\ approvals r = N.of_nat (size (approvers_of VaultScenario.approved 1))
  /\ approvalsRequired VaultScenario.approved
     <= N.of_nat (size (approvers_of VaultScenario.approved 1))
  /\ request_of VaultScenario.paid 1 = with_executed r
  /\ (asset r = 0 -> amount r <= balance VaultScenario.approved
      /\ balance VaultScenario.paid
         = (if to r =? self VaultScenario.approved
            then balance VaultScenario.approved
            else balance VaultScenario.approved - amount r)).
Proof.
  apply (execution_needs_quorum (VaultScenario.at_ 1300 13) 1
           VaultScenario.approved VaultScenario.paid None).
  - apply reachable_vault_approved.
  - vm_compute. reflexivity.
Defined.

(** Which calls write a request. *)
Lemma exec_request_touched (env : Env) (op : Op) (v : Vault) (x : option N)
  (v' : Vault) (id : N) :
  exec env op v = Done (x, v') ->
  request_of v' id <> request_of v id ->
  (exists a t n d, op = CreateWithdrawal a t n d /\ id = _nextRequestId v)
  \/ ((op = ApproveWithdrawal id \/ op = RevokeApproval id
       \/ op = ExecuteWithdrawal id \/ op = CancelWithdrawal id)
      /\ _isInactive (request_of v id) = false).
Proof.
  intros H Hne.
  assert (forall r i (w : Vault),
             _withdrawals w = <[i := r]> (_withdrawals v) ->
             request_of w id <> request_of v id -> id = i) as Htouch.
  { intros r i w Hw Hd. destruct (decide (id = i)) as [|Hni]; [assumption|].
    exfalso. apply Hd. unfold request_of. rewrite Hw.
    now rewrite lookup_insert_ne by congruence. }
  assert (forall w : Vault, _withdrawals w = _withdrawals v ->
                            request_of w id = request_of v id) as Hsame.
  { intros w Hw. unfold request_of. now rewrite Hw. }
  assert (forall r, active env r -> _isInactive r = false) as Hact.
  { intros r (_ & He & Hx & _). unfold _isInactive. now rewrite He, Hx. }
  destruct op as [value|value|a t n d|i|i|i|i| | |n|r a|r a|r a];
    cbn [exec] in H; vault_inv H; try (injection H as <- <-).
  - injection Hc as <-. now contradict Hne.
  - unfold deposit in Hc. vault_inv Hc. injection Hc as <-.
    now contradict Hne.
  - destruct a0 as [id1 v1]. injection H as <- <-.
    apply createWithdrawal_inv in Hc as (_ & _ & _ & _ & _ & -> & ->).
    left. exists a, t, n, d. split; [reflexivity|].
    eapply Htouch; [|exact Hne]. reflexivity.
  - apply approveWithdrawal_inv in Hc as (_ & _ & Ha & _ & _ & ->).
    assert (id = i) as -> by (eapply Htouch; [|exact Hne]; reflexivity).
    right. split; [tauto | now apply Hact in Ha].
  - apply revokeApproval_inv in Hc as (_ & _ & Ha & _ & _ & ->).
    assert (id = i) as -> by (eapply Htouch; [|exact Hne]; reflexivity).
    right. split; [tauto | now apply Hact in Ha].
  - apply executeWithdrawal_inv in Hc as (_ & _ & Ha & _ & Hx).
    cbv zeta in Hx.
    assert (_withdrawals a
            = <[i := with_executed (request_of v i)]> (_withdrawals v))
      as Hw.
    { destruct (asset (request_of v i) =? 0).
      - apply transferEth_inv in Hx as [_ [[_ ->] | (_ & _ & ->)]];
          reflexivity.
      - apply transferToken_inv in Hx as (ledger & _ & _ & ->).
        reflexivity. }
    assert (id = i) as -> by (eapply Htouch; [exact Hw|exact Hne]).
    right. split; [tauto | now apply Hact in Ha].
  - apply cancelWithdrawal_inv in Hc as (_ & _ & He & Hx & ->).
    assert (id = i) as -> by (eapply Htouch; [|exact Hne]; reflexivity).
    right. split; [tauto|]. unfold _isInactive. now rewrite He, Hx.
  - unfold pause in Hc. vault_inv Hc. injection Hc as <-.
    now contradict Hne.
  - unfold unpause in Hc. vault_inv Hc. injection Hc as <-.
    now contradict Hne.
  - unfold setApprovalsRequired in Hc. vault_inv Hc. injection Hc as <-.
    now contradict Hne.
  - unfold grantRole in Hc. vault_inv Hc. destruct a2 as [u1 v1].
    injection Hc as <-.
    apply grantRole_cases in Hc1 as ((_ & _ & _ & Hw & _) & _).
    contradict Hne. now apply Hsame.
  - unfold revokeRole in Hc. vault_inv Hc. destruct a2 as [u1 v1].
    injection Hc as <-.
    apply revokeRole_cases in Hc1 as ((_ & _ & _ & Hw & _) & _).
    contradict Hne. now apply Hsame.
  - unfold renounceRole in Hc. vault_inv Hc. destruct a1 as [u1 v1].
    injection Hc as <-.
    apply revokeRole_cases in Hc1 as ((_ & _ & _ & Hw & _) & _).
    contradict Hne. now apply Hsame.
Qed.

Lemma request_eq_dec (r r' : WithdrawalRequest) : {r = r'} + {r <> r'}.
Proof. repeat decide equality. Qed.

Lemma settled_stays (env : Env) (op : Op) (v : Vault) (id : N) :
  well_formed v -> _isInactive (request_of v id) = true ->
  request_of (call env op v) id = request_of v id.
Proof.
  intros Hwf Hin. unfold call.
  destruct (exec env op v) as [[x v']|e] eqn:E; [|reflexivity].
  destruct (request_eq_dec (request_of v' id) (request_of v id))
    as [|Hne]; [assumption|].
  exfalso. eapply exec_request_touched in Hne; [|exact E].
  destruct Hne as [(a & t & n & d & _ & ->) | [_ Hf]]; [|congruence].
  assert (0 < amount (request_of v (_nextRequestId v))) as Ham.
  { unfold request_of in *.
    destruct (_withdrawals v !! _nextRequestId v) as [r|] eqn:El.
    - apply (wf_requests _ Hwf) in El. cbn. tauto.
    - cbn in Hin. discriminate. }
  apply request_stored, (wf_requests _ Hwf) in Ham. lia.
Qed.

(** **** X20.  GuardianVault, [_activeRequest] and [_isInactive].  A request that
    has been executed or cancelled is final: whatever calls follow, its
    record stays as it is, and [executeWithdrawal] on it aborts.  So each
    request pays out at most once, and a cancelled request never. *)
Theorem settled_requests_are_final (calls : list (Env * Op)) (v : Vault)
  (id : N) :
  reachable v ->
  _isInactive (request_of v id) = true ->
  Forall (fun c => well_typed (snd c) = true) calls ->
  request_of (run calls v) id = request_of v id
  /\ forall env, exists e,
       exec env (ExecuteWithdrawal id) (run calls v) = Failed e.
Proof.
  intros Hr Hin Hty. apply reachable_well_formed in Hr.
  assert (request_of (run calls v) id = request_of v id) as Hsame.
  { revert v Hr Hin. induction Hty as [|[env op] calls Hop _ IH];
      intros v Hr Hin; [reflexivity|].
    cbn [run]. cbn [snd] in Hop.
    pose proof (settled_stays env op v id Hr Hin) as Hstep.
    rewrite IH; [assumption | now apply call_well_formed | congruence]. }
  split; [assumption|]. intros env.
  destruct (exec env (ExecuteWithdrawal id) (run calls v))
    as [[x v']|e] eqn:E; [|eauto].
  exfalso. cbn [exec] in E. vault_inv E.
  apply executeWithdrawal_inv in Hc as (_ & _ & (_ & He & Hx & _) & _).
  rewrite Hsame in He, Hx. unfold _isInactive in Hin.
  rewrite He, Hx in Hin. discriminate.
Qed.

Lemma settled_requests_are_final_witness :
  let calls :=
    [(VaultScenario.at_ 1500 11, ApproveWithdrawal 1);
     (VaultScenario.at_ 1500 10, CancelWithdrawal 1);
     (VaultScenario.at_ 1500 11, CreateWithdrawal 0 78 100 0)] in
  request_of (run calls VaultScenario.paid) 1
  = request_of VaultScenario.paid 1
  /\ forall env, exists e,
       exec env (ExecuteWithdrawal 1) (run calls VaultScenario.paid)
       = Failed e.
Proof.
  apply settled_requests_are_final.
  - apply reachable_vault_paid.
  - vm_compute. reflexivity.
  - repeat constructor.
Defined.

(** **** X21.  GuardianVault, [createWithdrawal].  In a reachable state a new
    request gets an id that was never used: no request is stored under it,
    nobody has an approval flag for it, and every other request and its
    approvals are left as they were.  Ids start at one and go up by one. *)
Theorem withdrawal_ids_are_fresh (env : Env) (a t : address) (n d : N)
  (v v' : Vault) (id : N) :
  reachable v ->
  createWithdrawal env a t n d v = Done (id, v') ->
  1 <= id /\ id = _nextRequestId v /\ _nextRequestId v' = id + 1
  /\ _withdrawals v !! id = None
  /\ request_of v' id = mkRequest a t n d false false 0
  /\ approvers_of v' id = ∅
  /\ forall id', id' <> id ->
       request_of v' id' = request_of v id'
       /\ approvers_of v' id' = approvers_of v id'.
Proof.
  intros Hr H. apply reachable_well_formed in Hr.
  apply createWithdrawal_inv in H as (_ & _ & _ & _ & _ & -> & ->).
  pose proof (wf_next _ Hr) as Hnext.
  repeat split; try assumption.
  - destruct (_withdrawals v !! _nextRequestId v) as [r|] eqn:E;
      [|reflexivity].
    apply (wf_requests _ Hr) in E. lia.
  - rewrite request_of_set_request. now rewrite decide_True by reflexivity.
  - apply (no_stale_approvals v _ Hr). lia.
  - rewrite request_of_set_request. now rewrite decide_False by assumption.
Qed.

Lemma withdrawal_ids_are_fresh_witness :
  let v' :=
    call (VaultScenario.at_ 1250 12) (CreateWithdrawal 0 78 100 0)
      VaultScenario.approved in
  1 <= 2 /\ 2 = _nextRequestId VaultScenario.approved
  /\ _nextRequestId v' = 2 + 1
  /\ _withdrawals VaultScenario.approved !! 2 = None
  /\ request_of v' 2 = mkRequest 0 78 100 0 false false 0
  /\ approvers_of v' 2 = ∅
  /\ forall id', id' <> 2 ->
       request_of v' id' = request_of VaultScenario.approved id'
       /\ approvers_of v' id' = approvers_of VaultScenario.approved id'.
Proof.
  apply (withdrawal_ids_are_fresh (VaultScenario.at_ 1250 12) 0 78 100 0).
  - apply reachable_vault_approved.
  - vm_compute. reflexivity.
Defined.

(** **** X22.  GuardianVault, funds.  What the vault holds goes down only by
    [executeWithdrawal]: if a call lowers the ETH balance, or the vault's
    balance of an ERC-20 asset, then it executes a request for that asset
    and the decrease is exactly the requested amount.  No other function,
    and no caller without an executable request, takes funds out. *)
Theorem funds_leave_only_by_execution (env : Env) (op : Op) (v : Vault) :
  (balance (call env op v) < balance v ->
   exists id, op = ExecuteWithdrawal id
     /\ asset (request_of v id) = 0
     /\ balance (call env op v) = balance v - amount (request_of v id))
  /\ (forall token, holding token (call env op v) < holding token v ->
      exists id, op = ExecuteWithdrawal id
        /\ asset (request_of v id) = token /\ token <> 0
        /\ holding token (call env op v)
           = holding token v - amount (request_of v id)).
Proof.
  unfold call. destruct (exec env op v) as [[x v']|e] eqn:H;
    [|split; [|intros token]; lia].
  assert (forall w : Vault, balance v <= balance w -> assets w = assets v ->
            self w = self v ->
            (balance w < balance v -> False)
            /\ (forall token, holding token w < holding token v -> False))
    as Hframe.
  { intros w Hb Ha Hs. split; [lia|]. intros token. unfold holding.
    rewrite Ha, Hs. lia. }
  assert (forall w P Q, ((balance w < balance v -> False)
            /\ (forall token, holding token w < holding token v -> False)) ->
            (balance w < balance v -> P)
            /\ (forall token, holding token w < holding token v -> Q token))
    as Hweak.
  { intros w P Q [H1 H2]. split; [tauto|]. intros token Ht.
    now apply H2 in Ht. }
  destruct op as [value|value|a t n d|i|i|i|i| | |n|r a|r a|r a];
    cbn [exec] in H; vault_inv H; try (injection H as <- <-).
  - injection Hc as <-. apply Hweak, Hframe; cbn; try reflexivity. lia.
  - unfold deposit in Hc. vault_inv Hc. injection Hc as <-.
    apply Hweak, Hframe; cbn; try reflexivity. lia.
  - destruct a0 as [id1 v1]. injection H as <- <-.
    apply createWithdrawal_inv in Hc as (_ & _ & _ & _ & _ & -> & ->).
    apply Hweak, Hframe; cbn; try reflexivity.
  - apply approveWithdrawal_inv in Hc as (_ & _ & _ & _ & _ & ->).
    apply Hweak, Hframe; cbn; try reflexivity.
  - apply revokeApproval_inv in Hc as (_ & _ & _ & _ & _ & ->).
    apply Hweak, Hframe; cbn; try reflexivity.
  - apply executeWithdrawal_inv in Hc as (_ & _ & _ & _ & Hx).
    cbv zeta in Hx. destruct (asset (request_of v i) =? 0) eqn:Ea.
    + apply N.eqb_eq in Ea.
      apply transferEth_inv in Hx as [Hle [[_ ->] | (_ & _ & ->)]].
      * apply Hweak, Hframe; cbn; try reflexivity.
      * split.
        -- intros _. exists i. cbn. auto.
        -- intros token. unfold holding. cbn. lia.
    + apply N.eqb_neq in Ea.
      apply transferToken_inv in Hx as (ledger & Hl & Hle & ->).
      cbn [assets self set_request] in Hl, Hle. split; [cbn; lia|].
      intros token. unfold holding. cbn [assets set_assets set_request self].
      destruct (decide (token = asset (request_of v i))) as [->|Hne].
      * rewrite lookup_insert_eq, Hl.
        rewrite !(default_written (A := gmap N N)).
        destruct (decide (to (request_of v i) = self v)) as [Ht|Ht].
        -- rewrite Ht, !lookup_insert_eq, !default_written. lia.
        -- rewrite lookup_insert_ne, lookup_insert_eq by congruence.
           rewrite !default_written. intros _. exists i. auto.
      * rewrite lookup_insert_ne by congruence. lia.
  - apply cancelWithdrawal_inv in Hc as (_ & _ & _ & _ & ->).
    apply Hweak, Hframe; cbn; try reflexivity.
  - unfold pause in Hc. vault_inv Hc. injection Hc as <-.
    apply Hweak, Hframe; cbn; try reflexivity.
  - unfold unpause in Hc. vault_inv Hc. injection Hc as <-.
    apply Hweak, Hframe; cbn; try reflexivity.
  - unfold setApprovalsRequired in Hc. vault_inv Hc. injection Hc as <-.
    apply Hweak, Hframe; cbn; try reflexivity.
  - unfold grantRole in Hc. vault_inv Hc. destruct a2 as [u1 v1].
    injection Hc as <-.
    apply grantRole_cases in Hc1 as ((Hs & Hb & _ & _ & _ & _ & Ha) & _).
    apply Hweak, Hframe; try assumption. lia.
  - unfold revokeRole in Hc. vault_inv Hc. destruct a2 as [u1 v1].
    injection Hc as <-.
    apply revokeRole_cases in Hc1 as ((Hs & Hb & _ & _ & _ & _ & Ha) & _).
    apply Hweak, Hframe; try assumption. lia.
  - unfold renounceRole in Hc. vault_inv Hc. destruct a1 as [u1 v1].
    injection Hc as <-.
    apply revokeRole_cases in Hc1 as ((Hs & Hb & _ & _ & _ & _ & Ha) & _).
    apply Hweak, Hframe; try assumption. lia.
Qed.

(** **** X23.  GuardianVault, constructor.  A vault is deployed only for a
    non-empty list of distinct non-zero guardians and a requirement between
    one and the length of the list.  The deployer becomes the administrator
    and a guardian besides the listed ones (counted once when listed), the
    pauser is the given address or, for the zero address, the deployer, and
    request ids start at one. *)
Theorem constructor_guardians (env : Env) (this : address)
  (gs : list address) (threshold : N) (pauser : address) (v : Vault) :
  constructor env this gs threshold pauser = Done v ->
  NoDup gs /\ (forall g, g ∈ gs -> g <> 0)
  /\ 0 < threshold /\ threshold <= N.of_nat (length gs)
  /\ approvalsRequired v = threshold
  /\ guardians v = list_to_set gs ∪ {[sender env]}
  /\ guardianCount v
     = N.of_nat (length gs)
       + (if bool_decide (sender env ∈ gs) then 0 else 1)
  /\ admins v = {[sender env]}
  /\ pausers v = {[if pauser =? 0 then sender env else pauser]}
  /\ paused v = false /\ _nextRequestId v = 1 /\ _withdrawals v = ∅.
Proof.
  intros H. apply constructor_inv in H
    as ([Ht1 Ht2] & Hnd & Hz & Hg & Hn & Ha & Hp & Hr & _ & _ & Hpz & Hx
        & Hw & _).
  repeat split; try assumption.
  rewrite Hn, Hg. case_bool_decide as Hin.
  - replace (list_to_set gs ∪ {[sender env]} : gset N)
      with (list_to_set gs : gset N).
    + rewrite size_list_to_set by assumption. lia.
    + apply set_eq. intros y. set_unfold. intuition congruence.
  - rewrite size_union.
    + rewrite size_list_to_set by assumption. rewrite size_singleton. lia.
    + intros y Hy1 Hy2. set_unfold. congruence.
Qed.

Lemma constructor_guardians_witness :
  NoDup [11; 12; 13] /\ (forall g, g ∈ [11; 12; 13] -> g <> 0)
  /\ 0 < 2 /\ 2 <= N.of_nat (length [11; 12; 13])
  /\ approvalsRequired VaultScenario.deployed = 2
  /\ guardians VaultScenario.deployed
     = list_to_set [11; 12; 13] ∪ {[sender (VaultScenario.at_ 1000 10)]}
  /\ guardianCount VaultScenario.deployed
     = N.of_nat (length [11; 12; 13])
       + (if bool_decide (sender (VaultScenario.at_ 1000 10) ∈ [11; 12; 13])
          then 0 else 1)
  /\ admins VaultScenario.deployed = {[sender (VaultScenario.at_ 1000 10)]}
  /\ pausers VaultScenario.deployed
     = {[if 0 =? 0 then sender (VaultScenario.at_ 1000 10) else 0]}
  /\ paused VaultScenario.deployed = false
  /\ _nextRequestId VaultScenario.deployed = 1
  /\ _withdrawals VaultScenario.deployed = ∅.
Proof.
  apply (constructor_guardians (VaultScenario.at_ 1000 10) 500 [11; 12; 13]
           2 0).
  vm_compute. reflexivity.
Defined.

(** **** X24.  GuardianVault, [approveWithdrawal] and [revokeApproval].  An
    approval can be taken back: after a guardian has approved a request,
    the same guardian's [revokeApproval] succeeds as long as the request
    has not expired, and every request and every approval flag are again
    as before the approval. *)
Theorem approval_can_be_taken_back (env env' : Env) (id : N)
  (v v1 : Vault) :
  approveWithdrawal env id v = Done v1 ->
  sender env' = sender env ->
  (deadline (request_of v id) <> 0 ->
   timestamp env' <= deadline (request_of v id)) ->
  exists v2, revokeApproval env' id v1 = Done v2
    /\ (forall id', request_of v2 id' = request_of v id'
                    /\ approvers_of v2 id' = approvers_of v id')
    /\ balance v2 = balance v /\ guardians v2 = guardians v
    /\ approvalsRequired v2 = approvalsRequired v
    /\ _nextRequestId v2 = _nextRequestId v.
Proof.
  intros H Hs Hd.
  apply approveWithdrawal_inv in H
    as (Hp & Hg & (Ham & He & Hx & _) & Hnew & Hle & ->).
  set (r := request_of v id) in *. set (A := approvers_of v id) in *.
  set (v1 := set_request id _ _).
  assert (request_of v1 id = with_approvals (approvals r + 1) r) as Hr1.
  { unfold v1. rewrite request_of_set_request.
    now rewrite decide_True by reflexivity. }
  assert (approvers_of v1 id = {[sender env]} ∪ A) as Ha1.
  { unfold v1, approvers_of. cbn. now rewrite lookup_insert_eq. }
  unfold revokeApproval, whenNotPaused, onlyRole.
  replace (paused v1) with false by (symmetry; exact Hp).
  replace (hasRole GUARDIAN_ROLE (sender env') v1) with true
    by (symmetry; apply hasRole_true; rewrite Hs; exact Hg).
  cbn [negb ensure andThen].
  rewrite activeRequest_done
    by (rewrite Hr1; unfold active; cbn; auto).
  cbn [andThen]. rewrite Ha1, Hr1, Hs.
  rewrite bool_decide_eq_true_2
    by (apply elem_of_union_l, elem_of_singleton; reflexivity).
  cbn [ensure andThen approvals with_approvals].
  replace (1 <=? approvals r + 1) with true
    by (symmetry; apply N.leb_le; lia).
  cbn [ensure andThen]. eexists. split; [reflexivity|].
  split; [|repeat split].
  intros id'.
  rewrite request_of_set_request, approvers_of_set_request,
    approvers_of_set_approvers, request_of_set_approvers.
  destruct (decide (id' = id)) as [->|Hne].
  - split.
    + unfold with_approvals. cbn.
      replace (approvals r + 1 - 1) with (approvals r) by lia.
      change (request_of v id) with r. generalize r. intros []. reflexivity.
    + change (approvers_of v id) with A. apply set_eq. intros y.
      rewrite elem_of_difference, elem_of_union, !elem_of_singleton.
      split; [tauto|]. intros Hy. split; [tauto|]. intros ->. contradiction.
  - unfold v1.
    rewrite request_of_set_request, approvers_of_set_request,
      approvers_of_set_approvers, request_of_set_approvers.
    rewrite !decide_False by assumption. split; reflexivity.
Qed.

Lemma approval_can_be_taken_back_witness :
  exists v2,
    revokeApproval (VaultScenario.at_ 1900 13) 1
      (call (VaultScenario.at_ 1250 13) (ApproveWithdrawal 1)
         VaultScenario.approved) = Done v2
    /\ (forall id', request_of v2 id' = request_of VaultScenario.approved id'
          /\ approvers_of v2 id' = approvers_of VaultScenario.approved id')
    /\ balance v2 = balance VaultScenario.approved
    /\ guardians v2 = guardians VaultScenario.approved
    /\ approvalsRequired v2 = approvalsRequired VaultScenario.approved
    /\ _nextRequestId v2 = _nextRequestId VaultScenario.approved.
Proof.
  apply (approval_can_be_taken_back (VaultScenario.at_ 1250 13)).
  - vm_compute. reflexivity.
  - reflexivity.
  - intros _. vm_compute. discriminate.
Defined.

End Vault.
